(** * The eBay reconciliation engine of the warehouse inventory tracker

    A shallow embedding of the sync code of the server module
    ([captureEbaySnapshot], [captureLocalSnapshot], [detectEbayChanges],
    [createLocalItemFromEbay], [pullFromEbay], [pushToEbay],
    [smartSyncAll], [syncItemToEbay]) together with the data-access layer
    it calls ([data.getAllItems], [data.getItem], [data.createItem],
    [data.updateItem], [data.addHistory]) and [formatItem].

    Modelling conventions.
    - Quantities are JavaScript numbers holding integers; they are
      modelled as [Z].  [parseInt] is modelled on ASCII strings, [None]
      standing for NaN.  The code computes with doubles, which agree
      with [Z] on the integers up to [Number.MAX_SAFE_INTEGER]
      ([max_safe_integer], [safe_qty]): a statement about quantities
      that the remote side or a request supplies says so.
    - Prices are JavaScript doubles.  Their type [num] and [parseFloat]
      are parameters of the development: only strict equality and
      truthiness of prices are ever used by the sync code.
    - A timestamp is a [Date] or the text of one ([Instant]); a date
      that is never compared is given by its millisecond value.
    - The local store is the JSON backend of the data layer (the branch
      taken when [USE_LOCAL_DB] is set), a JavaScript object used as a map
      from SKU to record; so are [ebayInventory] and [localMap].  Such an
      object is a [gmap]; [Object.values] and [Object.entries] enumerate
      it in the order of [map_to_list].  The object of the code also
      answers for the member names of [Object.prototype], which a [gmap]
      does not: a statement about a read that finds no record is made
      for the other keys ([own_key]).
    - The code is asynchronous and every awaited call to the data layer
      or to eBay may reject (with the document-store backend the data
      layer does I/O too).  The world carries a script saying which of
      the coming awaited calls reject and with which message, and a
      logical clock that ticks at every awaited call.
    - The result object of an entry point is part of the world, so that
      what was pushed on it before a rejection is still there in the
      [catch] clause. *)

From Stdlib Require Import ZArith String Ascii List.
From stdpp Require Import gmap strings list fin_maps pretty.

Local Open Scope string_scope.
Local Open Scope Z_scope.

(** ** JavaScript primitives *)

(** [parseInt(s)] with no radix argument: leading white space, an optional
    sign, an optional [0x] prefix, then the longest run of digits.  The
    result is the integer that the digits denote; the code gets the
    double nearest to it, which is that integer when it is at most
    [Number.MAX_SAFE_INTEGER] in absolute value. *)
Definition is_space (c : ascii) : bool :=
  let n := Z.of_N (N_of_ascii c) in
  ((9 <=? n) && (n <=? 13)) || (n =? 32).

Fixpoint skip_spaces (s : string) : string :=
  match s with
  | String c s' => if is_space c then skip_spaces s' else s
  | EmptyString => s
  end.

Definition digit_val (radix : Z) (c : ascii) : option Z :=
  let n := Z.of_N (N_of_ascii c) in
  let v := if (48 <=? n) && (n <=? 57) then Some (n - 48)
           else if (97 <=? n) && (n <=? 122) then Some (n - 87)
           else if (65 <=? n) && (n <=? 90) then Some (n - 55)
           else None in
  match v with
  | Some d => if d <? radix then Some d else None
  | None => None
  end.

Fixpoint digits (radix : Z) (s : string) (acc : option Z) : option Z :=
  match s with
  | String c s' =>
      match digit_val radix c with
      | Some d => digits radix s' (Some (radix * default 0 acc + d))
      | None => acc
      end
  | EmptyString => acc
  end.

Definition parseInt (s : string) : option Z :=
  let s1 := skip_spaces s in
  let '(neg, s2) :=
    match s1 with
    | String "-" r => (true, r)
    | String "+" r => (false, r)
    | _ => (false, s1)
    end in
  let '(radix, s3) :=
    match s2 with
    | String "0" (String "x" r) => (16, r)
    | String "0" (String "X" r) => (16, r)
    | _ => (10, s2)
    end in
  match digits radix s3 None with
  | Some v => Some (if neg then - v else v)
  | None => None
  end.

(** [n || d] for a number [n] that may be NaN: 0 and NaN are falsy. *)
Definition num_or (n : option Z) (d : Z) : Z :=
  match n with
  | Some v => if decide (v = 0) then d else v
  | None => d
  end.

(** [s || d] for strings: the empty string is falsy. *)
Definition str_or (s d : string) : string :=
  if decide (s = "") then d else s.

(** [a ?? b] on a value that may be [null] or [undefined]. *)
Definition nullish {A} (a : option A) (b : A) : A := default b a.

(** The property key a possibly undefined value is converted to. *)
Definition prop_key (k : option string) : string := default "undefined" k.

(** An instant as a record holds it: a [Date] object, or the text that
    [toISOString] makes of one.  [data.updateItem] writes [lastModified]
    as such a text; every other instant that the code stores is a
    [new Date()].  Both are given by their millisecond value. *)
Inductive Instant :=
| DateObject (t : Z)
| IsoText (t : Z).


(** [a > b] on two such values.  Two dates compare by their time
    values, and two texts of [toISOString] as texts, which for the years
    0 to 9999 is the order of the instants.  A text against a date is
    converted to a number, which it is not: a comparison with NaN is
    false. *)
Definition later (a b : Instant) : bool :=
  match a, b with
  | DateObject x, DateObject y => bool_decide (x > y)
  | IsoText x, IsoText y => bool_decide (x > y)
  | _, _ => false
  end.

(** The names of the members of [Object.prototype].  A JavaScript object
    used as a map answers [obj[k]] with the inherited member when [k] is
    one of them and the object has no property [k] of its own, and with
    [undefined] for any other [k] it has no property for. *)
Definition object_members : list string :=
  ["constructor"; "__proto__"; "hasOwnProperty"; "isPrototypeOf";
   "propertyIsEnumerable"; "toLocaleString"; "toString"; "valueOf";
   "__defineGetter__"; "__defineSetter__"; "__lookupGetter__";
   "__lookupSetter__"].

(** A key under which a map of the model and the object of the code read
    the same, whether the key is in use or not. *)
Definition own_key (k : string) : Prop := k ∉ object_members.

(** [Number.MAX_SAFE_INTEGER]: up to it the integers are JavaScript
    numbers and their sums and differences are exact. *)
Definition max_safe_integer : Z := 2 ^ 53 - 1.

(** A quantity in stock that is such a number. *)
Definition safe_qty (q : Z) : Prop := 0 <= q <= max_safe_integer.

(** A whole number, of either sign, that a JavaScript number holds
    exactly. *)
Definition exact (n : Z) : Prop := - max_safe_integer <= n <= max_safe_integer.

(** ** Outcome of an awaited call *)

Inductive outcome (A : Type) : Type :=
| Ok (a : A)
| Throw (msg : string).
Arguments Ok {A} a.
Arguments Throw {A} msg.

Section Model.

(** Prices: the doubles up to [===], without NaN. *)
Context {num : Type} `{EqDecision num}.
Variable num_zero : num.
(** [parseFloat], [None] standing for NaN. *)
Variable parseFloat : string -> option num.

Definition price_or (n : option num) (d : num) : num :=
  match n with
  | Some v => if decide (v = num_zero) then d else v
  | None => d
  end.

(** ** Data model *)

Record HistoryEntry := {
  h_date : Z;
  h_action : string;
  h_qty : Z;
  h_newTotal : Z;
  h_note : string
}.

Record Snapshot := {
  snap_quantity : Z;
  snap_price : num;
  snap_title : string;
  snap_description : string;
  snap_condition : string;
  snap_takenAt : Z
}.

Record EbaySync := {
  snapshot : option Snapshot;
  lastSyncTime : option Instant;
  ebayItemId : option string;
  status : string
}.

(** A stored inventory record ([categoryId], [categoryName] and
    [itemSpecifics] play no part in reconciliation and are left out). *)
Record Item := {
  sku : string;
  itemCode : string;
  drawerNumber : string;
  positionNumber : string;
  fullLocation : string;
  price : num;
  currentQty : Z;
  description : string;
  condition : option string;
  dateAdded : Z;
  lastModified : Instant;
  lastSyncedQty : option Z;
  ebaySync : option EbaySync;
  history : list HistoryEntry
}.

(** One entry of the list built by [getActiveListings]: every field is a
    string taken from the XML answer; [description] and [condition] are
    never set on it. *)
Record EbayItem := {
  e_itemId : string;
  e_sku : string;
  e_title : string;
  e_price : string;
  e_quantity : string
}.

Record EbayData := {
  d_items : list EbayItem;
  d_error : option string
}.

(** The object returned by [formatItem]. It has a property [SKU] and no
    property named [sku]. *)
Record FormattedItem := {
  f_SKU : string;
  f_ItemCode : string;
  f_DrawerNumber : string;
  f_PositionNumber : string;
  f_FullLocation : string;
  f_Price : num;
  f_Quantity : Z;
  f_Description : string;
  f_DateAdded : Z;
  f_LastModified : Instant
}.

(** The argument of [syncItemToEbay]. *)
Record WarehouseItem := {
  w_SKU : string;
  w_Price : num;
  w_Quantity : Z;
  w_Description : string;
  w_FullLocation : string;
  w_Condition : string
}.

(** The inventory item sent to the remote side by [syncItemToEbay]. *)
Record InventoryItemData := {
  r_sku : string;
  r_quantity : Z;
  r_condition : string;
  r_title : string;
  r_description : string;
  r_location : string
}.

(** The argument of [data.updateItem]: the properties that are present. *)
Record Updates := {
  u_currentQty : option Z;
  u_price : option num;
  u_description : option string;
  u_lastSyncedQty : option Z;
  u_ebaySync : option EbaySync
}.

Definition no_updates : Updates :=
  {| u_currentQty := None; u_price := None; u_description := None;
     u_lastSyncedQty := None; u_ebaySync := None |}.

(** [Object.keys(updates).length > 0] for the three properties the pull
    loop may set. *)
Definition present {A} (o : option A) : bool :=
  match o with
  | Some _ => true
  | None => false
  end.

Definition has_keys (u : Updates) : bool :=
  present (u_currentQty u) || present (u_price u) || present (u_description u).

(** ** Aggregate results

    Each entry point builds one result object and pushes entries on its
    lists.  A key is a JavaScript value that may be [undefined]. *)

Inductive UpdatedEntry :=
| UpdatedFields (k : string) (fields : list string)   (* { sku, fields } *)
| UpdatedQty (k : string) (q salesDetected : Z).      (* { sku, qty, salesDetected } *)

Record Results := {
  created : list (option string * string);    (* { sku, title } *)
  updated : list UpdatedEntry;
  skipped : list (option string * string);    (* { sku, reason } *)
  pushed : list (option string * string);     (* { sku, title } *)
  imported : list (string * string);          (* { sku, title } *)
  exported : list (string * string);          (* { sku, title } *)
  sales : list (string * Z * Z);              (* { sku, sold, newQty } *)
  errors : list (option string * string)      (* { sku, error } *)
}.

Definition no_results : Results :=
  {| created := []; updated := []; skipped := []; pushed := [];
     imported := []; exported := []; sales := []; errors := [] |}.

(** ** The world *)

Record World := {
  items : gmap string Item;          (* localInventory.items *)
  remote : EbayData;                 (* what the Trading API answers *)
  sent : list InventoryItemData;     (* remote writes, latest first *)
  lastSync : option Z;               (* the account's lastSync *)
  clock : Z;                         (* Date.now() *)
  script : list (option string);     (* rejections of the coming calls *)
  results : Results                  (* the result object of the call *)
}.

Definition set_items (f : gmap string Item -> gmap string Item) (w : World) : World :=
  {| items := f (items w); remote := remote w; sent := sent w;
     lastSync := lastSync w; clock := clock w; script := script w;
     results := results w |}.

Definition set_sent (f : list InventoryItemData -> list InventoryItemData)
    (w : World) : World :=
  {| items := items w; remote := remote w; sent := f (sent w);
     lastSync := lastSync w; clock := clock w; script := script w;
     results := results w |}.

Definition set_lastSync (t : option Z) (w : World) : World :=
  {| items := items w; remote := remote w; sent := sent w;
     lastSync := t; clock := clock w; script := script w;
     results := results w |}.

Definition set_results (f : Results -> Results) (w : World) : World :=
  {| items := items w; remote := remote w; sent := sent w;
     lastSync := lastSync w; clock := clock w; script := script w;
     results := f (results w) |}.

(** One awaited call goes by: the clock ticks and the script moves on. *)
Definition step (w : World) : World :=
  {| items := items w; remote := remote w; sent := sent w;
     lastSync := lastSync w; clock := clock w + 1; script := tail (script w);
     results := results w |}.

(** ** The monad of asynchronous code *)

Definition M (A : Type) : Type := World -> World * outcome A.

Definition ret {A} (a : A) : M A := fun w => (w, Ok a).

Definition bind {A B} (m : M A) (k : A -> M B) : M B :=
  fun w =>
    match m w with
    | (w', Ok a) => k a w'
    | (w', Throw e) => (w', Throw e)
    end.

Notation "'let!' x ':=' m 'in' k" := (bind m (fun x => k))
  (at level 10, x name, m at level 100, k at level 200).
Notation "'let!' ' p ':=' m 'in' k" := (bind m (fun p => k))
  (at level 10, p strict pattern, m at level 100, k at level 200).
Notation "'do!' m 'in' k" := (bind m (fun _ => k))
  (at level 10, m at level 100, k at level 200).

Definition throw {A} (msg : string) : M A := fun w => (w, Throw msg).

Definition gets {A} (f : World -> A) : M A := fun w => (w, Ok (f w)).

Definition modify (f : World -> World) : M unit := fun w => (f w, Ok tt).

(** [try { m } catch (err) { h(err.message) }] *)
Definition try_catch {A} (m : M A) (h : string -> M A) : M A :=
  fun w =>
    match m w with
    | (w', Ok a) => (w', Ok a)
    | (w', Throw e) => h e w'
    end.

(** [await] of a call to the outside: it rejects when the script says so. *)
Definition await : M unit :=
  fun w =>
    match script w with
    | Some msg :: _ => (step w, Throw msg)
    | _ => (step w, Ok tt)
    end.

(** [new Date()] *)
Definition newDate : M Z := gets clock.

(** ** The data-access layer (JSON backend) *)

Definition formatItem (item : Item) : FormattedItem :=
  {| f_SKU := sku item;
     f_ItemCode := itemCode item;
     f_DrawerNumber := drawerNumber item;
     f_PositionNumber := positionNumber item;
     f_FullLocation := fullLocation item;
     f_Price := price_or (Some (price item)) num_zero;
     f_Quantity := currentQty item;
     f_Description := description item;
     f_DateAdded := dateAdded item;
     f_LastModified := lastModified item |}.

(** [item.sku] read on an object returned by [formatItem]: there is no
    such property, the read yields [undefined]. *)
Definition f_sku (item : FormattedItem) : option string := None.

(** [Object.values(localInventory.items).map(formatItem)] *)
Definition getAllItems : M (list FormattedItem) :=
  do! await in
  gets (fun w => formatItem <$> (map_to_list (items w)).*2).

(** [localInventory.items[sku] || null], for a key that has a record or
    is an [own_key] (defined above: for a member name of
    [Object.prototype] that has no record the code reads the inherited
    member, which is not [null]). *)
Definition getItem (k : string) : M (option Item) :=
  do! await in
  gets (fun w => items w !! k).

(** [localInventory.items[itemData.sku] = itemData] *)
Definition createItem (itemData : Item) : M unit :=
  do! await in
  modify (set_items (insert (sku itemData) itemData)).

(** [Object.assign(item, updates, { lastModified: new Date().toISOString() })] *)
Definition assign (item : Item) (u : Updates) (now : Z) : Item :=
  {| sku := sku item;
     itemCode := itemCode item;
     drawerNumber := drawerNumber item;
     positionNumber := positionNumber item;
     fullLocation := fullLocation item;
     price := default (price item) (u_price u);
     currentQty := default (currentQty item) (u_currentQty u);
     description := default (description item) (u_description u);
     condition := condition item;
     dateAdded := dateAdded item;
     lastModified := IsoText now;
     lastSyncedQty :=
       match u_lastSyncedQty u with
       | Some q => Some q
       | None => lastSyncedQty item
       end;
     ebaySync :=
       match u_ebaySync u with
       | Some e => Some e
       | None => ebaySync item
       end;
     history := history item |}.

(** [if (localInventory.items[sku]) { Object.assign(...) }], for a key
    as in [getItem]. *)
Definition updateItem (k : string) (u : Updates) : M unit :=
  do! await in
  modify (fun w =>
    match items w !! k with
    | Some item => set_items (insert k (assign item u (clock w))) w
    | None => w
    end).

(** [localInventory.items[sku].history.push(entry)] *)
Definition push_history (entry : HistoryEntry) (item : Item) : Item :=
  {| sku := sku item;
     itemCode := itemCode item;
     drawerNumber := drawerNumber item;
     positionNumber := positionNumber item;
     fullLocation := fullLocation item;
     price := price item;
     currentQty := currentQty item;
     description := description item;
     condition := condition item;
     dateAdded := dateAdded item;
     lastModified := lastModified item;
     lastSyncedQty := lastSyncedQty item;
     ebaySync := ebaySync item;
     history := history item ++ [entry] |}.

Definition addHistory (k : string) (entry : HistoryEntry) : M unit :=
  do! await in
  modify (fun w =>
    match items w !! k with
    | Some item => set_items (insert k (push_history entry item)) w
    | None => w
    end).

(** ** The remote side *)

Definition getActiveListings : M EbayData :=
  do! await in
  gets remote.

Definition syncItemToEbay (warehouseItem : WarehouseItem) : M unit :=
  let itemData :=
    {| r_sku := w_SKU warehouseItem;
       r_quantity := w_Quantity warehouseItem;
       r_condition := str_or (w_Condition warehouseItem) "NEW";
       r_title := str_or (w_Description warehouseItem)
                         ("Item " +:+ w_SKU warehouseItem);
       r_description := str_or (w_Description warehouseItem) "";
       r_location := w_FullLocation warehouseItem |} in
  (* createOrUpdateInventoryItem *)
  do! await in
  do! modify (set_sent (cons itemData)) in
  (* data.saveAccount(accountId, { lastSync }) *)
  let! now := newDate in
  do! await in
  modify (set_lastSync (Some now)).

(** [for (const x of l) { body(x) }] *)
Fixpoint for_each {A} (l : list A) (body : A -> M unit) : M unit :=
  match l with
  | [] => ret tt
  | x :: l' => do! body x in for_each l' body
  end.

(** A loop that carries local variables of type [S]. *)
Fixpoint for_fold {A S} (l : list A) (s : S) (body : S -> A -> M S) : M S :=
  match l with
  | [] => ret s
  | x :: l' => let! s' := body s x in for_fold l' s' body
  end.

(** Pushing an entry on one list of the result object. *)
Definition push_created (e : option string * string) : M unit :=
  modify (set_results (fun r =>
    {| created := created r ++ [e]; updated := updated r; skipped := skipped r;
       pushed := pushed r; imported := imported r; exported := exported r;
       sales := sales r; errors := errors r |})).

Definition push_updated (e : UpdatedEntry) : M unit :=
  modify (set_results (fun r =>
    {| created := created r; updated := updated r ++ [e]; skipped := skipped r;
       pushed := pushed r; imported := imported r; exported := exported r;
       sales := sales r; errors := errors r |})).

Definition push_skipped (e : option string * string) : M unit :=
  modify (set_results (fun r =>
    {| created := created r; updated := updated r; skipped := skipped r ++ [e];
       pushed := pushed r; imported := imported r; exported := exported r;
       sales := sales r; errors := errors r |})).

Definition push_pushed (e : option string * string) : M unit :=
  modify (set_results (fun r =>
    {| created := created r; updated := updated r; skipped := skipped r;
       pushed := pushed r ++ [e]; imported := imported r; exported := exported r;
       sales := sales r; errors := errors r |})).

Definition push_imported (e : string * string) : M unit :=
  modify (set_results (fun r =>
    {| created := created r; updated := updated r; skipped := skipped r;
       pushed := pushed r; imported := imported r ++ [e]; exported := exported r;
       sales := sales r; errors := errors r |})).

Definition push_exported (e : string * string) : M unit :=
  modify (set_results (fun r =>
    {| created := created r; updated := updated r; skipped := skipped r;
       pushed := pushed r; imported := imported r; exported := exported r ++ [e];
       sales := sales r; errors := errors r |})).

Definition push_sales (e : string * Z * Z) : M unit :=
  modify (set_results (fun r =>
    {| created := created r; updated := updated r; skipped := skipped r;
       pushed := pushed r; imported := imported r; exported := exported r;
       sales := sales r ++ [e]; errors := errors r |})).

Definition push_errors (e : option string * string) : M unit :=
  modify (set_results (fun r =>
    {| created := created r; updated := updated r; skipped := skipped r;
       pushed := pushed r; imported := imported r; exported := exported r;
       sales := sales r; errors := errors r ++ [e] |})).

(** ** Sync helper functions *)

Definition captureEbaySnapshot (ebayItem : EbayItem) (now : Z) : Snapshot :=
  {| snap_quantity := num_or (parseInt (e_quantity ebayItem)) 0;
     snap_price := price_or (parseFloat (e_price ebayItem)) num_zero;
     snap_title := str_or (e_title ebayItem) "";
     snap_description := "";
     snap_condition := "";
     snap_takenAt := now |}.

Definition captureLocalSnapshot (localItem : Item) (now : Z) : Snapshot :=
  {| snap_quantity := num_or (Some (currentQty localItem)) 0;
     snap_price := price_or (Some (price localItem)) num_zero;
     snap_title := str_or (description localItem) "";
     snap_description := str_or (description localItem) "";
     snap_condition := str_or (default "" (condition localItem)) "";
     snap_takenAt := now |}.

(** A change descriptor [{ field, old, new }], or the descriptor
    [{ field: 'all', reason: 'no_snapshot' }]. *)
Inductive Change :=
| ChAll
| ChQuantity (old new : Z)
| ChPrice (old new : num)
| ChTitle (old new : string).

Definition field (c : Change) : string :=
  match c with
  | ChAll => "all"
  | ChQuantity _ _ => "quantity"
  | ChPrice _ _ => "price"
  | ChTitle _ _ => "title"
  end.

Definition detectEbayChanges (currentEbay : EbayItem)
    (snap : option Snapshot) : list Change :=
  match snap with
  | None => [ChAll]
  | Some s =>
      let currentQty := num_or (parseInt (e_quantity currentEbay)) 0 in
      let currentPrice := price_or (parseFloat (e_price currentEbay)) num_zero in
      let currentTitle := str_or (e_title currentEbay) "" in
      (if decide (currentQty <> snap_quantity s)
       then [ChQuantity (snap_quantity s) currentQty] else [])
      ++ (if decide (currentPrice <> snap_price s)
          then [ChPrice (snap_price s) currentPrice] else [])
      ++ (if decide (currentTitle <> snap_title s)
          then [ChTitle (snap_title s) currentTitle] else [])
  end.

(** [s.substring(0, 4).padStart(4, '0')] *)
Definition padStart4 (s : string) : string :=
  let n := String.length s in
  String.concat "" (replicate (4 - n)%nat "0") +:+ s.

Definition createLocalItemFromEbay (ebayItem : EbayItem) (now : Z) : Item :=
  let k := str_or (e_sku ebayItem) (e_itemId ebayItem) in
  let q := num_or (parseInt (e_quantity ebayItem)) 0 in
  {| sku := k;
     itemCode := padStart4 (substring 0 4 k);
     drawerNumber := "000";
     positionNumber := "00";
     fullLocation := "000-00";
     price := price_or (parseFloat (e_price ebayItem)) num_zero;
     currentQty := q;
     description := str_or (e_title ebayItem) ("eBay Item " +:+ k);
     condition := None;
     dateAdded := now;
     lastModified := DateObject now;
     lastSyncedQty := Some q;
     ebaySync :=
       Some {| snapshot := Some (captureEbaySnapshot ebayItem now);
               lastSyncTime := Some (DateObject now);
               ebayItemId := if decide (e_itemId ebayItem = "") then None
                             else Some (e_itemId ebayItem);
               status := "synced" |};
     history :=
       [ {| h_date := now;
            h_action := "EBAY_IMPORT";
            h_qty := q;
            h_newTotal := q;
            h_note := "Imported from eBay listing "
                      +:+ str_or (e_itemId ebayItem) k |} ] |}.

(** Assignments to properties of the [updates] object. *)
Definition upd_currentQty (q : Z) (u : Updates) : Updates :=
  {| u_currentQty := Some q; u_price := u_price u;
     u_description := u_description u;
     u_lastSyncedQty := u_lastSyncedQty u; u_ebaySync := u_ebaySync u |}.

Definition upd_price (p : num) (u : Updates) : Updates :=
  {| u_currentQty := u_currentQty u; u_price := Some p;
     u_description := u_description u;
     u_lastSyncedQty := u_lastSyncedQty u; u_ebaySync := u_ebaySync u |}.

Definition upd_description (d : string) (u : Updates) : Updates :=
  {| u_currentQty := u_currentQty u; u_price := u_price u;
     u_description := Some d;
     u_lastSyncedQty := u_lastSyncedQty u; u_ebaySync := u_ebaySync u |}.

Definition upd_sync (e : EbaySync) (q : Z) (u : Updates) : Updates :=
  {| u_currentQty := u_currentQty u; u_price := u_price u;
     u_description := u_description u;
     u_lastSyncedQty := Some q; u_ebaySync := Some e |}.

(** [localItem.ebaySync?.snapshot] and [localItem.ebaySync?.lastSyncTime] *)
Definition snapshot_of (item : Item) : option Snapshot :=
  match ebaySync item with
  | Some e => snapshot e
  | None => None
  end.

Definition lastSyncTime_of (item : Item) : option Instant :=
  match ebaySync item with
  | Some e => lastSyncTime e
  | None => None
  end.

(** [localModified > (lastSyncTime || new Date(0))] *)
Definition localIsNewer (localModified : Instant) (lastSync : option Instant)
    : bool :=
  later localModified (default (DateObject 0) lastSync).

(** The history entry of a sale detected on eBay:
    [{ date, action: 'EBAY_SALE', qty: -sold, newTotal, note }]. *)
Definition sale_entry (now sold newTotal : Z) (during : string) : HistoryEntry :=
  {| h_date := now;
     h_action := "EBAY_SALE";
     h_qty := - sold;
     h_newTotal := newTotal;
     h_note := pretty sold +:+ " sold on eBay (detected during "
               +:+ during +:+ ")" |}.

(** ** Pull: eBay to local *)

(** [localValue !== snapshotValue] for the field of a change, as the pull
    loop computes it. *)
Definition pull_localChangedSinceSync (localItem : Item)
    (snap : option Snapshot) (change : Change) : bool :=
  match change, snap with
  | ChAll, _ => false
  | _, None => true
  | ChQuantity _ _, Some s => bool_decide (currentQty localItem <> snap_quantity s)
  | ChPrice _ _, Some s => bool_decide (price localItem <> snap_price s)
  | ChTitle _ _, Some s => bool_decide (description localItem <> snap_title s)
  end.

(** The body of [for (const change of ebayChanges)] in [pullFromEbay]; the
    loop carries [updates] and [changedFields]. *)
Definition pull_change (k : string) (ebayItem : EbayItem) (localItem : Item)
    (st : Updates * list string) (change : Change)
    : M (Updates * list string) :=
  let snap := snapshot_of localItem in
  let lastSyncTime := lastSyncTime_of localItem in
  let localModified := lastModified localItem in
  let '(updates, changedFields) := st in
  match change with
  | ChAll =>
      (* No snapshot - accept all eBay values *)
      ret (upd_description (str_or (e_title ebayItem) (description localItem))
             (upd_price (price_or (parseFloat (e_price ebayItem))
                                  (price localItem)) updates),
           (changedFields ++ ["price"; "title"])%list)
  | _ =>
      if negb (pull_localChangedSinceSync localItem snap change) then
        (* Local hasn't changed this field - accept eBay value *)
        match change with
        | ChQuantity _ newQty =>
            let oldQty :=
              nullish (snap_quantity <$> snap)
                (nullish (lastSyncedQty localItem) (currentQty localItem)) in
            if bool_decide (newQty < oldQty) then
              let sold := oldQty - newQty in
              let updates' :=
                upd_currentQty (Z.max 0 (currentQty localItem - sold)) updates in
              let! now := newDate in
              do! addHistory k
                    (sale_entry now sold
                       (Z.max 0 (currentQty localItem - sold)) "pull") in
              ret (updates', (changedFields ++ ["quantity"])%list)
            else ret (updates, (changedFields ++ ["quantity"])%list)
        | ChPrice _ newPrice =>
            ret (upd_price newPrice updates, (changedFields ++ ["price"])%list)
        | ChTitle _ newTitle =>
            ret (upd_description newTitle updates, (changedFields ++ ["title"])%list)
        | ChAll => ret (updates, changedFields)
        end
      else
        (* Both changed - compare timestamps (newest wins) *)
        if negb (localIsNewer localModified lastSyncTime) then
          (* eBay wins *)
          match change with
          | ChPrice _ newPrice =>
              ret (upd_price newPrice updates, (changedFields ++ ["price"])%list)
          | ChTitle _ newTitle =>
              ret (upd_description newTitle updates, (changedFields ++ ["title"])%list)
          | _ => ret (updates, (changedFields ++ [field change])%list)
          end
        else
          (* If local is newer, we skip (keep local value) *)
          ret (updates, changedFields)
  end.

(** The part of the loop body of [pullFromEbay] inside [try]. *)
Definition pull_body (ebayItem : EbayItem) : M unit :=
  let k := str_or (e_sku ebayItem) (e_itemId ebayItem) in
  let! localItem := getItem k in
  match localItem with
  | None =>
      (* Item exists on eBay but not locally - CREATE *)
      let! now := newDate in
      do! createItem (createLocalItemFromEbay ebayItem now) in
      push_created (Some k, e_title ebayItem)
  | Some localItem =>
      (* Item exists both places - check for changes *)
      let ebayChanges := detectEbayChanges ebayItem (snapshot_of localItem) in
      if bool_decide (ebayChanges = []) then
        push_skipped (Some k, "No eBay changes")
      else
        let! '(updates, changedFields) :=
          for_fold ebayChanges (no_updates, []) (pull_change k ebayItem localItem) in
        if has_keys updates then
          let! now := newDate in
          let sync :=
            {| snapshot := Some (captureEbaySnapshot ebayItem now);
               lastSyncTime := Some (DateObject now);
               ebayItemId := Some (e_itemId ebayItem);
               status := "synced" |} in
          let q := num_or (parseInt (e_quantity ebayItem)) (currentQty localItem) in
          do! updateItem k (upd_sync sync q updates) in
          push_updated (UpdatedFields k changedFields)
        else
          push_skipped (Some k, "Local changes are newer")
  end.

Definition pull_item (ebayItem : EbayItem) : M unit :=
  try_catch (pull_body ebayItem)
    (fun msg =>
       push_errors (Some (str_or (e_sku ebayItem) (e_itemId ebayItem)), msg)).

Definition pullFromEbay : M Results :=
  do! modify (set_results (fun _ => no_results)) in
  (* Fetch active listings from eBay *)
  let! ebayData := getActiveListings in
  match d_error ebayData with
  | Some e =>
      if decide (e = "") then
        do! for_each (d_items ebayData) pull_item in gets results
      else throw e
  | None =>
      do! for_each (d_items ebayData) pull_item in gets results
  end.

(** ** Push: local to eBay *)

(** [ebayData.items.forEach(item => { ebayInventory[item.sku || item.itemId] = item })] *)
Definition index_listings (l : list EbayItem) : gmap string EbayItem :=
  foldl (fun m item => <[str_or (e_sku item) (e_itemId item) := item]> m) ∅ l.

(** The remote inventory as [pushToEbay] and [smartSyncAll] fetch it: a
    failure of the fetch is logged and the inventory stays empty. *)
Definition fetch_inventory : M (gmap string EbayItem) :=
  try_catch
    (let! ebayData := getActiveListings in
     ret (index_listings (d_items ebayData)))
    (fun _ => ret ∅).

(** The object handed to [syncItemToEbay] for a stored record. *)
Definition warehouse_item (fullItem : Item) (q : Z) : WarehouseItem :=
  {| w_SKU := sku fullItem;
     w_Price := price_or (Some (price fullItem)) num_zero;
     w_Quantity := q;
     w_Description := description fullItem;
     w_FullLocation := fullLocation fullItem;
     w_Condition := str_or (default "" (condition fullItem)) "NEW" |}.

(** [{ lastSyncedQty, ebaySync: { snapshot, lastSyncTime, status } }] *)
Definition sync_tracking (fullItem : Item) (now : Z) : Updates :=
  {| u_currentQty := None; u_price := None; u_description := None;
     u_lastSyncedQty := Some (currentQty fullItem);
     u_ebaySync :=
       Some {| snapshot := Some (captureLocalSnapshot fullItem now);
               lastSyncTime := Some (DateObject now);
               ebayItemId := None;
               status := "synced" |} |}.

(** [localValue !== snapshotValue] and [localValue !== change.new] as the
    push loop computes them. For a title change [localValue] is [null],
    which differs from every string. *)
Definition push_localChangedSinceSync (fullItem : Item) (change : Change) : bool :=
  match change, snapshot_of fullItem with
  | ChQuantity _ _, Some s => bool_decide (currentQty fullItem <> snap_quantity s)
  | ChPrice _ _, Some s => bool_decide (price fullItem <> snap_price s)
  | _, _ => true
  end.

Definition push_differs (fullItem : Item) (change : Change) : bool :=
  match change with
  | ChQuantity _ new => bool_decide (currentQty fullItem <> new)
  | ChPrice _ new => bool_decide (price fullItem <> new)
  | _ => true
  end.

(** The reasons that one change adds to [skippedReasons]. *)
Definition push_reasons (fullItem : Item) (change : Change) : list string :=
  let lastSyncTime := lastSyncTime_of fullItem in
  let localModified := lastModified fullItem in
  match change with
  | ChAll => []   (* No snapshot, proceed with push *)
  | _ =>
      let localChangedSinceSync := push_localChangedSinceSync fullItem change in
      if negb localChangedSinceSync && push_differs fullItem change then
        (* Local didn't change this field, but eBay did - don't overwrite *)
        ["eBay has newer " +:+ field change]
      else if localChangedSinceSync && push_differs fullItem change then
        (* Both changed - compare timestamps *)
        if negb (localIsNewer localModified lastSyncTime) then
          ["eBay " +:+ field change +:+ " is newer"]
        else []
      else []
  end.

(** The part of the loop body of [pushToEbay] inside [try]. *)
Definition push_body (ebayInventory : gmap string EbayItem)
    (item : FormattedItem) : M unit :=
  let k := f_sku item in
  let! fullItem := getItem (prop_key k) in
  match fullItem with
  | None => ret tt
  | Some fullItem =>
      match ebayInventory !! prop_key k with
      | None =>
          (* Item not on eBay - create it *)
          do! syncItemToEbay (warehouse_item fullItem (currentQty fullItem)) in
          let! now := newDate in
          do! updateItem (prop_key k) (sync_tracking fullItem now) in
          push_created (k, description fullItem)
      | Some ebayItem =>
          let ebayChanges := detectEbayChanges ebayItem (snapshot_of fullItem) in
          let skippedReasons := concat (push_reasons fullItem <$> ebayChanges) in
          if bool_decide (0 < length skippedReasons)%nat
             && bool_decide (length ebayChanges <= length skippedReasons)%nat
          then push_skipped (k, String.concat ", " skippedReasons)
          else
            (* Safe to push *)
            do! syncItemToEbay (warehouse_item fullItem (currentQty fullItem)) in
            let! now := newDate in
            do! updateItem (prop_key k) (sync_tracking fullItem now) in
            push_pushed (k, description fullItem)
      end
  end.

Definition push_item (ebayInventory : gmap string EbayItem)
    (item : FormattedItem) : M unit :=
  try_catch (push_body ebayInventory item)
    (fun msg => push_errors (f_sku item, msg)).

Definition pushToEbay : M Results :=
  do! modify (set_results (fun _ => no_results)) in
  let! localItems := getAllItems in
  let! ebayInventory := fetch_inventory in
  do! for_each localItems (push_item ebayInventory) in
  gets results.

(** ** Smart sync: two-way with sales detection *)

(** [{ ...fullItem, currentQty: finalQty }] *)
Definition with_currentQty (q : Z) (item : Item) : Item :=
  {| sku := sku item;
     itemCode := itemCode item;
     drawerNumber := drawerNumber item;
     positionNumber := positionNumber item;
     fullLocation := fullLocation item;
     price := price item;
     currentQty := q;
     description := description item;
     condition := condition item;
     dateAdded := dateAdded item;
     lastModified := lastModified item;
     lastSyncedQty := lastSyncedQty item;
     ebaySync := ebaySync item;
     history := history item |}.

(** [snapshot?.quantity ?? fullItem.lastSyncedQty ?? fullItem.currentQty] *)
Definition snapshotQty (fullItem : Item) : Z :=
  nullish (snap_quantity <$> snapshot_of fullItem)
    (nullish (lastSyncedQty fullItem) (currentQty fullItem)).

(** [{ currentQty: finalQty, lastSyncedQty: finalQty,
       ebaySync: { snapshot, lastSyncTime, ebayItemId, status } }] *)
Definition pair_tracking (fullItem : Item) (ebayItem : EbayItem)
    (finalQty now : Z) : Updates :=
  {| u_currentQty := Some finalQty;
     u_price := None;
     u_description := None;
     u_lastSyncedQty := Some finalQty;
     u_ebaySync :=
       Some {| snapshot :=
                 Some (captureLocalSnapshot
                         (with_currentQty finalQty fullItem) now);
               lastSyncTime := Some (DateObject now);
               ebayItemId := Some (e_itemId ebayItem);
               status := "synced" |} |}.

(** Step 3, inside [try]: an item that exists on both sides. *)
Definition sync_pair (k : string) (ebayItem : EbayItem) : M unit :=
  let! fullItem := getItem k in
  match fullItem with
  | None => ret tt
  | Some fullItem =>
      let ebayQty := num_or (parseInt (e_quantity ebayItem)) 0 in
      let localQty := currentQty fullItem in
      (* Detect eBay sales (quantity decreased on eBay) *)
      let! '(finalQty, salesDetected) :=
        if bool_decide (ebayQty < snapshotQty fullItem) then
          let salesDetected := snapshotQty fullItem - ebayQty in
          let finalQty := Z.max 0 (localQty - salesDetected) in
          let! now := newDate in
          do! addHistory k (sale_entry now salesDetected finalQty "sync") in
          do! push_sales (k, salesDetected, finalQty) in
          ret (finalQty, salesDetected)
        else ret (localQty, 0) in
      (* Sync to eBay with reconciled quantity *)
      do! syncItemToEbay (warehouse_item fullItem finalQty) in
      (* Update local with new snapshot *)
      let! now := newDate in
      do! updateItem k (pair_tracking fullItem ebayItem finalQty now) in
      push_updated (UpdatedQty k finalQty salesDetected)
  end.

(** Step 3: the loop carries [processedSkus]. *)
Definition sync_both (localMap : gmap string FormattedItem)
    (processedSkus : gset string) (entry : string * EbayItem)
    : M (gset string) :=
  let '(k, ebayItem) := entry in
  match localMap !! k with
  | None => ret processedSkus   (* Will handle eBay-only items later *)
  | Some _ =>
      do! try_catch (sync_pair k ebayItem)
            (fun msg => push_errors (Some k, msg)) in
      ret ({[k]} ∪ processedSkus)
  end.

(** Step 4: eBay-only items are imported. *)
Definition sync_import (processedSkus : gset string)
    (entry : string * EbayItem) : M unit :=
  let '(k, ebayItem) := entry in
  if bool_decide (k ∈ processedSkus) then ret tt
  else
    try_catch
      (let! now := newDate in
       do! createItem (createLocalItemFromEbay ebayItem now) in
       push_imported (k, e_title ebayItem))
      (fun msg => push_errors (Some k, "Import failed: " +:+ msg)).

(** Step 5, inside [try]: a local-only item is exported. *)
Definition export_body (item : FormattedItem) : M unit :=
  let! fullItem := getItem (prop_key (f_sku item)) in
  match fullItem with
  | None => ret tt
  | Some fullItem =>
      do! syncItemToEbay (warehouse_item fullItem (currentQty fullItem)) in
      let! now := newDate in
      do! updateItem (sku fullItem) (sync_tracking fullItem now) in
      push_exported (sku fullItem, description fullItem)
  end.

Definition sync_export (ebayInventory : gmap string EbayItem)
    (processedSkus : gset string) (item : FormattedItem) : M unit :=
  if match f_sku item with
     | Some k => bool_decide (k ∈ processedSkus)
     | None => false
     end
  then ret tt
  else if bool_decide (is_Some (ebayInventory !! prop_key (f_sku item)))
  then ret tt   (* Already processed *)
  else
    try_catch (export_body item)
      (fun msg => push_errors (f_sku item, "Export failed: " +:+ msg)).

(** [localItems.forEach(item => { localMap[item.sku] = item; })] *)
Definition local_map (localItems : list FormattedItem)
    : gmap string FormattedItem :=
  foldl (fun m item => <[prop_key (f_sku item) := item]> m) ∅ localItems.

Definition smartSyncAll : M Results :=
  do! modify (set_results (fun _ => no_results)) in
  (* 1. Fetch eBay active listings *)
  let! ebayInventory := fetch_inventory in
  (* 2. Get all local items *)
  let! localItems := getAllItems in
  let localMap := local_map localItems in
  (* 3. Process items that exist on BOTH sides *)
  let! processedSkus :=
    for_fold (map_to_list ebayInventory) ∅ (sync_both localMap) in
  (* 4. Handle eBay-only items (import to local) *)
  do! for_each (map_to_list ebayInventory) (sync_import processedSkus) in
  (* 5. Handle local-only items (export to eBay) *)
  do! for_each localItems (sync_export ebayInventory processedSkus) in
  gets results.

(** ** Sequences of sync calls

    Between two calls the remote side and the coming rejections are
    whatever they are: each call comes with its own. *)

Inductive SyncOp := Pull | Push | SmartSync.

Record Call := {
  call_op : SyncOp;
  call_remote : EbayData;
  call_script : list (option string)
}.

Definition run_op (o : SyncOp) : M Results :=
  match o with
  | Pull => pullFromEbay
  | Push => pushToEbay
  | SmartSync => smartSyncAll
  end.

Definition arrive (c : Call) (w : World) : World :=
  {| items := items w; remote := call_remote c; sent := sent w;
     lastSync := lastSync w; clock := clock w; script := call_script c;
     results := results w |}.

Definition run_call (w : World) (c : Call) : World :=
  (run_op (call_op c) (arrive c w)).1.

Definition run_calls (cs : list Call) (w : World) : World :=
  foldl run_call w cs.

(** ** Properties of the store *)

(** Every stored record has a non-negative quantity. *)
Definition qty_ok (w : World) : Prop :=
  map_Forall (fun _ item => 0 <= currentQty item) (items w).

(** Every stored quantity is a whole number from 0 to
    [max_safe_integer]. *)
Definition qty_safe (w : World) : Prop :=
  map_Forall (fun _ item => safe_qty (currentQty item)) (items w).

(** The same, while the remote side answers [d]. *)
Definition qty_inv (d : EbayData) (w : World) : Prop :=
  qty_safe w /\ remote w = d.

(** The quantity that [updates] is about to store, if any, is such a
    number. *)
Definition updates_ok (u : Updates) : Prop :=
  forall q, u_currentQty u = Some q -> safe_qty q.

(** None of the coming awaited calls rejects. *)
Definition calm (w : World) : Prop := Forall (eq None) (script w).

(** The quantity a listing reports, as the sync code reads it. *)
Definition remoteQty (ebayItem : EbayItem) : Z :=
  num_or (parseInt (e_quantity ebayItem)) 0.

(** A listing whose quantity is a whole number from 0 to
    [max_safe_integer]: [parseInt] reads it exactly. *)
Definition listing_safe (ebayItem : EbayItem) : Prop :=
  safe_qty (remoteQty ebayItem).

(** The key under which a listing is paired with a record. *)
Definition key_of (ebayItem : EbayItem) : string :=
  str_or (e_sku ebayItem) (e_itemId ebayItem).

(** The record stored under [k] went from [before] to a record whose
    history has exactly one more entry, an [EBAY_SALE] of [sold] units,
    and whose quantity is the clamped difference. *)
Definition sale_applied (k : string) (before : Item) (sold : Z)
    (w' : World) : Prop :=
  exists item' entry,
    items w' !! k = Some item'
    /\ currentQty item' = Z.max 0 (currentQty before - sold)
    /\ history item' = (history before ++ [entry])%list
    /\ h_action entry = "EBAY_SALE"
    /\ h_qty entry = - sold
    /\ h_newTotal entry = currentQty item'.

(** The history of the record stored under [k] is the one of [before]. *)
Definition history_kept (k : string) (before : Item) (w' : World) : Prop :=
  exists item', items w' !! k = Some item' /\ history item' = history before.

(** The last history entry of every record tells its quantity. *)
Definition ledger_ok (w : World) : Prop :=
  map_Forall
    (fun _ item =>
       match last (history item) with
       | Some entry => h_newTotal entry = currentQty item
       | None => True
       end)
    (items w).

(** A change that pull resolves without touching the store: anything but
    a remote decrease of a quantity that is locally unchanged. *)
Definition quiet (localItem : Item) (change : Change) : Prop :=
  match change with
  | ChQuantity _ newQty =>
      pull_localChangedSinceSync localItem (snapshot_of localItem) change = true
      \/ ~ newQty < snapshotQty localItem
  | _ => True
  end.

(** The ledger of [w'] continues the one of [w]: every record of [w] is
    still there and its history only grew at its end. *)
Definition ledger_grows (w w' : World) : Prop :=
  forall k item,
    items w !! k = Some item ->
    exists item',
      items w' !! k = Some item' /\ history item `prefix_of` history item'.

(** [ledger_ok], except that the record under [k] is about to take the
    quantity that [u] holds, if any. *)
Definition pending_ok (k : string) (u : Updates) (w : World) : Prop :=
  forall k0 item,
    items w !! k0 = Some item ->
    match last (history item) with
    | Some entry =>
        h_newTotal entry
        = if decide (k0 = k) then default (currentQty item) (u_currentQty u)
          else currentQty item
    | None => True
    end.

(** ** The claims of the specification, as they are worded *)



(** A remote decrease is a sale whether or not the local quantity also
    changed, for pull and for smart sync alike. *)
Definition decrease_is_sale_as_stated : Prop :=
  forall ebayItem localItem w w',
    items w !! key_of ebayItem = Some localItem ->
    is_Some (snapshot_of localItem) ->
    remoteQty ebayItem < snapshotQty localItem ->
    (pull_body ebayItem w = (w', Ok tt) ->
       exists item' entry,
         items w' !! key_of ebayItem = Some item'
         /\ history item' = (history localItem ++ [entry])%list
         /\ h_action entry = "EBAY_SALE")
    /\ (sync_pair (key_of ebayItem) ebayItem w = (w', Ok tt) ->
          exists item' entry,
            items w' !! key_of ebayItem = Some item'
            /\ history item' = (history localItem ++ [entry])%list
            /\ h_action entry = "EBAY_SALE").

(** On a record without snapshot the detector answers the sentinel and
    pull sets quantity, price and title from the listing, without sale. *)
Definition bootstrap_as_stated : Prop :=
  forall ebayItem localItem w w',
    items w !! key_of ebayItem = Some localItem ->
    snapshot_of localItem = None ->
    detectEbayChanges ebayItem None = [ChAll]
    /\ (pull_body ebayItem w = (w', Ok tt) ->
          exists item',
            items w' !! key_of ebayItem = Some item'
            /\ currentQty item' = remoteQty ebayItem
            /\ price item' = price_or (parseFloat (e_price ebayItem)) num_zero
            /\ description item' = e_title ebayItem
            /\ history item' = history localItem).

(** Across every sync operation the ledger only grows and, when the
    operation is over, tells the quantity of every record. *)
Definition ledger_as_stated : Prop :=
  forall o w,
    ledger_ok w ->
    ledger_grows w (run_op o w).1 /\ ledger_ok (run_op o w).1.

(** Quantities stay non-negative along every sequence of sync calls,
    whatever the remote side reports. *)
Definition qty_never_negative_as_stated : Prop :=
  forall cs w, qty_ok w -> qty_ok (run_calls cs w).

(** ** What holds after a run

    [triple P m Q E]: from a world where [P] holds, [m] ends in a world
    where [Q] holds of its result if it returns, and where [E] holds if
    it throws. *)

Definition triple {A} (P : World -> Prop) (m : M A)
    (Q : A -> World -> Prop) (E : World -> Prop) : Prop :=
  forall w, P w ->
    match m w with
    | (w', Ok a) => Q a w'
    | (w', Throw _) => E w'
    end.

(** An invariant is stable when it does not depend on the clock, the
    script, the result object or the log of remote writes. *)

Definition stable (I : World -> Prop) : Prop :=
  forall w, I w ->
    I (step w)
    /\ (forall f, I (set_results f w))
    /\ (forall f, I (set_sent f w))
    /\ (forall t, I (set_lastSync t w)).

(** * The rest of the server module

    The other operations of the data-access layer and the inventory
    routes that call it, the account store, and the routes in front of
    the three sync operations. *)

(** ** Texts *)

(** [String(s).padStart(n, '0')] *)
Definition padStart (n : nat) (s : string) : string :=
  String.concat "" (replicate (n - String.length s)%nat "0") +:+ s.

(** [/^\d{n}$/.test(s)] *)
Definition is_digit (c : ascii) : bool :=
  let n := Z.of_N (N_of_ascii c) in
  (48 <=? n) && (n <=? 57).

Definition digits_only (n : nat) (s : string) : bool :=
  bool_decide (String.length s = n) && forallb is_digit (list_ascii_of_string s).

(** [s.substring(n)] *)
Definition substring_from (n : nat) (s : string) : string :=
  substring n (String.length s - n) s.

(** ** The data-access layer, continued *)

(** [Object.values(localInventory.items).find(i => i.itemCode === itemCode) || null] *)
Definition getItemByCode (code : string) : M (option Item) :=
  do! await in
  gets (fun w =>
    snd <$> list_find (fun i => itemCode i = code) (map_to_list (items w)).*2).

(** [Object.values(localInventory.items).find(i => i.fullLocation === fullLocation) || null] *)
Definition getItemByLocation (location : string) : M (option Item) :=
  do! await in
  gets (fun w =>
    snd <$> list_find (fun i => fullLocation i = location)
              (map_to_list (items w)).*2).

(** [const item = items[sku]; delete items[sku]; return item] *)
Definition deleteItem (k : string) : M (option Item) :=
  do! await in
  let! item := gets (fun w => items w !! k) in
  do! modify (set_items (delete k)) in
  ret item.

(** [Object.values(localInventory.items).map(i => i.itemCode)] *)
Definition getAllItemCodes : M (list string) :=
  do! await in
  gets (fun w => itemCode <$> (map_to_list (items w)).*2).

(** [Object.values(localInventory.items).map(i => i.drawerNumber + i.positionNumber)] *)
Definition getAllLocations : M (list string) :=
  do! await in
  gets (fun w =>
    (fun i => drawerNumber i +:+ positionNumber i)
      <$> (map_to_list (items w)).*2).

(** ** Routes

    A route answers [res.json(body)] or [res.status(code).json({ error })].
    The numbers of this model have no NaN.  Where a request makes
    [parseInt] or [parseFloat] return NaN, the code goes on with it: it
    stores a record whose quantity or price is NaN and answers as for
    any other request.  The store of the model has no such record: the
    model of the route ends there with [Beyond], which stands for that
    answer and says nothing of the store. *)

Inductive Response (A : Type) : Type :=
| Json (body : A)
| Failed (code : Z) (error : string)
| Beyond.
Arguments Json {A} body.
Arguments Failed {A} code error.
Arguments Beyond {A}.

(** [try { ... } catch (err) { res.status(500).json({ error: err.message }) }] *)
Definition route {A} (m : M (Response A)) : M (Response A) :=
  try_catch m (fun msg => ret (Failed 500 msg)).

(** *** [GET /api/inventory] *)

Definition needs_sku (item : FormattedItem) : bool :=
  let sku := str_or (f_SKU item) "" in
  let isValid9Digits := digits_only 9 sku in
  let hasDefaultLocation := bool_decide (f_FullLocation item = "000-00") in
  negb isValid9Digits || hasDefaultLocation.

Definition ebay_import (item : FormattedItem) : bool :=
  bool_decide (f_FullLocation item = "000-00")
  || (negb (bool_decide (f_SKU item = ""))
      && bool_decide (9 < String.length (f_SKU item))%nat).

Definition inventory_route (filter : option string)
    : M (Response (list FormattedItem)) :=
  route
    (let! l := getAllItems in
     ret (Json
       (if decide (filter = Some "needs-sku") then List.filter needs_sku l
        else if decide (filter = Some "ebay-imports")
             then List.filter ebay_import l
             else l))).

(** *** [GET /api/next-item-id]

    The loop [for (let i = 1; i <= 9999; i++)] returns at the first
    candidate that is not in use. *)

Definition item_ids : list string :=
  (fun i : Z => padStart 4 (pretty i)) <$> seqZ 1 9999.

Definition next_item_id_route : M (Response string) :=
  route
    (let! codes := getAllItemCodes in
     let usedIds : gset string := list_to_set codes in
     match list_find (fun id => id ∉ usedIds) item_ids with
     | Some (_, id) => ret (Json id)
     | None => ret (Failed 400 "No available Item IDs")
     end).

(** *** [GET /api/next-location] *)

Record NextLocation := {
  nextLocation : string;
  nl_drawer : string;
  nl_position : string
}.

(** The drawers and positions in the order of the two nested loops. *)
Definition locations : list (string * string) :=
  drawer ← seqZ 1 999;
  position ← seqZ 1 99;
  [(padStart 3 (pretty drawer), padStart 2 (pretty position))].

Definition next_location_route : M (Response NextLocation) :=
  route
    (let! used := getAllLocations in
     let usedLocations : gset string := list_to_set used in
     match list_find (fun c : string * string => c.1 +:+ c.2 ∉ usedLocations)
             locations with
     | Some (_, (drawer, position)) =>
         ret (Json {| nextLocation := drawer +:+ position;
                      nl_drawer := drawer;
                      nl_position := position |})
     | None => ret (Failed 400 "No available locations")
     end).

(** *** Barcodes

    [bwipjs.toBuffer] draws the picture; a failure is logged and the
    barcode is [null]. *)
Variable png : string -> string.

Definition generateBarcode (text : string) : M (option string) :=
  try_catch
    (do! await in ret (Some ("data:image/png;base64," +:+ png text)))
    (fun _ => ret None).

(** *** [POST /api/inventory]

    The body as the client sends it: the texts of the fields of its
    form.  Of the answer, the message, the key, the quantity and the
    barcode are kept. *)

Record AddRequest := {
  a_itemId : string;
  a_drawer : string;
  a_position : string;
  a_price : string;
  a_quantity : string;
  a_description : string
}.

Record Added := {
  ad_message : string;
  ad_SKU : string;
  ad_Quantity : Z;
  ad_barcode : option string
}.

(** [price > 0] for the text of a price: the number the text converts
    to is above zero. *)
Variable positive : string -> bool.

Definition add_route (req : AddRequest) : M (Response Added) :=
  route
    (let itemId := a_itemId req in
     if bool_decide (itemId = "") || bool_decide (a_drawer req = "")
        || bool_decide (a_position req = "")
     then ret (Failed 400 "Item ID, drawer, and position are required")
     else if negb (digits_only 4 itemId)
     then ret (Failed 400 "Item ID must be exactly 4 digits")
     else
       let drawerStr := padStart 3 (a_drawer req) in
       let positionStr := padStart 2 (a_position req) in
       let location := drawerStr +:+ "-" +:+ positionStr in
       let k := itemId +:+ drawerStr +:+ positionStr in
       match parseInt (a_quantity req) with
       | None => ret Beyond
       | Some qtyToAdd =>
           let! existingByItemId := getItemByCode itemId in
           match existingByItemId with
           | Some existing =>
               let newQty := currentQty existing + qtyToAdd in
               let updates := upd_currentQty newQty no_updates in
               let updates :=
                 if decide (a_description req = "") then updates
                 else upd_description (a_description req) updates in
               match
                 (if positive (a_price req) then
                    match parseFloat (a_price req) with
                    | Some p => Some (upd_price p updates)
                    | None => None
                    end
                  else Some updates)
               with
               | None => ret Beyond
               | Some updates =>
                   do! updateItem (sku existing) updates in
                   let! now := newDate in
                   do! addHistory (sku existing)
                         {| h_date := now; h_action := "ADD";
                            h_qty := qtyToAdd; h_newTotal := newQty;
                            h_note := "Added " +:+ pretty qtyToAdd +:+ " units" |} in
                   let! barcode := generateBarcode (sku existing) in
                   ret (Json
                     {| ad_message := "Quantity added to existing item (now "
                                      +:+ pretty newQty +:+ ")";
                        ad_SKU := sku existing;
                        ad_Quantity := newQty;
                        ad_barcode := barcode |})
               end
           | None =>
               let! existingByLocation := getItemByLocation location in
               match existingByLocation with
               | Some other =>
                   ret (Failed 400 ("Location " +:+ location
                                    +:+ " already has item " +:+ itemCode other))
               | None =>
                   let! now := newDate in
                   let newItem :=
                     {| sku := k; itemCode := itemId;
                        drawerNumber := drawerStr; positionNumber := positionStr;
                        fullLocation := location;
                        price := price_or (parseFloat (a_price req)) num_zero;
                        currentQty := qtyToAdd;
                        description := a_description req;
                        condition := None;
                        dateAdded := now; lastModified := DateObject now;
                        lastSyncedQty := None; ebaySync := None;
                        history :=
                          [ {| h_date := now; h_action := "CREATE";
                               h_qty := qtyToAdd; h_newTotal := qtyToAdd;
                               h_note := "Item created" |} ] |} in
                   do! createItem newItem in
                   let! barcode := generateBarcode k in
                   ret (Json {| ad_message := "New item added";
                                ad_SKU := k;
                                ad_Quantity := qtyToAdd;
                                ad_barcode := barcode |})
               end
           end
       end).

(** *** [PUT /api/inventory/:sku]

    The body as the client sends it: [quantity] is a number holding an
    integer and [price] a number, of which [parseInt] and [parseFloat]
    return the number itself; a property may be missing. *)

Record AdjustRequest := {
  q_quantity : option Z;
  q_price : option num;
  q_description : option string
}.

Definition adjust_route (k : string) (req : AdjustRequest)
    : M (Response (string * FormattedItem)) :=
  route
    (let! item := getItem k in
     match item with
     | None => ret (Failed 404 "Item not found")
     | Some item =>
         let! updates :=
           match q_quantity req with
           | Some newQty =>
               let diff := newQty - currentQty item in
               let! now := newDate in
               do! addHistory k
                     {| h_date := now;
                        h_action := if bool_decide (0 <= diff) then "ADJUST_UP"
                                    else "ADJUST_DOWN";
                        h_qty := diff;
                        h_newTotal := newQty;
                        h_note := "Quantity adjusted from "
                                  +:+ pretty (currentQty item) +:+ " to "
                                  +:+ pretty newQty |} in
               ret (upd_currentQty newQty no_updates)
           | None => ret no_updates
           end in
         let updates :=
           match q_price req with
           | Some p => upd_price p updates
           | None => updates
           end in
         let updates :=
           match q_description req with
           | Some d => upd_description d updates
           | None => updates
           end in
         (* data.updateItem returns the record it updated, or null *)
         do! updateItem k updates in
         let! updated := gets (fun w => items w !! k) in
         match updated with
         | Some updated => ret (Json ("Item updated", formatItem updated))
         | None => throw "Cannot read properties of null (reading 'sku')"
         end
     end).

(** *** [DELETE /api/inventory/:sku] *)

Record ItemRef := {
  ref_SKU : string;
  ref_ItemCode : string;
  ref_FullLocation : string;
  ref_Quantity : Z
}.

Definition item_ref (item : Item) : ItemRef :=
  {| ref_SKU := sku item; ref_ItemCode := itemCode item;
     ref_FullLocation := fullLocation item; ref_Quantity := currentQty item |}.

Definition delete_route (k : string) : M (Response (string * ItemRef)) :=
  route
    (let! item := getItem k in
     match item with
     | None => ret (Failed 404 "Item not found")
     | Some item =>
         do! deleteItem k in
         ret (Json ("Item deleted", item_ref item))
     end).

(** *** [POST /api/inventory/:sku/change-sku]

    A new record is created under the new SKU with the data of the old
    one, then the old one is deleted. *)

(** [oldItem.ebaySync || {}]; the object [{}] has no property, and its
    status, which nothing reads, is written as the empty text. *)
Definition sync_or_empty (e : option EbaySync) : EbaySync :=
  default {| snapshot := None; lastSyncTime := None; ebayItemId := None;
             status := "" |} e.

Definition change_sku_item (oldSku newSku : string) (description' : option string)
    (oldItem : Item) (now : Z) : Item :=
  let newItemCode := substring 0 4 newSku in
  let newLocation := substring_from 4 newSku in
  let newDrawer := substring 0 3 newLocation in
  let newPosition := substring_from 3 newLocation in
  let newFullLocation := newDrawer +:+ "-" +:+ newPosition in
  {| sku := newSku;
     itemCode := newItemCode;
     drawerNumber := newDrawer;
     positionNumber := newPosition;
     fullLocation := newFullLocation;
     price := price oldItem;
     currentQty := currentQty oldItem;
     description := default (description oldItem) description';
     condition := condition oldItem;
     dateAdded := dateAdded oldItem;
     lastModified := DateObject now;
     lastSyncedQty := lastSyncedQty oldItem;
     ebaySync := Some (sync_or_empty (ebaySync oldItem));
     history :=
       history oldItem
       ++ [ {| h_date := now; h_action := "SKU_CHANGE"; h_qty := 0;
               h_newTotal := currentQty oldItem;
               h_note := "SKU changed from " +:+ oldSku +:+ " to " +:+ newSku |} ] |}.

Definition change_sku_route (oldSku newSku : string)
    (description' : option string)
    : M (Response (string * FormattedItem * option string)) :=
  route
    (if bool_decide (newSku = "") || negb (digits_only 9 newSku)
     then ret (Failed 400 "New SKU must be exactly 9 digits")
     else
       let! oldItem := getItem oldSku in
       match oldItem with
       | None => ret (Failed 404 "Item not found")
       | Some oldItem =>
           let! existingItem := getItem newSku in
           match existingItem with
           | Some _ => ret (Failed 400 "An item with this SKU already exists")
           | None =>
               let! now := newDate in
               let newItem :=
                 change_sku_item oldSku newSku description' oldItem now in
               do! createItem newItem in
               do! deleteItem oldSku in
               let! barcode := generateBarcode newSku in
               ret (Json ("SKU changed successfully", formatItem newItem, barcode))
           end
       end).

(** *** [POST /api/ebay/sync/:accountId/:sku] *)

Definition sync_item_route (k : string) : M (Response string) :=
  route
    (let! item := getItem k in
     match item with
     | None => ret (Failed 404 "Item not found")
     | Some item =>
         do! syncItemToEbay (warehouse_item item (currentQty item)) in
         let! now := newDate in
         do! addHistory k
               {| h_date := now; h_action := "EBAY_SYNC"; h_qty := 0;
                  h_newTotal := currentQty item; h_note := "Synced to eBay" |} in
         ret (Json "Item synced to eBay")
     end).

(** ** The account store (JSON backend)

    [localAccounts] maps an account id to an account; a property that is
    [undefined], [null] or, for a number, NaN, is [None]. *)

Record Tokens := {
  access_token : option string;
  refresh_token : option string;
  expires_at : option Z;
  token_type : option string
}.

Record Account := {
  acc_name : option string;
  acc_tokens : option Tokens;
  acc_addedAt : option Z;
  acc_lastSync : option Z
}.

(** The second argument of [data.saveAccount]: the properties that are
    present. *)
Record AccountData := {
  s_name : option (option string);
  s_tokens : option Tokens;
  s_addedAt : option Z;
  s_lastSync : option Z
}.

(** Truthiness of a text and of a number. *)
Definition text_set (s : option string) : bool :=
  match s with
  | Some s => negb (bool_decide (s = ""))
  | None => false
  end.

Definition number_set (n : option Z) : bool :=
  match n with
  | Some n => negb (bool_decide (n = 0))
  | None => false
  end.

(** [localAccounts[accountId] || null] *)
Definition getAccount (accounts : gmap string Account) (accountId : string)
    : option Account :=
  accounts !! accountId.

(** [localAccounts[accountId] = { ...localAccounts[accountId], ...accountData }] *)
Definition merge_account (old : option Account) (d : AccountData) : Account :=
  {| acc_name := default (old ≫= acc_name) (s_name d);
     acc_tokens := match s_tokens d with
                   | Some t => Some t
                   | None => old ≫= acc_tokens
                   end;
     acc_addedAt := match s_addedAt d with
                    | Some t => Some t
                    | None => old ≫= acc_addedAt
                    end;
     acc_lastSync := match s_lastSync d with
                     | Some t => Some t
                     | None => old ≫= acc_lastSync
                     end |}.

Definition saveAccount (accounts : gmap string Account) (accountId : string)
    (accountData : AccountData) : gmap string Account :=
  <[accountId := merge_account (accounts !! accountId) accountData]> accounts.

(** [const removed = !!localAccounts[accountId]; delete localAccounts[accountId]] *)
Definition removeAccount (accounts : gmap string Account) (accountId : string)
    : gmap string Account * bool :=
  (delete accountId accounts, bool_decide (is_Some (accounts !! accountId))).

(** [ebayAPI.isAccountAuthenticated], at the instant [now]. *)
Definition isAccountAuthenticated (accounts : gmap string Account)
    (now : Z) (accountId : string) : bool :=
  match getAccount accounts accountId with
  | None => false
  | Some account =>
      match acc_tokens account with
      | None => false
      | Some tokens =>
          if negb (text_set (access_token tokens)) then false
          else if number_set (expires_at tokens)
                  && bool_decide (default 0 (expires_at tokens) <= now)
          then false
          else true
      end
  end.

(** The value of [hasValidToken] in an entry of [data.getAllAccounts]:
    [acc.tokens?.access_token && (!acc.tokens?.expires_at ||
    Date.now() < acc.tokens.expires_at)] is [undefined], the empty text
    or a boolean. *)
Inductive Flag :=
| FlagUndefined
| FlagText (s : string)
| FlagBool (b : bool).

Definition truthy (f : Flag) : bool :=
  match f with
  | FlagUndefined => false
  | FlagText s => negb (bool_decide (s = ""))
  | FlagBool b => b
  end.

Definition hasValidToken (acc : Account) (now : Z) : Flag :=
  match acc_tokens acc with
  | None => FlagUndefined
  | Some tokens =>
      match access_token tokens with
      | None => FlagUndefined
      | Some s =>
          if decide (s = "") then FlagText s
          else FlagBool (negb (number_set (expires_at tokens))
                         || bool_decide (now < default 0 (expires_at tokens)))
      end
  end.

Record AccountEntry := {
  entry_id : string;
  entry_name : option string;
  entry_hasValidToken : Flag;
  entry_lastSync : option Z
}.

Definition getAllAccounts (accounts : gmap string Account) (now : Z)
    : list AccountEntry :=
  (fun '(id, acc) =>
     {| entry_id := id; entry_name := acc_name acc;
        entry_hasValidToken := hasValidToken acc now;
        entry_lastSync := acc_lastSync acc |})
  <$> map_to_list accounts.

(** ** The routes of the three sync operations

    Each one asks [ebayAPI.isAccountAuthenticated] first. *)

Definition authenticated (accounts : gmap string Account) (accountId : string)
    : M bool :=
  do! await in
  let! now := newDate in
  ret (isAccountAuthenticated accounts now accountId).

Definition count {A} (l : list A) : string := pretty (Z.of_nat (length l)).

Definition pull_route (accounts : gmap string Account) (accountId : string)
    : M (Response (string * Results)) :=
  route
    (let! ok := authenticated accounts accountId in
     if negb ok then ret (Failed 401 "eBay account not connected")
     else
       let! results := pullFromEbay in
       ret (Json ("Pulled from eBay: " +:+ count (created results)
                  +:+ " imported, " +:+ count (updated results)
                  +:+ " updated, " +:+ count (skipped results) +:+ " skipped",
                  results))).

Definition push_route (accounts : gmap string Account) (accountId : string)
    : M (Response (string * Results)) :=
  route
    (let! ok := authenticated accounts accountId in
     if negb ok then ret (Failed 401 "eBay account not connected")
     else
       let! results := pushToEbay in
       ret (Json ("Pushed to eBay: " +:+ count (created results)
                  +:+ " created, " +:+ count (pushed results)
                  +:+ " updated, " +:+ count (skipped results) +:+ " skipped",
                  results))).

Definition sync_all_parts (results : Results) : list string :=
  (if bool_decide (0 < length (imported results))%nat
   then [count (imported results) +:+ " imported from eBay"] else [])
  ++ (if bool_decide (0 < length (exported results))%nat
      then [count (exported results) +:+ " exported to eBay"] else [])
  ++ (if bool_decide (0 < length (updated results))%nat
      then [count (updated results) +:+ " updated"] else [])
  ++ (if bool_decide (0 < length (sales results))%nat
      then [pretty (foldl (fun sum s => sum + s.1.2) 0 (sales results))
            +:+ " eBay sales detected"] else [])
  ++ (if bool_decide (0 < length (errors results))%nat
      then [count (errors results) +:+ " errors"] else []).

Definition sync_all_route (accounts : gmap string Account) (accountId : string)
    : M (Response (string * Results)) :=
  route
    (let! ok := authenticated accounts accountId in
     if negb ok then ret (Failed 401 "eBay account not connected")
     else
       let! results := smartSyncAll in
       let parts := sync_all_parts results in
       ret (Json ("Sync complete: "
                  +:+ (if bool_decide (0 < length parts)%nat
                       then String.concat ", " parts else "No changes"),
                  results))).

(** ** Backups

    [GET /api/export/full] sends the stored records as JSON and
    [POST /api/import/full] reads such a file back.  An entry of the file
    is an object; a property of it may be missing, and is of the type the
    store gives it otherwise. *)

Record BackupItem := {
  b_sku : option string;
  b_SKU : option string;
  b_itemCode : option string;
  b_ItemCode : option string;
  b_drawerNumber : option string;
  b_DrawerNumber : option string;
  b_positionNumber : option string;
  b_PositionNumber : option string;
  b_fullLocation : option string;
  b_FullLocation : option string;
  b_price : option num;
  b_Price : option num;
  b_currentQty : option Z;
  b_Quantity : option Z;
  b_description : option string;
  b_Description : option string;
  b_condition : option string;
  b_dateAdded : option Z;
  b_lastModified : option Z;
  b_lastSyncedQty : option Z;
  b_ebaySync : option EbaySync;
  b_history : option (list HistoryEntry)
}.




(** [a || d] for a text that may be missing. *)
Definition text_or (a : option string) (d : string) : string :=
  match a with
  | Some s => str_or s d
  | None => d
  end.

(** The object [itemData] of the import loop. *)
Definition backup_record (k : string) (item : BackupItem) (now : Z) : Item :=
  {| sku := k;
     itemCode := text_or (b_itemCode item)
                   (text_or (b_ItemCode item) (substring 0 4 k));
     drawerNumber := text_or (b_drawerNumber item)
                       (text_or (b_DrawerNumber item) "");
     positionNumber := text_or (b_positionNumber item)
                         (text_or (b_PositionNumber item) "");
     fullLocation := text_or (b_fullLocation item)
                       (text_or (b_FullLocation item) "");
     price := price_or (b_price item) (price_or (b_Price item) num_zero);
     currentQty := num_or (b_currentQty item) (num_or (b_Quantity item) 0);
     description := text_or (b_description item)
                      (text_or (b_Description item) "");
     condition := match b_condition item with
                  | Some c => if decide (c = "") then None else Some c
                  | None => None
                  end;
     dateAdded := default now (b_dateAdded item);
     lastModified := DateObject now;
     lastSyncedQty := None;
     ebaySync := None;
     history := default [] (b_history item) |}.

(** [Object.assign(item, itemData, { lastModified })] for the object
    [itemData] above, which has neither [lastSyncedQty] nor [ebaySync]. *)
Definition assign_record (item itemData : Item) (now : Z) : Item :=
  {| sku := sku itemData;
     itemCode := itemCode itemData;
     drawerNumber := drawerNumber itemData;
     positionNumber := positionNumber itemData;
     fullLocation := fullLocation itemData;
     price := price itemData;
     currentQty := currentQty itemData;
     description := description itemData;
     condition := condition itemData;
     dateAdded := dateAdded itemData;
     lastModified := IsoText now;
     lastSyncedQty := lastSyncedQty item;
     ebaySync := ebaySync item;
     history := history itemData |}.

Definition updateItem_record (k : string) (itemData : Item) : M unit :=
  do! await in
  modify (fun w =>
    match items w !! k with
    | Some item => set_items (insert k (assign_record item itemData (clock w))) w
    | None => w
    end).

(** [item.sku] when [item] is [null]. *)
Definition null_has_no_sku : string :=
  "Cannot read properties of null (reading 'sku')".

(** The loop of the import carries [imported], [updated] and [errors].
    An entry of the array is an object or [null] ([None]): on [null] the
    read of [item.sku] throws, in the [try] block and again in the
    [catch] clause, whose error leaves the loop. *)
Definition import_entry (st : nat * nat * list (string * string))
    (entry : option BackupItem) : M (nat * nat * list (string * string)) :=
  let '(imported, updated, errors) := st in
  try_catch
    (match entry with
     | None => throw null_has_no_sku
     | Some item =>
         let k := text_or (b_sku item) (text_or (b_SKU item) "") in
         if decide (k = "") then
           ret (imported, updated, (errors ++ [("unknown", "Missing SKU")])%list)
         else
           let! existing := getItem k in
           let! now := newDate in
           let itemData := backup_record k item now in
           match existing with
           | Some _ =>
               do! updateItem_record k itemData in
               ret (imported, S updated, errors)
           | None =>
               do! createItem itemData in
               ret (S imported, updated, errors)
           end
     end)
    (fun msg =>
       match entry with
       | None => throw null_has_no_sku
       | Some item =>
           ret (imported, updated,
                (errors ++ [(text_or (b_sku item) "unknown", msg)])%list)
       end).

Record Imported := {
  imp_message : string;
  imp_imported : nat;
  imp_updated : nat;
  imp_errors : list (string * string)
}.

(** [POST /api/import/full]; [None] is a body whose [inventory] is not
    an array. *)
Definition import_full_route (inventory : option (list (option BackupItem)))
    : M (Response Imported) :=
  route
    (match inventory with
     | None => ret (Failed 400 "Invalid backup file format")
     | Some inventory =>
         let! '(imported, updated, errors) :=
           for_fold inventory (0%nat, 0%nat, []) import_entry in
         ret (Json {| imp_message :=
                        "Import complete: " +:+ pretty (Z.of_nat imported)
                        +:+ " new, " +:+ pretty (Z.of_nat updated)
                        +:+ " updated, " +:+ count errors +:+ " errors";
                      imp_imported := imported;
                      imp_updated := updated;
                      imp_errors := errors |})
     end).

(** ** Properties of the store, continued *)

(** Every record is stored under its own SKU. *)
Definition well_keyed (w : World) : Prop :=
  map_Forall (fun k item => sku item = k) (items w).

(** The location of every record is its drawer, on three characters, and
    its position. *)
Definition well_located (w : World) : Prop :=
  map_Forall
    (fun _ item =>
       fullLocation item = drawerNumber item +:+ "-" +:+ positionNumber item
       /\ String.length (drawerNumber item) = 3%nat)
    (items w).

End Model.

(** * A concrete instance

    Prices in whole units: the examples only use prices written as
    strings of decimal digits, on which [parseFloat] and [parseInt] read
    the same number.  The records are as the server reads them from its
    data file, where every date of a record is the text that
    [JSON.stringify] wrote for it. *)

Module Example.

Definition parseFloat_digits : string -> option Z := parseInt.

Definition snap (q p : Z) (title : string) (t : Z) : @Snapshot Z :=
  {| snap_quantity := q; snap_price := p; snap_title := title;
     snap_description := ""; snap_condition := ""; snap_takenAt := t |}.

Definition synced_at (t : Z) (s : @Snapshot Z) : option (@EbaySync Z) :=
  Some {| snapshot := Some s; lastSyncTime := Some (IsoText t);
          ebayItemId := None; status := "synced" |}.

Definition entry (action : string) (q total : Z) : HistoryEntry :=
  {| h_date := 1; h_action := action; h_qty := q; h_newTotal := total;
     h_note := "" |}.

(** A record for SKU [k] holding [q] units at price [p], last modified
    at [modified]. *)
Definition record (k : string) (q p modified : Z)
    (sync : option (@EbaySync Z)) (h : list HistoryEntry) : @Item Z :=
  {| sku := k; itemCode := "1234"; drawerNumber := "001";
     positionNumber := "01"; fullLocation := "001-01";
     price := p; currentQty := q; description := "Widget";
     condition := None; dateAdded := 1; lastModified := IsoText modified;
     lastSyncedQty := snap_quantity <$> (sync ≫= snapshot);
     ebaySync := sync; history := h |}.

Definition listing (k q p title : string) : EbayItem :=
  {| e_itemId := "110"; e_sku := k; e_title := title;
     e_price := p; e_quantity := q |}.

Definition world (store : list (@Item Z)) (listings : list EbayItem)
    (rejections : list (option string)) : @World Z :=
  {| items := list_to_map ((fun item => (sku item, item)) <$> store);
     remote := {| d_items := listings; d_error := None |};
     sent := []; lastSync := None; clock := 100; script := rejections;
     results := no_results |}.

(** Ten units at the last sync, nothing touched locally since, seven left
    on eBay. *)
Definition untouched : @Item Z :=
  record "A" 10 10 3 (synced_at 3 (snap 10 10 "Widget" 3))
    [entry "CREATE" 10 10].

Definition seven_left : EbayItem := listing "A" "7" "10" "Widget".

(** The same record after two units were removed locally. *)
Definition adjusted : @Item Z :=
  record "A" 8 10 5 (synced_at 3 (snap 10 10 "Widget" 3))
    [entry "CREATE" 10 10; entry "ADJUST_DOWN" (-2) 8].

(** The same record after two units were added locally. *)
Definition restocked : @Item Z :=
  record "A" 12 10 5 (synced_at 3 (snap 10 10 "Widget" 3))
    [entry "CREATE" 10 10; entry "ADD" 2 12].



(** A record that was never synced, and a listing for the same SKU. *)
Definition never_synced : @Item Z :=
  record "A" 3 10 2 None [entry "CREATE" 3 3].

Definition first_listing : EbayItem := listing "A" "5" "12" "Gadget".

(** A listing that reports a negative quantity. *)
Definition negative_listing : EbayItem := listing "A" "-3" "10" "Widget".

Definition five_listed : EbayItem := listing "A" "5" "10" "Widget".

End Example.

(** * Concrete cases for the routes *)

Module Cases.

Import Example.

(** A picture of a barcode, and the sign of the number a text converts
    to. *)
Definition png_of (text : string) : string := "png:" +:+ text.

Definition above_zero (text : string) : bool :=
  match parseInt text with
  | Some q => bool_decide (0 < q)
  | None => false
  end.

(** Four units of item 0001 in drawer 001, position 01. *)
Definition stocked : @Item Z :=
  {| sku := "000100101"; itemCode := "0001"; drawerNumber := "001";
     positionNumber := "01"; fullLocation := "001-01";
     price := 10; currentQty := 4; description := "Widget";
     condition := None; dateAdded := 1; lastModified := DateObject 1;
     lastSyncedQty := None; ebaySync := None;
     history := [entry "CREATE" 4 4] |}.

Definition warehouse : @World Z := world [stocked] [] [].

(** The same store when the second awaited call is going to reject. *)
Definition warehouse_offline : @World Z :=
  world [stocked] [] [None; Some "timeout"].


(** A store with the record of SKU A, and the same with its listing. *)
Definition shelf : @World Z := world [untouched] [] [].

Definition shelf_listed : @World Z := world [untouched] [seven_left] [].

Definition unlisted : @World Z := world [] [seven_left] [].

(** A pull, a smart sync whose second awaited call rejects, and a push. *)
Definition calls : list Call :=
  [ {| call_op := Pull;
       call_remote := {| d_items := [seven_left]; d_error := None |};
       call_script := [] |};
    {| call_op := SmartSync;
       call_remote := {| d_items := [five_listed]; d_error := None |};
       call_script := [None; Some "timeout"] |};
    {| call_op := Push;
       call_remote := {| d_items := []; d_error := Some "offline" |};
       call_script := [] |} ].

(** Three more units of item 0001, and five units of a new item 0002. *)
Definition three_more : AddRequest :=
  {| a_itemId := "0001"; a_drawer := "1"; a_position := "1";
     a_price := "10"; a_quantity := "3"; a_description := "" |}.

Definition five_new : AddRequest :=
  {| a_itemId := "0002"; a_drawer := "2"; a_position := "3";
     a_price := "10"; a_quantity := "5"; a_description := "Gadget" |}.

Definition count_nine : @AdjustRequest Z :=
  {| q_quantity := Some 9; q_price := None; q_description := None |}.

(** An account whose token expires at 500, and what its list entry is
    at 100. *)
Definition shop : Account :=
  {| acc_name := Some "Shop";
     acc_tokens := Some {| access_token := Some "token";
                           refresh_token := Some "refresh";
                           expires_at := Some 500;
                           token_type := Some "Bearer" |};
     acc_addedAt := Some 1; acc_lastSync := None |}.

Definition accounts : gmap string Account := {[ "acc_1" := shop ]}.

Definition shop_entry : AccountEntry :=
  {| entry_id := "acc_1"; entry_name := Some "Shop";
     entry_hasValidToken := FlagBool true; entry_lastSync := None |}.

(** A save that records the instant of a sync and nothing else. *)
Definition synced_now : AccountData :=
  {| s_name := None; s_tokens := None; s_addedAt := None;
     s_lastSync := Some 50 |}.

End Cases.

(** * Reasoning about runs *)

Arguments pull_localChangedSinceSync : simpl never.
Arguments push_localChangedSinceSync : simpl never.
Arguments push_differs : simpl never.
Arguments localIsNewer : simpl never.
Arguments snapshotQty : simpl never.
Arguments remoteQty : simpl never.
Arguments key_of : simpl never.
Arguments num_or : simpl never.
Arguments str_or : simpl never.
Arguments price_or : simpl never.
Arguments parseInt : simpl never.
Arguments await : simpl never.
Arguments sale_entry : simpl never.
Arguments captureEbaySnapshot : simpl never.
Arguments captureLocalSnapshot : simpl never.
Arguments Json {A} body.
Arguments Failed {A} code error.
Arguments Beyond {A}.
Arguments padStart : simpl never.
Arguments digits_only : simpl never.
Arguments item_ids : simpl never.
Arguments locations : simpl never.

Section Runs.

Context {num : Type} `{EqDecision num}.
Variable num_zero : num.
Variable parseFloat : string -> option num.

Local Abbreviation World := (@World num).
Local Abbreviation M := (@M num).

Implicit Types (w : World) (localItem fullItem : @Item num).
Implicit Types (change : @Change num) (changes rest : list (@Change num)).

(** ** Falsy defaults that change nothing *)

Lemma price_or_self (p : num) : price_or num_zero (Some p) num_zero = p.
Proof. unfold price_or. case_decide; congruence. Qed.

Lemma num_or_self (q : Z) : num_or (Some q) 0 = q.
Proof. unfold num_or. case_decide; congruence. Qed.

Lemma str_or_self (s : string) : str_or s "" = s.
Proof. unfold str_or. case_decide; congruence. Qed.

(** ** Inversion of successful runs *)

Lemma bind_Ok {A B} (m : M A) (k : A -> M B) w w' (b : B) :
  bind m k w = (w', Ok b) ->
  exists a w1, m w = (w1, Ok a) /\ k a w1 = (w', Ok b).
Proof.
  unfold bind. destruct (m w) as [w1 [a|e]]; intros Hr; [eauto | discriminate].
Qed.

Lemma ret_Ok {A} (a b : A) w w' : ret a w = (w', Ok b) -> w' = w /\ b = a.
Proof. unfold ret. intros [= <- <-]. auto. Qed.

Lemma gets_Ok {A} (f : World -> A) w w' (b : A) :
  gets f w = (w', Ok b) -> w' = w /\ b = f w.
Proof. unfold gets. intros [= <- <-]. auto. Qed.

Lemma modify_Ok (f : World -> World) w w' u :
  modify f w = (w', Ok u) -> w' = f w.
Proof. unfold modify. intros [= <-]. auto. Qed.

Lemma await_Ok w w' u : await w = (w', Ok u) -> w' = step w.
Proof.
  unfold await. destruct (script w) as [|[msg|] l]; intros [= <-]; auto.
Qed.

Lemma getItem_Ok k w w' r :
  getItem k w = (w', Ok r) -> w' = step w /\ r = items w !! k.
Proof.
  unfold getItem. intros (u & w1 & Ha & Hg)%bind_Ok.
  apply await_Ok in Ha. apply gets_Ok in Hg. subst. auto.
Qed.

Lemma addHistory_Ok k entry w w' u :
  addHistory k entry w = (w', Ok u) ->
  w' = match items w !! k with
       | Some item => set_items (insert k (push_history entry item)) (step w)
       | None => step w
       end.
Proof.
  unfold addHistory. intros (u' & w1 & Ha & Hm)%bind_Ok.
  apply await_Ok in Ha. apply modify_Ok in Hm. subst. reflexivity.
Qed.

Lemma updateItem_Ok k u w w' r :
  updateItem k u w = (w', Ok r) ->
  w' = match items w !! k with
       | Some item => set_items (insert k (assign item u (clock w + 1))) (step w)
       | None => step w
       end.
Proof.
  unfold updateItem. intros (u' & w1 & Ha & Hm)%bind_Ok.
  apply await_Ok in Ha. apply modify_Ok in Hm. subst. reflexivity.
Qed.

Lemma createItem_Ok itemData w w' r :
  createItem itemData w = (w', Ok r) ->
  w' = set_items (insert (sku itemData) itemData) (step w).
Proof.
  unfold createItem. intros (u' & w1 & Ha & Hm)%bind_Ok.
  apply await_Ok in Ha. apply modify_Ok in Hm. subst. reflexivity.
Qed.

Lemma syncItemToEbay_Ok wi w w' r :
  syncItemToEbay wi w = (w', Ok r) ->
  items w' = items w /\ results w' = results w.
Proof.
  unfold syncItemToEbay.
  intros (? & w1 & Ha & (? & w2 & Hm & (now & w3 & Hd & (? & w4 & Ha' & Hm'
          )%bind_Ok)%bind_Ok)%bind_Ok)%bind_Ok.
  apply await_Ok in Ha, Ha'. apply modify_Ok in Hm, Hm'.
  apply gets_Ok in Hd as [-> ->]. subst. auto.
Qed.

(** ** The pass of smart sync over a paired item *)

Lemma sync_pair_Ok k ebayItem fullItem w w' :
  items w !! k = Some fullItem ->
  sync_pair num_zero k ebayItem w = (w', Ok tt) ->
  let ebayQty := num_or (parseInt (e_quantity ebayItem)) 0 in
  let sold := snapshotQty fullItem - ebayQty in
  exists t1 t2 t3,
    if bool_decide (ebayQty < snapshotQty fullItem) then
      let finalQty := Z.max 0 (currentQty fullItem - sold) in
      items w' !! k =
        Some (assign (push_history (sale_entry t1 sold finalQty "sync") fullItem)
                (pair_tracking num_zero fullItem ebayItem finalQty t2) t3)
      /\ sales (results w') = (sales (results w) ++ [(k, sold, finalQty)])%list
      /\ updated (results w')
         = (updated (results w) ++ [UpdatedQty k finalQty sold])%list
    else
      items w' !! k =
        Some (assign fullItem
                (pair_tracking num_zero fullItem ebayItem (currentQty fullItem) t2) t3)
      /\ sales (results w') = sales (results w)
      /\ updated (results w')
         = (updated (results w) ++ [UpdatedQty k (currentQty fullItem) 0])%list.
Proof.
  intros Hk Hrun ebayQty sold. unfold sync_pair in Hrun.
  apply bind_Ok in Hrun as (r & w1 & Hget & Hrun).
  apply getItem_Ok in Hget as [-> ->]. rewrite Hk in Hrun.
  apply bind_Ok in Hrun as ([finalQty salesDetected] & w2 & Hsale & Hrun).
  apply bind_Ok in Hrun as (? & w3 & Hsync & Hrun).
  apply bind_Ok in Hrun as (now & w4 & Hnow & Hrun).
  apply bind_Ok in Hrun as (? & w5 & Hupd & Hpush).
  apply syncItemToEbay_Ok in Hsync as [Hi3 Hr3].
  apply gets_Ok in Hnow as [-> ->].
  apply updateItem_Ok in Hupd. apply modify_Ok in Hpush.
  fold ebayQty in Hsale. fold sold in Hsale.
  destruct (bool_decide (ebayQty < snapshotQty fullItem)).
  - apply bind_Ok in Hsale as (t1 & w6 & Hd & Hsale).
    apply gets_Ok in Hd as [-> ->].
    apply bind_Ok in Hsale as (? & w7 & Hadd & Hsale).
    apply bind_Ok in Hsale as (? & w8 & Hps & Hret).
    apply addHistory_Ok in Hadd. apply modify_Ok in Hps.
    apply ret_Ok in Hret as [-> [= -> ->]].
    simpl in Hadd. rewrite Hk in Hadd.
    exists (clock w + 1), (clock w3), (clock w3 + 1).
    subst w'. simpl. subst w5. rewrite Hi3. subst w8 w7. simpl.
    rewrite lookup_insert_eq. simpl. rewrite lookup_insert_eq.
    rewrite Hr3. simpl. auto.
  - apply ret_Ok in Hsale as [-> [= -> ->]].
    exists 0, (clock w3), (clock w3 + 1).
    subst w'. simpl. subst w5. rewrite Hi3. simpl. rewrite Hk. simpl.
    rewrite lookup_insert_eq. rewrite Hr3. simpl. auto.
Qed.

(** ** Triples: what holds after a run, whether it returns or throws *)

Lemma triple_conseq {A} (P P' : World -> Prop) (m : M A)
    (Q Q' : A -> World -> Prop) (E E' : World -> Prop) :
  triple P' m Q' E' ->
  (forall w, P w -> P' w) ->
  (forall a w, Q' a w -> Q a w) ->
  (forall w, E' w -> E w) ->
  triple P m Q E.
Proof.
  intros Hm HP HQ HE w Hw. specialize (Hm w (HP w Hw)).
  destruct (m w) as [w' [a|e]]; auto.
Qed.

Lemma triple_pure {A} (phi : Prop) (P : World -> Prop) (m : M A)
    (Q : A -> World -> Prop) (E : World -> Prop) :
  (phi -> triple P m Q E) -> triple (fun w => phi /\ P w) m Q E.
Proof. intros Hm w [Hphi Hw]. exact (Hm Hphi w Hw). Qed.

Lemma triple_ret {A} (P : World -> Prop) (a : A) (Q : A -> World -> Prop) E :
  (forall w, P w -> Q a w) -> triple P (ret a) Q E.
Proof. intros HQ w Hw. simpl. auto. Qed.

Lemma triple_throw {A} (P : World -> Prop) msg (Q : A -> World -> Prop)
    (E : World -> Prop) :
  (forall w, P w -> E w) -> triple P (throw msg) Q E.
Proof. intros HE w Hw. simpl. auto. Qed.

Lemma triple_bind {A B} (P : World -> Prop) (m : M A) (k : A -> M B)
    (R : A -> World -> Prop) (Q : B -> World -> Prop) E :
  triple P m R E ->
  (forall a, triple (R a) (k a) Q E) ->
  triple P (bind m k) Q E.
Proof.
  intros Hm Hk w Hw. specialize (Hm w Hw). unfold bind.
  destruct (m w) as [w1 [a|e]]; [apply (Hk a w1 Hm) | exact Hm].
Qed.

Lemma triple_gets {A} (P : World -> Prop) (f : World -> A)
    (Q : A -> World -> Prop) E :
  (forall w, P w -> Q (f w) w) -> triple P (gets f) Q E.
Proof. intros HQ w Hw. simpl. auto. Qed.

Lemma triple_modify (P : World -> Prop) (f : World -> World)
    (Q : unit -> World -> Prop) E :
  (forall w, P w -> Q tt (f w)) -> triple P (modify f) Q E.
Proof. intros HQ w Hw. simpl. auto. Qed.

Lemma triple_await (P : World -> Prop) (Q : unit -> World -> Prop) E :
  (forall w, P w -> Q tt (step w) /\ E (step w)) -> triple P await Q E.
Proof.
  intros HQ w Hw. destruct (HQ w Hw) as [H1 H2]. unfold await.
  destruct (script w) as [|[msg|] l]; assumption.
Qed.

Lemma triple_try_catch {A} (P : World -> Prop) (m : M A) (h : string -> M A)
    (Q : A -> World -> Prop) (E' E : World -> Prop) :
  triple P m Q E' ->
  (forall msg, triple E' (h msg) Q E) ->
  triple P (try_catch m h) Q E.
Proof.
  intros Hm Hh w Hw. specialize (Hm w Hw). unfold try_catch.
  destruct (m w) as [w1 [a|e]]; [exact Hm | apply (Hh e w1 Hm)].
Qed.

Lemma triple_for_each {A} (I : World -> Prop) (l : list A)
    (body : A -> M unit) E :
  (forall x, x ∈ l -> triple I (body x) (fun _ => I) E) ->
  triple I (for_each l body) (fun _ => I) E.
Proof.
  induction l as [|x l IH]; intros Hbody.
  - apply triple_ret. auto.
  - simpl. eapply triple_bind.
    + apply Hbody. left.
    + intros u. apply IH. intros y Hy. apply Hbody. by right.
Qed.

Lemma triple_for_fold {A S} (K : S -> World -> Prop) (l : list A)
    (body : S -> A -> M S) E :
  (forall s x, x ∈ l -> triple (K s) (body s x) K E) ->
  forall s, triple (K s) (for_fold l s body) K E.
Proof.
  induction l as [|x l IH]; intros Hbody s.
  - apply triple_ret. auto.
  - simpl. eapply triple_bind.
    + apply Hbody. left.
    + intros s'. apply IH. intros s0 y Hy. apply Hbody. by right.
Qed.

Tactic Notation "next" constr(R) := apply (triple_bind _ _ _ R).

(** ** Invariants of the world

    An invariant is stable when it does not depend on the clock, the
    script, the result object or the log of remote writes. *)

Section Stable.

Variable I : World -> Prop.
Hypothesis I_stable : stable I.

(** What holds when an awaited call rejects. *)
Variable E : World -> Prop.
Hypothesis await_E : triple I await (fun _ => I) E.

Lemma stable_step w : I w -> I (step w).
Proof. intros Hw. apply I_stable, Hw. Qed.

Lemma stable_results f w : I w -> I (set_results f w).
Proof. intros Hw. apply I_stable, Hw. Qed.

Lemma stable_sent f w : I w -> I (set_sent f w).
Proof. intros Hw. apply I_stable, Hw. Qed.

Lemma stable_lastSync t w : I w -> I (set_lastSync t w).
Proof. intros Hw. apply I_stable, Hw. Qed.

Lemma getItem_stable k :
  triple I (getItem k) (fun r w => I w /\ r = items w !! k) E.
Proof.
  unfold getItem. eapply triple_bind; [apply await_E |].
  intros ?. apply triple_gets. auto.
Qed.

Lemma getAllItems_stable :
  triple I (getAllItems num_zero)
    (fun l w => I w /\ l = formatItem num_zero <$> (map_to_list (items w)).*2) E.
Proof.
  unfold getAllItems. eapply triple_bind; [apply await_E |].
  intros ?. apply triple_gets. auto.
Qed.

Lemma getActiveListings_stable :
  triple I getActiveListings (fun d w => I w /\ d = remote w) E.
Proof.
  unfold getActiveListings. eapply triple_bind; [apply await_E |].
  intros ?. apply triple_gets. auto.
Qed.

Lemma createItem_stable itemData :
  (forall w, I w -> I (set_items (insert (sku itemData) itemData) w)) ->
  triple I (createItem itemData) (fun _ => I) E.
Proof.
  intros Hins. unfold createItem.
  eapply triple_bind; [apply await_E |].
  intros ?. apply triple_modify. auto.
Qed.

Lemma updateItem_stable k u :
  (forall w item t, I w -> items w !! k = Some item ->
     I (set_items (insert k (assign item u t)) w)) ->
  triple I (updateItem k u) (fun _ => I) E.
Proof.
  intros Hins. unfold updateItem.
  eapply triple_bind; [apply await_E |].
  intros ?. apply triple_modify. intros w Hw.
  destruct (items w !! k) as [item|] eqn:Hk; auto.
Qed.

Lemma addHistory_stable k entry :
  (forall w item, I w -> items w !! k = Some item ->
     I (set_items (insert k (push_history entry item)) w)) ->
  triple I (addHistory k entry) (fun _ => I) E.
Proof.
  intros Hins. unfold addHistory.
  eapply triple_bind; [apply await_E |].
  intros ?. apply triple_modify. intros w Hw.
  destruct (items w !! k) as [item|] eqn:Hk; auto.
Qed.

Lemma syncItemToEbay_stable wi :
  triple I (syncItemToEbay wi) (fun _ => I) E.
Proof.
  unfold syncItemToEbay.
  apply (triple_bind _ _ _ (fun _ => I)); [apply await_E |]. intros ?.
  apply (triple_bind _ _ _ (fun _ => I)).
  { apply triple_modify. intros w Hw. apply stable_sent, Hw. }
  intros ?. apply (triple_bind _ _ _ (fun _ => I)).
  { apply triple_gets. auto. }
  intros now. apply (triple_bind _ _ _ (fun _ => I)); [apply await_E |].
  intros ?. apply triple_modify. intros w Hw. apply stable_lastSync, Hw.
Qed.

Lemma push_results_stable (f : Results -> Results) :
  triple I (modify (set_results f)) (fun _ => I) E.
Proof. apply triple_modify. intros w Hw. apply stable_results, Hw. Qed.

End Stable.

(** ** Runs that may throw *)

Lemma await_cases w :
  await w = (step w, Ok tt) \/ exists msg, await w = (step w, Throw msg).
Proof. unfold await. destruct (script w) as [|[msg|] l]; eauto. Qed.

Lemma getItem_cases k w :
  getItem k w = (step w, Ok (items w !! k))
  \/ exists msg, getItem k w = (step w, Throw msg).
Proof.
  unfold getItem, bind. destruct (await_cases w) as [-> | [msg ->]]; eauto.
Qed.

Lemma updateItem_cases k u w :
  updateItem k u w
  = (match items w !! k with
     | Some item => set_items (insert k (assign item u (clock w + 1))) (step w)
     | None => step w
     end, Ok tt)
  \/ exists msg, updateItem k u w = (step w, Throw msg).
Proof.
  unfold updateItem, bind. destruct (await_cases w) as [-> | [msg ->]]; eauto.
Qed.

(** ** The loop of pull over the changes of one item *)

Lemma pull_change_quiet k ebayItem localItem change updates changedFields w :
  quiet localItem change ->
  exists updates' changedFields',
    pull_change num_zero parseFloat k ebayItem localItem
      (updates, changedFields) change w
    = (w, Ok (updates', changedFields'))
    /\ (change <> ChAll -> u_currentQty updates' = u_currentQty updates)
    /\ (has_keys updates = true -> has_keys updates' = true).
Proof.
  intros Hq. unfold pull_change.
  destruct change as [|old new|old new|old new]; simpl.
  - eexists _, _. split; [reflexivity|]. split; [congruence|].
    intros _. unfold has_keys. simpl. apply orb_true_r.
  - destruct (pull_localChangedSinceSync _ _ _) eqn:Hc; simpl.
    + destruct (localIsNewer _ _); simpl; eexists _, _; eauto.
    + destruct Hq as [Hq | Hq]; [congruence|].
      fold (snapshotQty localItem).
      rewrite bool_decide_eq_false_2 by exact Hq.
      eexists _, _; eauto.
  - destruct (pull_localChangedSinceSync _ _ _); simpl;
      [destruct (localIsNewer _ _); simpl |];
      eexists _, _; (split; [reflexivity|]); split; auto;
      unfold has_keys; simpl; intros Hk; rewrite ?orb_true_r; reflexivity.
  - destruct (pull_localChangedSinceSync _ _ _); simpl;
      [destruct (localIsNewer _ _); simpl |];
      eexists _, _; (split; [reflexivity|]); split; auto;
      unfold has_keys; simpl; intros Hk; rewrite ?orb_true_r; reflexivity.
Qed.

Lemma for_fold_quiet k ebayItem localItem changes :
  Forall (quiet localItem) changes ->
  forall updates changedFields w,
  exists updates' changedFields',
    for_fold changes (updates, changedFields)
      (pull_change num_zero parseFloat k ebayItem localItem) w
    = (w, Ok (updates', changedFields'))
    /\ (ChAll ∉ changes -> u_currentQty updates' = u_currentQty updates)
    /\ (has_keys updates = true -> has_keys updates' = true).
Proof.
  induction 1 as [|c cs Hc Hcs IH]; intros updates changedFields w.
  - exists updates, changedFields. simpl. auto.
  - destruct (pull_change_quiet k ebayItem localItem c updates changedFields w Hc)
      as (u1 & cf1 & Hrun & Hq1 & Hk1).
    destruct (IH u1 cf1 w) as (u2 & cf2 & Hrun2 & Hq2 & Hk2).
    exists u2, cf2. cbn [for_fold]. unfold bind. rewrite Hrun, Hrun2.
    split; [reflexivity|]. split.
    + intros Hall. rewrite Hq2, Hq1; [reflexivity | |].
      * intros ->. apply Hall. left.
      * intros Hin. apply Hall. by right.
    + auto.
Qed.

(** The changes of price and title that the detector reports. *)
Lemma detect_with_snapshot ebayItem s :
  exists rest,
    detectEbayChanges num_zero parseFloat ebayItem (Some s)
    = ((if decide (remoteQty ebayItem <> snap_quantity s)
        then [ChQuantity (snap_quantity s) (remoteQty ebayItem)] else [])
       ++ rest)%list
    /\ Forall (fun c => match c with
                        | ChPrice _ _ | ChTitle _ _ => True
                        | _ => False
                        end) rest.
Proof.
  unfold detectEbayChanges. eexists. split; [reflexivity|].
  apply Forall_app. split; case_decide; repeat constructor.
Qed.

Lemma fields_quiet localItem rest :
  Forall (fun c : Change => match c with
                            | ChPrice _ _ | ChTitle _ _ => True
                            | _ => False
                            end) rest ->
  Forall (quiet localItem) rest /\ ChAll ∉ rest.
Proof.
  induction 1 as [|c cs Hc Hcs [IH1 IH2]].
  - split; [constructor | apply not_elem_of_nil].
  - split.
    + constructor; [destruct c; simpl; tauto | exact IH1].
    + intros [Heq | Hin]%elem_of_cons; [subst c; exact Hc | exact (IH2 Hin)].
Qed.

(** ** Pull over a record whose quantity is locally unchanged *)

Lemma pull_body_sale ebayItem localItem s w w' :
  items w !! key_of ebayItem = Some localItem ->
  snapshot_of localItem = Some s ->
  currentQty localItem = snap_quantity s ->
  remoteQty ebayItem < snap_quantity s ->
  pull_body num_zero parseFloat ebayItem w = (w', Ok tt) ->
  sale_applied (key_of ebayItem) localItem
    (snap_quantity s - remoteQty ebayItem) w'.
Proof.
  intros Hk Hs Hq Hlt Hrun. unfold pull_body in Hrun.
  fold (key_of ebayItem) in Hrun.
  apply bind_Ok in Hrun as (r & w1 & Hget & Hrun).
  apply getItem_Ok in Hget as [-> ->]. rewrite Hk, Hs in Hrun.
  destruct (detect_with_snapshot ebayItem s) as (rest & Hdet & Hrest).
  rewrite Hdet in Hrun. clear Hdet.
  rewrite decide_True in Hrun by lia.
  cbn [app bool_decide decide_rel for_fold] in Hrun.
  apply bind_Ok in Hrun as ([updates changedFields] & w2 & Hfold & Hrun).
  apply bind_Ok in Hfold as ([u1 cf1] & w3 & Hchange & Hfold).
  unfold pull_change in Hchange. rewrite Hs in Hchange.
  unfold pull_localChangedSinceSync in Hchange.
  rewrite bool_decide_eq_false_2 in Hchange by (intros Hne; apply Hne, Hq).
  simpl in Hchange.
  rewrite bool_decide_eq_true_2 in Hchange by exact Hlt.
  apply bind_Ok in Hchange as (t1 & w4 & Hd & Hchange).
  apply gets_Ok in Hd as [-> ->].
  apply bind_Ok in Hchange as (? & w5 & Hadd & Hret).
  apply addHistory_Ok in Hadd. simpl in Hadd. rewrite Hk in Hadd.
  apply ret_Ok in Hret as [-> Hst].
  destruct (fields_quiet localItem rest Hrest) as [Hquiet Hall].
  destruct (for_fold_quiet (key_of ebayItem) ebayItem localItem rest Hquiet
              u1 cf1 w5)
    as (u2 & cf2 & Hrun2 & Hq2 & Hk2).
  injection Hst as -> ->.
  rewrite Hrun2 in Hfold. injection Hfold as <- <- <-.
  rewrite Hk2 in Hrun by reflexivity.
  apply bind_Ok in Hrun as (t2 & w6 & Hd & Hrun).
  apply gets_Ok in Hd as [-> ->].
  apply bind_Ok in Hrun as (? & w7 & Hupd & Hpush).
  apply updateItem_Ok in Hupd. apply modify_Ok in Hpush.
  subst w' w7 w5. simpl. rewrite lookup_insert_eq. simpl.
  eexists _, _. split; [apply lookup_insert_eq|]. simpl.
  rewrite (Hq2 Hall). simpl. repeat split; reflexivity.
Qed.

(** ** Pull over a record whose quantity changed locally *)

Lemma pull_body_local_changed ebayItem localItem s w :
  items w !! key_of ebayItem = Some localItem ->
  snapshot_of localItem = Some s ->
  currentQty localItem <> snap_quantity s ->
  history_kept (key_of ebayItem) localItem
    (pull_body num_zero parseFloat ebayItem w).1.
Proof.
  intros Hk Hs Hne. unfold pull_body. fold (key_of ebayItem). unfold bind at 1.
  destruct (getItem_cases (key_of ebayItem) w) as [-> | [msg ->]];
    [| exists localItem; auto].
  rewrite Hk, Hs.
  destruct (detect_with_snapshot ebayItem s) as (rest & -> & Hrest).
  case_bool_decide as Hnil; [exists localItem; auto|].
  destruct (fields_quiet localItem rest Hrest) as [Hquiet _].
  assert (Hall : Forall (quiet localItem)
            ((if decide (remoteQty ebayItem <> snap_quantity s)
              then [ChQuantity (snap_quantity s) (remoteQty ebayItem)] else [])
             ++ rest)%list).
  { apply Forall_app. split; [|exact Hquiet].
    case_decide; repeat constructor.
    unfold pull_localChangedSinceSync. rewrite Hs.
    apply bool_decide_eq_true_2, Hne. }
  destruct (for_fold_quiet (key_of ebayItem) ebayItem localItem _ Hall
              no_updates [] (step w))
    as (u2 & cf2 & Hrun2 & _ & _).
  unfold bind at 1. rewrite Hrun2.
  destruct (has_keys u2); [|exists localItem; auto].
  unfold bind at 1. unfold newDate, gets. unfold bind at 1.
  match goal with
  | |- context [updateItem ?k ?u ?w0] =>
      destruct (updateItem_cases k u w0) as [-> | [msg ->]]
  end; [| exists localItem; auto].
  change (items (step w)) with (items w). rewrite Hk.
  unfold history_kept. simpl. rewrite lookup_insert_eq.
  eexists. split; reflexivity.
Qed.

(** ** Pull over a record that has no snapshot *)

Lemma pull_body_no_snapshot ebayItem localItem w w' :
  items w !! key_of ebayItem = Some localItem ->
  snapshot_of localItem = None ->
  pull_body num_zero parseFloat ebayItem w = (w', Ok tt) ->
  exists t,
    items w' !! key_of ebayItem
    = Some (assign localItem
              (upd_sync
                 {| snapshot := Some (captureEbaySnapshot num_zero parseFloat
                                        ebayItem t);
                    lastSyncTime := Some (DateObject t);
                    ebayItemId := Some (e_itemId ebayItem);
                    status := "synced" |}
                 (num_or (parseInt (e_quantity ebayItem)) (currentQty localItem))
                 (upd_description
                    (str_or (e_title ebayItem) (description localItem))
                    (upd_price
                       (price_or num_zero (parseFloat (e_price ebayItem))
                          (price localItem))
                       no_updates)))
              (t + 1)).
Proof.
  intros Hk Hs Hrun. unfold pull_body in Hrun. fold (key_of ebayItem) in Hrun.
  apply bind_Ok in Hrun as (r & w1 & Hget & Hrun).
  apply getItem_Ok in Hget as [-> ->]. rewrite Hk, Hs in Hrun.
  cbn [detectEbayChanges for_fold] in Hrun.
  apply bind_Ok in Hrun as ([updates changedFields] & w2 & Hfold & Hrun).
  apply bind_Ok in Hfold as ([u1 cf1] & w3 & Hchange & Hret).
  apply ret_Ok in Hchange as [-> [= -> ->]].
  apply ret_Ok in Hret as [-> [= -> ->]].
  cbn [has_keys upd_description upd_price u_currentQty u_price present
       no_updates orb] in Hrun.
  apply bind_Ok in Hrun as (t & w4 & Hd & Hrun).
  apply gets_Ok in Hd as [-> ->].
  apply bind_Ok in Hrun as (? & w5 & Hupd & Hpush).
  apply updateItem_Ok in Hupd. apply modify_Ok in Hpush.
  subst w' w5. simpl in *. rewrite Hk. exists (clock w + 1). simpl.
  apply lookup_insert_eq.
Qed.

(** ** What the read of [item.sku] entails

    The objects returned by [data.getAllItems] have no property [sku]:
    the local map of smart sync has at most the key ["undefined"], and
    push only ever looks up that key. *)

Lemma local_map_keys (l : list (@FormattedItem num)) k :
  is_Some (local_map l !! k) -> k = "undefined".
Proof.
  unfold local_map.
  assert (Hgen : forall m : gmap string (@FormattedItem num),
            (forall k, is_Some (m !! k) -> k = "undefined") ->
            forall k,
              is_Some (foldl (fun m item => <[prop_key (f_sku item) := item]> m)
                         m l !! k) ->
              k = "undefined").
  { induction l as [|x l IH]; intros m Hm k0 Hk0; [exact (Hm k0 Hk0)|].
    simpl in Hk0. revert k0 Hk0. apply IH. intros k1 Hk1.
    destruct (decide (k1 = "undefined")) as [->|Hne]; [reflexivity|].
    rewrite lookup_insert_ne in Hk1 by (simpl; congruence). exact (Hm k1 Hk1). }
  apply Hgen. intros k0 [x Hx]. rewrite lookup_empty in Hx. discriminate.
Qed.

Lemma push_item_idle ebayInventory (item : FormattedItem) w :
  items w !! "undefined" = None ->
  exists w',
    push_item num_zero parseFloat ebayInventory item w = (w', Ok tt)
    /\ items w' = items w /\ sent w' = sent w
    /\ created (results w') = created (results w)
    /\ pushed (results w') = pushed (results w).
Proof.
  intros Hk. unfold push_item, try_catch, push_body. unfold bind at 1.
  destruct (getItem_cases (prop_key (f_sku item)) w) as [-> | [msg ->]].
  - change (prop_key (f_sku item)) with "undefined". rewrite Hk.
    eexists. repeat split; reflexivity.
  - eexists. repeat split; reflexivity.
Qed.

Lemma push_loop_idle ebayInventory (l : list FormattedItem) w :
  items w !! "undefined" = None ->
  exists w',
    for_each l (push_item num_zero parseFloat ebayInventory) w = (w', Ok tt)
    /\ items w' = items w /\ sent w' = sent w
    /\ created (results w') = created (results w)
    /\ pushed (results w') = pushed (results w).
Proof.
  revert w. induction l as [|x l IH]; intros w Hk; simpl.
  - eexists. repeat split; reflexivity.
  - unfold bind.
    destruct (push_item_idle ebayInventory x w Hk)
      as (w1 & -> & Hi & Hs & Hc & Hp).
    destruct (IH w1) as (w2 & Hrun & Hi2 & Hs2 & Hc2 & Hp2); [by rewrite Hi|].
    exists w2. rewrite Hrun. repeat split; congruence.
Qed.

(** ** Fault isolation

    Every loop body sits in a [try] whose [catch] pushes one entry on
    [results.errors] and goes on: no pass over an item throws, so no loop
    is cut short. *)

Lemma try_catch_returns {A} (m : M A) (h : string -> M A) w :
  (forall msg w1, exists w' a, h msg w1 = (w', Ok a)) ->
  exists w' a, try_catch m h w = (w', Ok a).
Proof.
  intros Hh. unfold try_catch. destruct (m w) as [w1 [a|msg]]; eauto.
Qed.

Lemma for_each_returns {A} (l : list A) (body : A -> M unit) :
  (forall x w, exists w', body x w = (w', Ok tt)) ->
  forall w, exists w', for_each l body w = (w', Ok tt).
Proof.
  intros Hbody. induction l as [|x l IH]; intros w; simpl.
  - eexists. reflexivity.
  - unfold bind. destruct (Hbody x w) as [w1 ->]. apply IH.
Qed.

Lemma pull_item_returns ebayItem w :
  exists w', pull_item num_zero parseFloat ebayItem w = (w', Ok tt).
Proof.
  unfold pull_item.
  destruct (try_catch_returns (pull_body num_zero parseFloat ebayItem)
              (fun msg => push_errors (Some (key_of ebayItem), msg)) w)
    as (w' & [] & Hrun); [|eauto].
  intros msg w1. eexists _, _. reflexivity.
Qed.

Lemma push_item_returns ebayInventory (item : FormattedItem) w :
  exists w', push_item num_zero parseFloat ebayInventory item w = (w', Ok tt).
Proof.
  unfold push_item.
  destruct (try_catch_returns (push_body num_zero parseFloat ebayInventory item)
              (fun msg => push_errors (f_sku item, msg)) w)
    as (w' & [] & Hrun); [|eauto].
  intros msg w1. eexists _, _. reflexivity.
Qed.

Lemma sync_import_returns processedSkus (entry : string * EbayItem) w :
  exists w', sync_import num_zero parseFloat processedSkus entry w = (w', Ok tt).
Proof.
  destruct entry as [k ebayItem]. unfold sync_import.
  case_bool_decide; [eexists; reflexivity|].
  match goal with
  | |- context [try_catch ?m ?h] =>
      destruct (try_catch_returns m h w) as (w' & [] & Hrun); [|eauto]
  end.
  intros msg w1. eexists _, _. reflexivity.
Qed.

Lemma sync_export_returns ebayInventory processedSkus (item : FormattedItem) w :
  exists w',
    sync_export num_zero ebayInventory processedSkus item w = (w', Ok tt).
Proof.
  unfold sync_export.
  destruct (match f_sku item with Some _ => _ | None => _ end);
    [eexists; reflexivity|].
  case_bool_decide; [eexists; reflexivity|].
  match goal with
  | |- context [try_catch ?m ?h] =>
      destruct (try_catch_returns m h w) as (w' & [] & Hrun); [|eauto]
  end.
  intros msg w1. eexists _, _. reflexivity.
Qed.

(** The pass of pull over a listing that fails records the key of the
    listing and the message. *)
Lemma pull_item_records ebayItem w w1 msg :
  pull_body num_zero parseFloat ebayItem w = (w1, Throw msg) ->
  exists w',
    pull_item num_zero parseFloat ebayItem w = (w', Ok tt)
    /\ errors (results w')
       = (errors (results w1) ++ [(Some (key_of ebayItem), msg)])%list.
Proof.
  intros Hrun. unfold pull_item, try_catch. rewrite Hrun.
  eexists. split; reflexivity.
Qed.

(** The pass of push over a local item that fails records the message,
    under the key [item.sku]. *)
Lemma push_item_records ebayInventory (item : FormattedItem) w w1 msg :
  push_body num_zero parseFloat ebayInventory item w = (w1, Throw msg) ->
  exists w',
    push_item num_zero parseFloat ebayInventory item w = (w', Ok tt)
    /\ errors (results w') = (errors (results w1) ++ [(f_sku item, msg)])%list.
Proof.
  intros Hrun. unfold push_item, try_catch. rewrite Hrun.
  eexists. split; reflexivity.
Qed.

(** ** Runs in which nothing rejects *)

Section Calm.

Lemma calm_stable : stable (@calm num).
Proof.
  assert (Hstep : forall w, calm w -> calm (step w)).
  { intros w Hw. unfold calm in *. simpl.
    destruct (script w); [exact Hw | inversion Hw; assumption]. }
  intros w Hw. split; [apply Hstep, Hw|].
  split; [intros f; exact Hw|]. split; [intros f; exact Hw | intros t; exact Hw].
Qed.

Local Abbreviation never := (fun _ : World => False).
Local Abbreviation calmly := (fun _ : unit => @calm num).

Lemma await_calm : triple (@calm num) await calmly never.
Proof.
  intros w Hw. unfold await.
  pose proof (proj1 (calm_stable w Hw)) as Hstep.
  unfold calm in Hw. destruct (script w) as [|[msg|] l]; [exact Hstep | | exact Hstep].
  inversion Hw; discriminate.
Qed.

Ltac calm_results := apply (push_results_stable _ calm_stable).

Lemma newDate_calm : triple (@calm num) newDate (fun _ : Z => @calm num) never.
Proof. apply triple_gets. auto. Qed.

Lemma syncItemToEbay_calm wi : triple calm (syncItemToEbay wi) calmly never.
Proof. apply (syncItemToEbay_stable _ calm_stable _ await_calm). Qed.

Lemma updateItem_calm k u : triple calm (updateItem k u) calmly never.
Proof. apply (updateItem_stable _ _ await_calm). intros; assumption. Qed.

Lemma addHistory_calm k entry : triple calm (addHistory k entry) calmly never.
Proof. apply (addHistory_stable _ _ await_calm). intros; assumption. Qed.

Lemma createItem_calm itemData : triple calm (createItem itemData) calmly never.
Proof. apply (createItem_stable _ _ await_calm). intros; assumption. Qed.

Lemma getItem_calm k :
  triple calm (getItem k) (fun (_ : option (@Item num)) => @calm num) never.
Proof.
  eapply triple_conseq; [apply (getItem_stable _ _ await_calm k) | auto | | auto].
  intros r w [Hw _]. exact Hw.
Qed.

Lemma pull_change_calm k ebayItem localItem st change :
  triple calm (pull_change num_zero parseFloat k ebayItem localItem st change)
    (fun _ => @calm num) never.
Proof.
  destruct st as [u cf]. unfold pull_change.
  assert (Hret : forall st' : @Updates num * list string,
            triple calm (ret st') (fun _ => @calm num) never).
  { intros st'. apply triple_ret. auto. }
  destruct change as [|old new|old new|old new].
  - apply Hret.
  - destruct (negb _).
    + case_bool_decide; [|apply Hret].
      next (fun _ : Z => @calm num); [apply newDate_calm|]. intros now.
      next calmly; [apply addHistory_calm | intros ?; apply Hret].
    + destruct (negb _); apply Hret.
  - destruct (negb _); [apply Hret|]. destruct (negb _); apply Hret.
  - destruct (negb _); [apply Hret|]. destruct (negb _); apply Hret.
Qed.

Lemma pull_body_calm ebayItem :
  triple calm (pull_body num_zero parseFloat ebayItem) calmly never.
Proof.
  unfold pull_body.
  next (fun (_ : option (@Item num)) => @calm num); [apply getItem_calm|].
  intros [localItem|].
  - case_bool_decide; [calm_results|].
    next (fun (_ : @Updates num * list string) => @calm num).
    { apply (triple_for_fold (fun (_ : @Updates num * list string) => @calm num)).
      intros st c _. apply pull_change_calm. }
    intros [updates changedFields].
    destruct (has_keys updates); [|calm_results].
    next (fun _ : Z => @calm num); [apply newDate_calm|]. intros now.
    next calmly; [apply updateItem_calm | intros ?; calm_results].
  - next (fun _ : Z => @calm num); [apply newDate_calm|]. intros now.
    next calmly; [apply createItem_calm | intros ?; calm_results].
Qed.

Lemma sync_pair_calm k ebayItem :
  triple calm (sync_pair num_zero k ebayItem) calmly never.
Proof.
  unfold sync_pair.
  next (fun (_ : option (@Item num)) => @calm num); [apply getItem_calm|].
  intros [fullItem|]; [|apply triple_ret; auto].
  next (fun (_ : Z * Z) => @calm num).
  { case_bool_decide; [|apply triple_ret; auto].
    next (fun _ : Z => @calm num); [apply newDate_calm|]. intros now.
    next calmly; [apply addHistory_calm|]. intros ?.
    next calmly; [calm_results | intros ?; apply triple_ret; auto]. }
  intros [finalQty salesDetected].
  next calmly; [apply syncItemToEbay_calm|]. intros ?.
  next (fun _ : Z => @calm num); [apply newDate_calm|]. intros now.
  next calmly; [apply updateItem_calm | intros ?; calm_results].
Qed.

(** A pass completes when nothing rejects. *)
Lemma completes (m : M unit) w :
  triple calm m calmly never -> calm w -> exists w', m w = (w', Ok tt).
Proof.
  intros Hm Hw. specialize (Hm w Hw).
  destruct (m w) as [w' [[]|e]]; [eauto | contradiction].
Qed.

End Calm.

(** ** Quantities stay non-negative *)

Section Quantities.

Variable d : EbayData.
Hypothesis d_ok : Forall listing_safe (d_items d).

Lemma qty_inv_stable : stable (@qty_inv num d).
Proof.
  intros w Hw. split; [exact Hw|]. split; [intros f; exact Hw|].
  split; [intros f; exact Hw | intros t; exact Hw].
Qed.

Lemma qty_inv_insert k item w :
  qty_inv d w -> safe_qty (currentQty item) ->
  qty_inv d (set_items (insert k item) w).
Proof.
  intros [Hq Hr] Hitem. split; [|exact Hr].
  unfold qty_safe. simpl. apply map_Forall_insert_2; assumption.
Qed.

Lemma qty_inv_lookup k item w :
  qty_inv d w -> items w !! k = Some item -> safe_qty (currentQty item).
Proof. intros [Hq _] Hk. exact (Hq k item Hk). Qed.

Lemma qty_inv_assign k item u t w :
  qty_inv d w -> items w !! k = Some item -> updates_ok u ->
  qty_inv d (set_items (insert k (assign item u t)) w).
Proof.
  intros Hw Hk Hu. apply qty_inv_insert; [exact Hw|]. simpl.
  destruct (u_currentQty u) as [q|] eqn:Hq; simpl.
  - apply Hu, Hq.
  - exact (qty_inv_lookup _ _ _ Hw Hk).
Qed.

Lemma qty_inv_push_history k item entry w :
  qty_inv d w -> items w !! k = Some item ->
  qty_inv d (set_items (insert k (push_history entry item)) w).
Proof.
  intros Hw Hk. apply qty_inv_insert; [exact Hw|]. simpl.
  exact (qty_inv_lookup _ _ _ Hw Hk).
Qed.

Lemma createLocalItemFromEbay_qty ebayItem t :
  listing_safe ebayItem ->
  safe_qty (currentQty (createLocalItemFromEbay num_zero parseFloat ebayItem t)).
Proof. intros Hok. exact Hok. Qed.

(** A sale deduction leaves a quantity in range. *)
Lemma sale_safe q sold : safe_qty q -> 0 < sold -> safe_qty (Z.max 0 (q - sold)).
Proof. unfold safe_qty. lia. Qed.

(** The tools of this section, at the invariant [qty_inv d]. *)
Lemma await_qty : triple (@qty_inv num d) await (fun _ => qty_inv d) (qty_inv d).
Proof. apply triple_await. intros w Hw. split; exact Hw. Qed.

Local Abbreviation I := (@qty_inv num d).
Local Abbreviation keep := (fun _ : unit => @qty_inv num d).
Local Abbreviation keep_ok :=
  (fun (st : @Updates num * list string) w => updates_ok st.1 /\ @qty_inv num d w).

Ltac keep_results := apply (push_results_stable _ qty_inv_stable).

Lemma updateItem_qty k u :
  updates_ok u -> triple I (updateItem k u) keep I.
Proof.
  intros Hu. apply (updateItem_stable _ _ await_qty).
  intros w item t Hw Hk. exact (qty_inv_assign _ _ _ _ _ Hw Hk Hu).
Qed.

Lemma addHistory_qty k entry : triple I (addHistory k entry) keep I.
Proof.
  apply (addHistory_stable _ _ await_qty).
  intros w item Hw Hk. exact (qty_inv_push_history _ _ _ _ Hw Hk).
Qed.

Lemma createItem_qty item :
  safe_qty (currentQty item) -> triple I (createItem item) keep I.
Proof.
  intros Hitem. apply (createItem_stable _ _ await_qty).
  intros w Hw. exact (qty_inv_insert _ _ _ Hw Hitem).
Qed.

Lemma pull_change_qty k ebayItem localItem st change :
  safe_qty (currentQty localItem) ->
  updates_ok st.1 ->
  triple I (pull_change num_zero parseFloat k ebayItem localItem st change)
    keep_ok I.
Proof.
  destruct st as [u cf]. simpl. intros Hlocal Hu. unfold pull_change.
  assert (Hret : forall cf', triple I (ret (u, cf')) keep_ok I).
  { intros cf'. apply triple_ret. auto. }
  assert (Hprice : forall p cf', triple I (ret (upd_price p u, cf')) keep_ok I).
  { intros p cf'. apply triple_ret. auto. }
  assert (Hdesc : forall t cf',
            triple I (ret (upd_description t u, cf')) keep_ok I).
  { intros t cf'. apply triple_ret. auto. }
  destruct change as [|old new|old new|old new].
  - apply triple_ret. auto.
  - destruct (negb _).
    + case_bool_decide as Hlt; [|apply Hret].
      next (fun (_ : Z) => I); [apply triple_gets; auto|]. intros now.
      next keep; [apply addHistory_qty|]. intros ?.
      apply triple_ret. intros w Hw. split; [|exact Hw].
      intros q [= <-]. apply sale_safe; [exact Hlocal | lia].
    + destruct (negb _); apply Hret.
  - destruct (negb _); [apply Hprice|]. destruct (negb _); [apply Hprice | apply Hret].
  - destruct (negb _); [apply Hdesc|]. destruct (negb _); [apply Hdesc | apply Hret].
Qed.

Lemma pull_body_qty ebayItem :
  listing_safe ebayItem ->
  triple I (pull_body num_zero parseFloat ebayItem) keep I.
Proof.
  intros Hok. unfold pull_body.
  next (fun (r : option Item) w => I w /\ r = items w !! key_of ebayItem).
  { apply (getItem_stable _ _ await_qty). }
  intros [localItem|].
  - eapply triple_conseq with
      (P' := fun w => safe_qty (currentQty localItem) /\ I w)
      (Q' := keep) (E' := I);
      [| intros w [Hw Hk]; split; [|exact Hw] | auto | auto].
    2: { symmetry in Hk. exact (qty_inv_lookup _ _ _ Hw Hk). }
    apply triple_pure. intros Hlocal.
    case_bool_decide; [keep_results|].
    next keep_ok.
    { eapply triple_conseq with (P' := keep_ok (no_updates, []));
        [| intros w Hw; split; [intros q [=] | exact Hw]
         | intros a w Hw; exact Hw | intros w Hw; exact Hw].
      apply (triple_for_fold keep_ok).
      intros st c _. apply triple_pure. intros Hst.
      apply pull_change_qty; [exact Hlocal | exact Hst]. }
    intros [updates changedFields]. apply triple_pure. simpl. intros Hu.
    destruct (has_keys updates); [|keep_results].
    next (fun (_ : Z) => I); [apply triple_gets; auto|]. intros now.
    next keep; [|intros ?; keep_results].
    apply updateItem_qty. exact Hu.
  - eapply triple_conseq with (P' := I) (Q' := keep) (E' := I);
      [| intros w [Hw _]; exact Hw | auto | auto].
    next (fun (_ : Z) => I); [apply triple_gets; auto|]. intros now.
    next keep; [|intros ?; keep_results].
    apply createItem_qty, createLocalItemFromEbay_qty, Hok.
Qed.

Lemma pull_item_qty ebayItem :
  listing_safe ebayItem ->
  triple I (pull_item num_zero parseFloat ebayItem) keep I.
Proof.
  intros Hok. unfold pull_item.
  apply triple_try_catch with (E' := I); [apply pull_body_qty, Hok|].
  intros msg. keep_results.
Qed.

Lemma pullFromEbay_qty :
  triple I (pullFromEbay num_zero parseFloat) (fun _ => I) I.
Proof.
  unfold pullFromEbay.
  next keep; [keep_results|]. intros ?.
  next (fun (ebayData : EbayData) w => I w /\ ebayData = remote w).
  { apply (getActiveListings_stable _ _ await_qty). }
  intros ebayData.
  eapply triple_conseq with
    (P' := fun w => ebayData = d /\ I w) (Q' := fun _ => I) (E' := I);
    [| intros w [Hw Heq]; split; [rewrite Heq; exact (proj2 Hw) | exact Hw]
     | auto | auto].
  apply triple_pure. intros ->.
  assert (Hloop : triple I
            (bind (for_each (d_items d) (pull_item num_zero parseFloat))
                  (fun _ => gets results))
            (fun _ => I) I).
  { next keep; [|intros ?; apply triple_gets; auto].
    apply triple_for_each. intros x Hx. apply pull_item_qty.
    rewrite Forall_forall in d_ok. apply d_ok, Hx. }
  destruct (d_error d) as [e|]; [|exact Hloop].
  case_decide; [exact Hloop | apply triple_throw; auto].
Qed.

Lemma sync_tracking_ok fullItem t : updates_ok (sync_tracking num_zero fullItem t).
Proof. intros q [=]. Qed.

Lemma index_listings_Forall (P : EbayItem -> Prop) l :
  Forall P l -> map_Forall (fun _ e => P e) (index_listings l).
Proof.
  unfold index_listings.
  assert (Hgen : forall m : gmap string EbayItem,
            map_Forall (fun _ e => P e) m -> Forall P l ->
            map_Forall (fun _ e => P e)
              (foldl (fun m e => <[key_of e := e]> m) m l)).
  { induction l as [|x l IH]; intros m Hm Hl; [exact Hm|].
    inversion Hl; subst. simpl. apply IH; [|assumption].
    apply map_Forall_insert_2; assumption. }
  intros Hl. apply Hgen; [apply map_Forall_empty | exact Hl].
Qed.

Lemma fetch_inventory_qty :
  triple I fetch_inventory
    (fun inv w => map_Forall (fun _ e => listing_safe e) inv /\ I w) I.
Proof.
  unfold fetch_inventory.
  apply triple_try_catch with (E' := I).
  - next (fun (ebayData : EbayData) w => I w /\ ebayData = remote w).
    { apply (getActiveListings_stable _ _ await_qty). }
    intros ebayData. apply triple_ret. intros w [Hw ->]. split; [|exact Hw].
    apply index_listings_Forall. rewrite (proj2 Hw). exact d_ok.
  - intros msg. apply triple_ret. intros w Hw. split; [|exact Hw].
    apply map_Forall_empty.
Qed.

Lemma push_body_qty ebayInventory item :
  triple I (push_body num_zero parseFloat ebayInventory item) keep I.
Proof.
  unfold push_body.
  next (fun (r : option Item) w => I w /\ r = items w !! prop_key (f_sku item)).
  { apply (getItem_stable _ _ await_qty). }
  intros [fullItem|];
    (eapply triple_conseq with (P' := I) (Q' := keep) (E' := I);
      [| intros w [Hw _]; exact Hw | auto | auto]);
    [|apply triple_ret; auto].
  assert (Hsend : triple I
            (bind (syncItemToEbay
                     (warehouse_item num_zero fullItem (currentQty fullItem)))
               (fun _ => bind newDate (fun now =>
                  bind (updateItem (prop_key (f_sku item))
                          (sync_tracking num_zero fullItem now))
                    (fun _ => push_created (f_sku item, description fullItem)))))
            keep I
          /\ triple I
            (bind (syncItemToEbay
                     (warehouse_item num_zero fullItem (currentQty fullItem)))
               (fun _ => bind newDate (fun now =>
                  bind (updateItem (prop_key (f_sku item))
                          (sync_tracking num_zero fullItem now))
                    (fun _ => push_pushed (f_sku item, description fullItem)))))
            keep I).
  { split;
      (next keep; [apply (syncItemToEbay_stable _ qty_inv_stable _ await_qty)|]; intros ?;
       next (fun (_ : Z) => I); [apply triple_gets; auto|]; intros now;
       next keep; [apply updateItem_qty, sync_tracking_ok | intros ?; keep_results]). }
  destruct Hsend as [Hcreate Hpush].
  destruct (ebayInventory !! _) as [ebayItem|]; [|exact Hcreate].
  destruct (_ && _); [keep_results | exact Hpush].
Qed.

Lemma push_item_qty ebayInventory item :
  triple I (push_item num_zero parseFloat ebayInventory item) keep I.
Proof.
  unfold push_item.
  apply triple_try_catch with (E' := I); [apply push_body_qty|].
  intros msg. keep_results.
Qed.

Lemma pushToEbay_qty :
  triple I (pushToEbay num_zero parseFloat) (fun _ => I) I.
Proof.
  unfold pushToEbay.
  next keep; [keep_results|]. intros ?.
  next (fun (l : list FormattedItem) w =>
          I w /\ l = formatItem num_zero <$> (map_to_list (items w)).*2).
  { apply (getAllItems_stable _ _ await_qty). }
  intros localItems.
  eapply triple_conseq with (P' := I) (Q' := fun _ => I) (E' := I);
    [| intros w [Hw _]; exact Hw | auto | auto].
  next (fun (inv : gmap string EbayItem) w =>
          map_Forall (fun _ e => listing_safe e) inv /\ I w).
  { apply fetch_inventory_qty. }
  intros ebayInventory. apply triple_pure. intros _.
  next keep; [|intros ?; apply triple_gets; auto].
  apply triple_for_each. intros x _. apply push_item_qty.
Qed.

Lemma sync_pair_qty k ebayItem :
  triple I (sync_pair num_zero k ebayItem) keep I.
Proof.
  unfold sync_pair.
  next (fun (r : option Item) w => I w /\ r = items w !! k).
  { apply (getItem_stable _ _ await_qty). }
  intros [fullItem|]; [|apply triple_ret; intros w [Hw _]; exact Hw].
  eapply triple_conseq with
    (P' := fun w => safe_qty (currentQty fullItem) /\ I w)
    (Q' := keep) (E' := I);
    [| intros w [Hw Hk]; split; [|exact Hw] | auto | auto].
  2: { symmetry in Hk. exact (qty_inv_lookup _ _ _ Hw Hk). }
  apply triple_pure. intros Hqty.
  next (fun (p : Z * Z) w => safe_qty p.1 /\ I w).
  { case_bool_decide as Hlt.
    - next (fun (_ : Z) => I); [apply triple_gets; auto|]. intros now.
      next keep; [apply addHistory_qty|]. intros ?.
      next keep; [keep_results|]. intros ?.
      apply triple_ret. intros w Hw. split; [|exact Hw].
      apply sale_safe; [exact Hqty | lia].
    - apply triple_ret. intros w Hw. split; [exact Hqty | exact Hw]. }
  intros [finalQty salesDetected]. apply triple_pure. simpl. intros Hfinal.
  next keep; [apply (syncItemToEbay_stable _ qty_inv_stable _ await_qty)|]. intros ?.
  next (fun (_ : Z) => I); [apply triple_gets; auto|]. intros now.
  next keep; [|intros ?; keep_results].
  apply updateItem_qty. intros q [= <-]. exact Hfinal.
Qed.

Lemma export_body_qty item :
  triple I (export_body num_zero item) keep I.
Proof.
  unfold export_body.
  next (fun (r : option Item) w => I w /\ r = items w !! prop_key (f_sku item)).
  { apply (getItem_stable _ _ await_qty). }
  intros [fullItem|];
    (eapply triple_conseq with (P' := I) (Q' := keep) (E' := I);
      [| intros w [Hw _]; exact Hw | auto | auto]);
    [|apply triple_ret; auto].
  next keep; [apply (syncItemToEbay_stable _ qty_inv_stable _ await_qty)|]. intros ?.
  next (fun (_ : Z) => I); [apply triple_gets; auto|]. intros now.
  next keep; [apply updateItem_qty, sync_tracking_ok | intros ?; keep_results].
Qed.

Lemma smartSyncAll_qty :
  triple I (smartSyncAll num_zero parseFloat) (fun _ => I) I.
Proof.
  unfold smartSyncAll.
  next keep; [keep_results|]. intros ?.
  next (fun (inv : gmap string EbayItem) w =>
          map_Forall (fun _ e => listing_safe e) inv /\ I w).
  { apply fetch_inventory_qty. }
  intros ebayInventory. apply triple_pure. intros Hinv.
  next (fun (l : list FormattedItem) w =>
          I w /\ l = formatItem num_zero <$> (map_to_list (items w)).*2).
  { apply (getAllItems_stable _ _ await_qty). }
  intros localItems.
  eapply triple_conseq with (P' := I) (Q' := fun _ => I) (E' := I);
    [| intros w [Hw _]; exact Hw | auto | auto].
  next (fun (_ : gset string) => I).
  { apply (triple_for_fold (fun (_ : gset string) => I)).
    intros processedSkus [k ebayItem] _. unfold sync_both.
    destruct (_ !! k); [|apply triple_ret; auto].
    next keep; [|intros ?; apply triple_ret; auto].
    apply triple_try_catch with (E' := I); [apply sync_pair_qty|].
    intros msg. keep_results. }
  intros processedSkus.
  next keep.
  { apply triple_for_each. intros [k ebayItem] Hin. unfold sync_import.
    case_bool_decide; [apply triple_ret; auto|].
    apply triple_try_catch with (E' := I); [|intros msg; keep_results].
    next (fun (_ : Z) => I); [apply triple_gets; auto|]. intros now.
    next keep; [|intros ?; keep_results].
    apply createItem_qty, createLocalItemFromEbay_qty.
    apply elem_of_map_to_list in Hin. exact (Hinv k ebayItem Hin). }
  intros ?. next keep; [|intros ?; apply triple_gets; auto].
  apply triple_for_each. intros item _. unfold sync_export.
  destruct (match f_sku item with Some _ => _ | None => _ end);
    [apply triple_ret; auto|].
  case_bool_decide; [apply triple_ret; auto|].
  apply triple_try_catch with (E' := I); [apply export_body_qty|].
  intros msg. keep_results.
Qed.

End Quantities.

(** ** The history ledger only grows *)

Section Grows.

Variable w0 : World.

Local Abbreviation G := (@ledger_grows num w0).
Local Abbreviation keepG := (fun _ : unit => @ledger_grows num w0).

Lemma grows_stable : stable G.
Proof.
  intros w Hw. split; [exact Hw|]. split; [intros f; exact Hw|].
  split; [intros f; exact Hw | intros t; exact Hw].
Qed.

Lemma await_grows : triple G await keepG G.
Proof. apply triple_await. intros w Hw. split; exact Hw. Qed.

Lemma grows_insert k (item item' : Item) w :
  G w -> items w !! k = Some item ->
  history item `prefix_of` history item' ->
  G (set_items (insert k item') w).
Proof.
  intros Hw Hk Hpre k0 item0 Hk0. simpl.
  destruct (Hw k0 item0 Hk0) as (item1 & Hk1 & Hpre1).
  destruct (decide (k = k0)) as [->|Hne].
  - exists item'. rewrite lookup_insert_eq. split; [reflexivity|].
    rewrite Hk in Hk1. injection Hk1 as <-. by etrans.
  - exists item1. rewrite lookup_insert_ne by exact Hne. auto.
Qed.

Lemma grows_fresh k (item' : Item) w :
  G w -> items w !! k = None -> G (set_items (insert k item') w).
Proof.
  intros Hw Hk k0 item0 Hk0. simpl.
  destruct (Hw k0 item0 Hk0) as (item1 & Hk1 & Hpre1).
  exists item1. rewrite lookup_insert_ne by congruence. auto.
Qed.

Ltac grows_results := apply (push_results_stable _ grows_stable).

Lemma updateItem_grows k u : triple G (updateItem k u) keepG G.
Proof.
  apply (updateItem_stable _ _ await_grows). intros w item t Hw Hk.
  apply (grows_insert _ _ _ _ Hw Hk). reflexivity.
Qed.

Lemma addHistory_grows k entry : triple G (addHistory k entry) keepG G.
Proof.
  apply (addHistory_stable _ _ await_grows). intros w item Hw Hk.
  apply (grows_insert _ _ _ _ Hw Hk). simpl. by apply prefix_app_r.
Qed.

Lemma syncItemToEbay_grows wi : triple G (syncItemToEbay wi) keepG G.
Proof. apply (syncItemToEbay_stable _ grows_stable _ await_grows). Qed.

Lemma newDate_grows : triple G newDate (fun _ : Z => G) G.
Proof. apply triple_gets. auto. Qed.

(** A record is created under a key that is not taken. *)
Lemma createItem_grows (itemData : Item) :
  triple (fun w => G w /\ items w !! sku itemData = None)
    (createItem itemData) keepG G.
Proof.
  intros w [Hw Hk]. unfold createItem, bind.
  destruct (await_cases w) as [-> | [msg ->]]; [|exact Hw].
  simpl. apply grows_fresh; assumption.
Qed.

Lemma pull_change_grows k ebayItem localItem st change :
  triple G (pull_change num_zero parseFloat k ebayItem localItem st change)
    (fun _ => G) G.
Proof.
  destruct st as [u cf]. unfold pull_change.
  assert (Hret : forall st' : @Updates num * list string,
            triple G (ret st') (fun _ => G) G).
  { intros st'. apply triple_ret. auto. }
  destruct change as [|old new|old new|old new].
  - apply Hret.
  - destruct (negb _).
    + case_bool_decide; [|apply Hret].
      next (fun _ : Z => G); [apply newDate_grows|]. intros now.
      next keepG; [apply addHistory_grows | intros ?; apply Hret].
    + destruct (negb _); apply Hret.
  - destruct (negb _); [apply Hret|]. destruct (negb _); apply Hret.
  - destruct (negb _); [apply Hret|]. destruct (negb _); apply Hret.
Qed.

Lemma pull_body_grows ebayItem :
  triple G (pull_body num_zero parseFloat ebayItem) keepG G.
Proof.
  unfold pull_body. fold (key_of ebayItem).
  next (fun (r : option (@Item num)) w => G w /\ r = items w !! key_of ebayItem).
  { apply (getItem_stable _ _ await_grows). }
  intros [localItem|].
  - eapply triple_conseq with (P' := G) (Q' := keepG) (E' := G);
      [| intros w [Hw _]; exact Hw | auto | auto].
    case_bool_decide; [grows_results|].
    next (fun (_ : @Updates num * list string) => G).
    { apply (triple_for_fold (fun (_ : @Updates num * list string) => G)).
      intros st c _. apply pull_change_grows. }
    intros [updates changedFields].
    destruct (has_keys updates); [|grows_results].
    next (fun _ : Z => G); [apply newDate_grows|]. intros now.
    next keepG; [apply updateItem_grows | intros ?; grows_results].
  - next (fun (_ : Z) w => G w /\ items w !! key_of ebayItem = None).
    { apply triple_gets. intros w [Hw Hk]. auto. }
    intros now. next keepG; [|intros ?; grows_results].
    apply (createItem_grows (createLocalItemFromEbay num_zero parseFloat ebayItem now)).
Qed.

Lemma pullFromEbay_grows :
  triple G (pullFromEbay num_zero parseFloat) (fun _ => G) G.
Proof.
  unfold pullFromEbay.
  next keepG; [grows_results|]. intros ?.
  next (fun (_ : EbayData) => G).
  { eapply triple_conseq;
      [apply (getActiveListings_stable _ _ await_grows) | auto | | auto].
    intros ? ? [Hw _]. exact Hw. }
  intros ebayData.
  assert (Hloop : triple G
            (bind (for_each (d_items ebayData) (pull_item num_zero parseFloat))
                  (fun _ => gets results))
            (fun _ => G) G).
  { next keepG; [|intros ?; apply triple_gets; auto].
    apply triple_for_each. intros x _. unfold pull_item.
    apply triple_try_catch with (E' := G); [apply pull_body_grows|].
    intros msg. grows_results. }
  destruct (d_error ebayData) as [e|]; [|exact Hloop].
  case_decide; [exact Hloop | apply triple_throw; auto].
Qed.

Lemma export_steps_grows k fullItem (finish : M unit) :
  triple G finish keepG G ->
  triple G
    (bind (syncItemToEbay (warehouse_item num_zero fullItem (currentQty fullItem)))
       (fun _ => bind newDate (fun now =>
          bind (updateItem k (sync_tracking num_zero fullItem now))
            (fun _ => finish))))
    keepG G.
Proof.
  intros Hfinish.
  next keepG; [apply syncItemToEbay_grows|]. intros ?.
  next (fun _ : Z => G); [apply newDate_grows|]. intros now.
  next keepG; [apply updateItem_grows | intros ?; exact Hfinish].
Qed.

Lemma push_body_grows ebayInventory (item : FormattedItem) :
  triple G (push_body num_zero parseFloat ebayInventory item) keepG G.
Proof.
  unfold push_body.
  next (fun (_ : option (@Item num)) => G).
  { eapply triple_conseq;
      [apply (getItem_stable _ _ await_grows) | auto | | auto].
    intros ? ? [Hw _]. exact Hw. }
  intros [fullItem|]; [|apply triple_ret; auto].
  destruct (ebayInventory !! _) as [ebayItem|].
  - destruct (_ && _); [grows_results|].
    apply export_steps_grows. grows_results.
  - apply export_steps_grows. grows_results.
Qed.

Lemma pushToEbay_grows :
  triple G (pushToEbay num_zero parseFloat) (fun _ => G) G.
Proof.
  unfold pushToEbay.
  next keepG; [grows_results|]. intros ?.
  next (fun (_ : list (@FormattedItem num)) => G).
  { eapply triple_conseq;
      [apply (getAllItems_stable _ _ await_grows) | auto | | auto].
    intros ? ? [Hw _]. exact Hw. }
  intros localItems.
  next (fun (_ : gmap string EbayItem) => G).
  { unfold fetch_inventory. apply triple_try_catch with (E' := G).
    - next (fun (_ : EbayData) => G); [|intros ?; apply triple_ret; auto].
      eapply triple_conseq;
        [apply (getActiveListings_stable _ _ await_grows) | auto | | auto].
      intros ? ? [Hw _]. exact Hw.
    - intros msg. apply triple_ret. auto. }
  intros ebayInventory.
  next keepG; [|intros ?; apply triple_gets; auto].
  apply triple_for_each. intros x _. unfold push_item.
  apply triple_try_catch with (E' := G); [apply push_body_grows|].
  intros msg. grows_results.
Qed.

Lemma sync_pair_grows k ebayItem :
  triple G (sync_pair num_zero k ebayItem) keepG G.
Proof.
  unfold sync_pair.
  next (fun (_ : option (@Item num)) => G).
  { eapply triple_conseq;
      [apply (getItem_stable _ _ await_grows) | auto | | auto].
    intros ? ? [Hw _]. exact Hw. }
  intros [fullItem|]; [|apply triple_ret; auto].
  next (fun (_ : Z * Z) => G).
  { case_bool_decide; [|apply triple_ret; auto].
    next (fun _ : Z => G); [apply newDate_grows|]. intros now.
    next keepG; [apply addHistory_grows|]. intros ?.
    next keepG; [grows_results | intros ?; apply triple_ret; auto]. }
  intros [finalQty salesDetected].
  next keepG; [apply syncItemToEbay_grows|]. intros ?.
  next (fun _ : Z => G); [apply newDate_grows|]. intros now.
  next keepG; [apply updateItem_grows | intros ?; grows_results].
Qed.

Lemma export_body_grows (item : FormattedItem) :
  triple G (export_body num_zero item) keepG G.
Proof.
  unfold export_body.
  next (fun (_ : option (@Item num)) => G).
  { eapply triple_conseq;
      [apply (getItem_stable _ _ await_grows) | auto | | auto].
    intros ? ? [Hw _]. exact Hw. }
  intros [fullItem|]; [|apply triple_ret; auto].
  apply export_steps_grows. grows_results.
Qed.

End Grows.

Lemma grows_refl w : ledger_grows w w.
Proof. intros k item Hk. exists item. auto. Qed.

(** What a triple at [ledger_grows w] says of a run from [w]. *)
Lemma grows_run {A} (m : M A) w :
  triple (ledger_grows w) m (fun _ => ledger_grows w) (ledger_grows w) ->
  ledger_grows w (m w).1.
Proof.
  intros Hm. specialize (Hm w (grows_refl w)).
  destruct (m w) as [w' [a|e]]; exact Hm.
Qed.

(** ** The last entry of the ledger tells the quantity *)

Section Ledger.

Local Abbreviation any := (fun _ : World => True).
Local Abbreviation L := (@ledger_ok num).
Local Abbreviation keepL := (fun _ : unit => @ledger_ok num).

Lemma ledger_stable : stable L.
Proof.
  intros w Hw. split; [exact Hw|]. split; [intros f; exact Hw|].
  split; [intros f; exact Hw | intros t; exact Hw].
Qed.

Lemma pending_stable k u : stable (@pending_ok num k u).
Proof.
  intros w Hw. split; [exact Hw|]. split; [intros f; exact Hw|].
  split; [intros f; exact Hw | intros t; exact Hw].
Qed.

Lemma await_any (I : World -> Prop) :
  stable I -> triple I await (fun _ => I) any.
Proof.
  intros HI. apply triple_await. intros w Hw. split; [apply HI, Hw | exact Logic.I].
Qed.

Lemma await_ledger : triple L await keepL L.
Proof. apply triple_await. intros w Hw. split; exact Hw. Qed.

Lemma ledger_pending k u w :
  u_currentQty u = None -> ledger_ok w -> @pending_ok num k u w.
Proof.
  intros Hu Hw k0 item Hk0. specialize (Hw k0 item Hk0). simpl in Hw.
  rewrite Hu. simpl. destruct (last (history item)); [|exact Logic.I].
  case_decide; exact Hw.
Qed.

Lemma pending_ledger k u w :
  u_currentQty u = None -> @pending_ok num k u w -> ledger_ok w.
Proof.
  intros Hu Hw k0 item Hk0. specialize (Hw k0 item Hk0). simpl.
  rewrite Hu in Hw. simpl in Hw. destruct (last (history item)); [|exact Logic.I].
  case_decide; exact Hw.
Qed.

Lemma pending_same k u u' w :
  u_currentQty u' = u_currentQty u -> @pending_ok num k u w -> @pending_ok num k u' w.
Proof. intros Hu Hw k0 item Hk0. rewrite Hu. exact (Hw k0 item Hk0). Qed.

Lemma pending_append k u q entry (item : Item) w :
  @pending_ok num k u w -> items w !! k = Some item -> h_newTotal entry = q ->
  @pending_ok num k (upd_currentQty q u)
    (set_items (insert k (push_history entry item)) w).
Proof.
  intros Hw Hk Hq k0 item0. simpl.
  destruct (decide (k = k0)) as [<-|Hne].
  - rewrite lookup_insert_eq. intros [= <-]. simpl.
    rewrite last_snoc, decide_True by reflexivity. exact Hq.
  - rewrite lookup_insert_ne by exact Hne. intros Hk0.
    specialize (Hw k0 item0 Hk0). destruct (last (history item0)); [|exact Logic.I].
    rewrite decide_False in * by congruence. exact Hw.
Qed.

Lemma pending_absent k u q w :
  @pending_ok num k u w -> items w !! k = None ->
  @pending_ok num k (upd_currentQty q u) w.
Proof.
  intros Hw Hk k0 item0 Hk0. specialize (Hw k0 item0 Hk0).
  destruct (last (history item0)); [|exact Logic.I].
  rewrite decide_False in * by congruence. exact Hw.
Qed.

Lemma pending_assign k u u' t (item : Item) w :
  @pending_ok num k u w -> items w !! k = Some item ->
  u_currentQty u' = u_currentQty u ->
  ledger_ok (set_items (insert k (assign item u' t)) w).
Proof.
  intros Hw Hk Hu k0 item0. simpl.
  destruct (decide (k = k0)) as [<-|Hne].
  - rewrite lookup_insert_eq. intros [= <-]. simpl.
    specialize (Hw k item Hk). destruct (last (history item)); [|exact Logic.I].
    rewrite decide_True in Hw by reflexivity. rewrite Hu. exact Hw.
  - rewrite lookup_insert_ne by exact Hne. intros Hk0.
    specialize (Hw k0 item0 Hk0). destruct (last (history item0)); [|exact Logic.I].
    rewrite decide_False in Hw by congruence. exact Hw.
Qed.

Lemma ledger_insert k (item' : Item) w :
  ledger_ok w ->
  match last (history item') with
  | Some entry => h_newTotal entry = currentQty item'
  | None => True
  end ->
  ledger_ok (set_items (insert k item') w).
Proof.
  intros Hw Hitem. unfold ledger_ok. simpl.
  apply map_Forall_insert_2; assumption.
Qed.

Lemma addHistory_pending k u q entry :
  h_newTotal entry = q ->
  triple (@pending_ok num k u) (addHistory k entry)
    (fun _ => @pending_ok num k (upd_currentQty q u)) any.
Proof.
  intros Hq w Hw. unfold addHistory, bind.
  destruct (await_cases w) as [-> | [msg ->]]; [|exact Logic.I].
  simpl. destruct (items w !! k) as [item|] eqn:Hk.
  - exact (pending_append _ _ _ _ _ _ Hw Hk Hq).
  - exact (pending_absent _ _ _ _ Hw Hk).
Qed.

Lemma updateItem_pending k u u' :
  u_currentQty u' = u_currentQty u ->
  triple (@pending_ok num k u) (updateItem k u') keepL any.
Proof.
  intros Hu w Hw. unfold updateItem, bind.
  destruct (await_cases w) as [-> | [msg ->]]; [|exact Logic.I].
  simpl. destruct (items w !! k) as [item|] eqn:Hk.
  - exact (pending_assign _ _ _ _ _ _ Hw Hk Hu).
  - intros k0 item0 Hk0. simpl in Hk0. specialize (Hw k0 item0 Hk0). simpl.
    destruct (last (history item0)); [|exact Logic.I].
    rewrite decide_False in Hw by congruence. exact Hw.
Qed.

Lemma pull_change_pending k ebayItem localItem st change :
  triple (@pending_ok num k st.1)
    (pull_change num_zero parseFloat k ebayItem localItem st change)
    (fun st' w => @pending_ok num k st'.1 w) any.
Proof.
  destruct st as [u cf]. simpl. unfold pull_change.
  assert (Hret : forall (u' : @Updates num) (cf' : list string),
            u_currentQty u' = u_currentQty u ->
            triple (@pending_ok num k u) (ret (u', cf'))
              (fun st' w => @pending_ok num k st'.1 w) any).
  { intros u' cf' Hu. apply triple_ret. intros w Hw.
    exact (pending_same _ _ _ _ Hu Hw). }
  destruct change as [|old new|old new|old new].
  - apply Hret. reflexivity.
  - destruct (negb _).
    + case_bool_decide; [|apply Hret; reflexivity].
      next (fun _ : Z => @pending_ok num k u); [apply triple_gets; auto|]. intros now.
      next (fun _ : unit =>
              @pending_ok num k
                (upd_currentQty
                   (Z.max 0 (currentQty localItem
                             - (nullish (snap_quantity <$> snapshot_of localItem)
                                  (nullish (lastSyncedQty localItem)
                                     (currentQty localItem)) - new)))
                   u)).
      { apply addHistory_pending. reflexivity. }
      intros ?. apply triple_ret. auto.
    + destruct (negb _); apply Hret; reflexivity.
  - destruct (negb _); [apply Hret; reflexivity|].
    destruct (negb _); apply Hret; reflexivity.
  - destruct (negb _); [apply Hret; reflexivity|].
    destruct (negb _); apply Hret; reflexivity.
Qed.

Lemma has_no_keys (u : @Updates num) :
  has_keys u = false -> u_currentQty u = None.
Proof. unfold has_keys. destruct (u_currentQty u); [discriminate | reflexivity]. Qed.

Lemma pull_body_ledger ebayItem :
  triple L (pull_body num_zero parseFloat ebayItem) keepL any.
Proof.
  unfold pull_body. fold (key_of ebayItem).
  next (fun (_ : option (@Item num)) => L).
  { eapply triple_conseq;
      [apply (getItem_stable _ _ (await_any _ ledger_stable)) | auto | | auto].
    intros ? ? [Hw _]. exact Hw. }
  intros [localItem|].
  - case_bool_decide; [apply (push_results_stable _ ledger_stable)|].
    next (fun (st : @Updates num * list string) w =>
            @pending_ok num (key_of ebayItem) st.1 w).
    { eapply triple_conseq with
        (P' := @pending_ok num (key_of ebayItem) (no_updates, @nil string).1);
        [| intros w Hw; apply ledger_pending; [reflexivity | exact Hw]
         | intros a w Hw; exact Hw | auto].
      apply (triple_for_fold
               (fun (st : @Updates num * list string) w =>
                  @pending_ok num (key_of ebayItem) st.1 w)).
      intros st c _. apply pull_change_pending. }
    intros [updates changedFields]. simpl.
    destruct (has_keys updates) eqn:Hkeys.
    + next (fun _ : Z => @pending_ok num (key_of ebayItem) updates);
        [apply triple_gets; auto|]. intros now.
      next keepL; [|intros ?; apply (push_results_stable _ ledger_stable)].
      apply updateItem_pending. reflexivity.
    + eapply triple_conseq with (P' := L) (Q' := keepL) (E' := any);
        [apply (push_results_stable _ ledger_stable) | | auto | auto].
      intros w Hw. exact (pending_ledger _ _ _ (has_no_keys _ Hkeys) Hw).
  - next (fun _ : Z => L); [apply triple_gets; auto|]. intros now.
    next keepL; [|intros ?; apply (push_results_stable _ ledger_stable)].
    apply (createItem_stable _ _ (await_any _ ledger_stable)).
    intros w Hw. apply ledger_insert; [exact Hw | reflexivity].
Qed.

Lemma sync_pair_ledger k ebayItem :
  triple L (sync_pair num_zero k ebayItem) keepL any.
Proof.
  unfold sync_pair.
  next (fun (r : option (@Item num)) w => L w /\ r = items w !! k).
  { apply (getItem_stable _ _ (await_any _ ledger_stable)). }
  intros [fullItem|]; [|apply triple_ret; intros w [Hw _]; exact Hw].
  next (fun (p : Z * Z) w => @pending_ok num k (upd_currentQty p.1 no_updates) w).
  { case_bool_decide.
    - eapply triple_conseq with (P' := @pending_ok num k no_updates);
        [| intros w [Hw _]; apply ledger_pending; [reflexivity | exact Hw]
         | intros a w Hw; exact Hw | auto].
      next (fun _ : Z => @pending_ok num k no_updates); [apply triple_gets; auto|].
      intros now.
      next (fun _ : unit =>
              @pending_ok num k
                (upd_currentQty
                   (Z.max 0 (currentQty fullItem
                             - (snapshotQty fullItem
                                - num_or (parseInt (e_quantity ebayItem)) 0)))
                   no_updates)).
      { apply addHistory_pending. reflexivity. }
      intros ?.
      next (fun _ : unit =>
              @pending_ok num k
                (upd_currentQty
                   (Z.max 0 (currentQty fullItem
                             - (snapshotQty fullItem
                                - num_or (parseInt (e_quantity ebayItem)) 0)))
                   no_updates)).
      { apply (push_results_stable _ (pending_stable _ _)). }
      intros ?. apply triple_ret. auto.
    - apply triple_ret. intros w [Hw Hk] k0 item Hk0. simpl.
      specialize (Hw k0 item Hk0). simpl in Hw.
      destruct (last (history item)); [|exact Logic.I].
      case_decide; [|exact Hw]. subst k0.
      rewrite Hk0 in Hk. injection Hk as ->. exact Hw. }
  intros [finalQty salesDetected]. simpl.
  next (fun _ : unit => @pending_ok num k (upd_currentQty finalQty no_updates)).
  { apply (syncItemToEbay_stable _ (pending_stable _ _) _
             (await_any _ (pending_stable _ _))). }
  intros ?.
  next (fun _ : Z => @pending_ok num k (upd_currentQty finalQty no_updates));
    [apply triple_gets; auto|]. intros now.
  next keepL; [|intros ?; apply (push_results_stable _ ledger_stable)].
  apply updateItem_pending. reflexivity.
Qed.

(** Push and export never touch a quantity or a history. *)
Lemma updateItem_tracking_ledger k fullItem now :
  triple L (updateItem k (sync_tracking num_zero fullItem now)) keepL L.
Proof.
  apply (updateItem_stable _ _ await_ledger). intros w item t Hw Hk.
  apply (pending_assign k no_updates _ _ _ _
           (ledger_pending k no_updates w eq_refl Hw) Hk).
  reflexivity.
Qed.

Lemma export_steps_ledger k fullItem (finish : M unit) :
  triple L finish keepL L ->
  triple L
    (bind (syncItemToEbay (warehouse_item num_zero fullItem (currentQty fullItem)))
       (fun _ => bind newDate (fun now =>
          bind (updateItem k (sync_tracking num_zero fullItem now))
            (fun _ => finish))))
    keepL L.
Proof.
  intros Hfinish.
  next keepL; [apply (syncItemToEbay_stable _ ledger_stable _ await_ledger)|].
  intros ?. next (fun _ : Z => L); [apply triple_gets; auto|]. intros now.
  next keepL; [apply updateItem_tracking_ledger | intros ?; exact Hfinish].
Qed.

Lemma push_body_ledger ebayInventory (item : FormattedItem) :
  triple L (push_body num_zero parseFloat ebayInventory item) keepL L.
Proof.
  unfold push_body.
  next (fun (_ : option (@Item num)) => L).
  { eapply triple_conseq;
      [apply (getItem_stable _ _ await_ledger) | auto | | auto].
    intros ? ? [Hw _]. exact Hw. }
  intros [fullItem|]; [|apply triple_ret; auto].
  destruct (ebayInventory !! _) as [ebayItem|].
  - destruct (_ && _); [apply (push_results_stable _ ledger_stable)|].
    apply export_steps_ledger. apply (push_results_stable _ ledger_stable).
  - apply export_steps_ledger. apply (push_results_stable _ ledger_stable).
Qed.

Lemma pushToEbay_ledger :
  triple L (pushToEbay num_zero parseFloat) (fun _ => L) L.
Proof.
  unfold pushToEbay.
  next keepL; [apply (push_results_stable _ ledger_stable)|]. intros ?.
  next (fun (_ : list (@FormattedItem num)) => L).
  { eapply triple_conseq;
      [apply (getAllItems_stable _ _ await_ledger) | auto | | auto].
    intros ? ? [Hw _]. exact Hw. }
  intros localItems.
  next (fun (_ : gmap string EbayItem) => L).
  { unfold fetch_inventory. apply triple_try_catch with (E' := L).
    - next (fun (_ : EbayData) => L); [|intros ?; apply triple_ret; auto].
      eapply triple_conseq;
        [apply (getActiveListings_stable _ _ await_ledger) | auto | | auto].
      intros ? ? [Hw _]. exact Hw.
    - intros msg. apply triple_ret. auto. }
  intros ebayInventory.
  next keepL; [|intros ?; apply triple_gets; auto].
  apply triple_for_each. intros x _. unfold push_item.
  apply triple_try_catch with (E' := L); [apply push_body_ledger|].
  intros msg. apply (push_results_stable _ ledger_stable).
Qed.

End Ledger.

(** What a triple says of a run that completes. *)
Lemma triple_completed {A} (P : World -> Prop) (m : M A)
    (Q : A -> World -> Prop) E w w' a :
  triple P m Q E -> P w -> m w = (w', Ok a) -> Q a w'.
Proof. intros Hm Hw Hrun. specialize (Hm w Hw). rewrite Hrun in Hm. exact Hm. Qed.

(** ** The claims *)




(** C3 (amended). In pull a remote quantity below the snapshot quantity
    is resolved as a sale only for a record whose quantity still equals
    the snapshot quantity: a completed pass over such a record has
    applied the sale (both quantities being whole numbers from 0 to
    [Number.MAX_SAFE_INTEGER]); when the local quantity changed too, the
    change goes through the timestamp comparison and no sale entry is
    appended, however the pass ends.  What smart sync does with the pair
    is left out. *)
Theorem decrease_is_sale ebayItem localItem w :
  items w !! key_of ebayItem = Some localItem ->
  is_Some (snapshot_of localItem) ->
  remoteQty ebayItem < snapshotQty localItem ->
  let sold := snapshotQty localItem - remoteQty ebayItem in
  let pull := pull_body num_zero parseFloat ebayItem in
  (currentQty localItem = snapshotQty localItem ->
   listing_safe ebayItem ->
   safe_qty (currentQty localItem) ->
   forall w', pull w = (w', Ok tt) ->
     sale_applied (key_of ebayItem) localItem sold w')
  /\ (currentQty localItem <> snapshotQty localItem ->
      history_kept (key_of ebayItem) localItem (pull w).1).
Proof.
  intros Hk [s Hs] Hlt sold pull. unfold sold, pull, snapshotQty in *.
  rewrite Hs in *. simpl in *. split.
  - intros Hq _ _ w' Hrun. exact (pull_body_sale _ _ _ _ _ Hk Hs Hq Hlt Hrun).
  - intros Hne. exact (pull_body_local_changed _ _ _ _ Hk Hs Hne).
Qed.

(** C4 (amended). For a record with no stored snapshot the change
    detector returns the single accept-all descriptor; pull over the
    record completes when nothing rejects, and a completed pull has taken
    the price and the title of the listing (keeping the local one when
    the remote price is zero or unreadable, or the remote title empty),
    left [currentQty] as it was, recorded the remote quantity in the new
    snapshot (0 when it is unreadable) and in [lastSyncedQty] (the local
    quantity when the remote one is zero or unreadable), and appended no
    history entry: no sale is inferred. *)
Theorem bootstrap ebayItem localItem w :
  items w !! key_of ebayItem = Some localItem ->
  snapshot_of localItem = None ->
  detectEbayChanges num_zero parseFloat ebayItem None = [ChAll]
  /\ (calm w ->
      exists w', pull_body num_zero parseFloat ebayItem w = (w', Ok tt))
  /\ (forall w',
      pull_body num_zero parseFloat ebayItem w = (w', Ok tt) ->
      exists item' s,
        items w' !! key_of ebayItem = Some item'
        /\ price item'
           = price_or num_zero (parseFloat (e_price ebayItem)) (price localItem)
        /\ description item'
           = str_or (e_title ebayItem) (description localItem)
        /\ currentQty item' = currentQty localItem
        /\ lastSyncedQty item'
           = Some (num_or (parseInt (e_quantity ebayItem)) (currentQty localItem))
        /\ snapshot_of item' = Some s
        /\ snap_quantity s = remoteQty ebayItem
        /\ history item' = history localItem).
Proof.
  intros Hk Hs. split; [reflexivity|]. split.
  - apply completes, pull_body_calm.
  - intros w' Hrun.
    destruct (pull_body_no_snapshot _ _ _ _ Hk Hs Hrun) as (t & Hitem).
    eexists _, _. split; [exact Hitem|]. simpl. repeat split; reflexivity.
Qed.

(** What the pass of smart sync over a pair does when it is entered and
    returns: [currentQty], [lastSyncedQty] and the quantity of the new
    snapshot are the reconciled quantity, which is what was sent to
    eBay, and the price, title and description of the new snapshot are
    the local record's own. *)
Lemma sync_pair_reconciles k ebayItem fullItem w w' :
  items w !! k = Some fullItem ->
  sync_pair num_zero k ebayItem w = (w', Ok tt) ->
  let sold := snapshotQty fullItem - remoteQty ebayItem in
  let finalQty :=
    if bool_decide (remoteQty ebayItem < snapshotQty fullItem)
    then Z.max 0 (currentQty fullItem - sold) else currentQty fullItem in
  exists item' s,
    items w' !! k = Some item'
    /\ currentQty item' = finalQty
    /\ lastSyncedQty item' = Some finalQty
    /\ snapshot_of item' = Some s
    /\ snap_quantity s = finalQty
    /\ snap_price s = price fullItem
    /\ snap_title s = description fullItem
    /\ snap_description s = description fullItem
    /\ price item' = price fullItem
    /\ description item' = description fullItem.
Proof.
  intros Hk Hrun sold finalQty. unfold sold, finalQty.
  destruct (sync_pair_Ok _ _ _ _ _ Hk Hrun) as (t1 & t2 & t3 & Hpost).
  fold (remoteQty ebayItem) in Hpost.
  destruct (bool_decide _); destruct Hpost as (Hitem & _ & _);
    eexists _, _; (split; [exact Hitem|]);
    do 3 (split; [reflexivity|]);
    unfold captureLocalSnapshot; simpl;
    rewrite price_or_self, num_or_self, str_or_self;
    repeat split; reflexivity.
Qed.

Lemma qty_safe_ok w : qty_safe w -> qty_ok w.
Proof. intros Hw k item Hk. exact (proj1 (Hw k item Hk)). Qed.

(** C6 (amended). Along every sequence of pull, push and smart sync
    calls, whatever fails in them, every stored [currentQty] stays a
    whole number from 0 to [Number.MAX_SAFE_INTEGER], so never negative,
    provided the stored quantities are such numbers to begin with and so
    are the quantities the remote side reports: sale deductions are
    clamped at 0, and an imported record takes the remote quantity as it
    is. *)
Theorem currentQty_never_negative (cs : list Call) w :
  qty_safe w ->
  Forall (fun c => Forall listing_safe (d_items (call_remote c))) cs ->
  qty_safe (run_calls num_zero parseFloat cs w)
  /\ qty_ok (run_calls num_zero parseFloat cs w).
Proof.
  intros Hw Hcs.
  assert (Hsafe : qty_safe (run_calls num_zero parseFloat cs w)).
  2: { split; [exact Hsafe | exact (qty_safe_ok _ Hsafe)]. }
  revert w Hw Hcs. induction cs as [|c cs IH]; intros w Hw Hcs; [exact Hw|].
  inversion Hcs as [|? ? Hc Hcs']; subst.
  unfold run_calls. simpl. apply IH; [|exact Hcs'].
  unfold run_call.
  assert (Hin : qty_inv (call_remote c) (arrive c w)) by (split; [exact Hw | reflexivity]).
  destruct (call_op c); simpl.
  - pose proof (pullFromEbay_qty _ Hc _ Hin) as Hrun.
    destruct (pullFromEbay _ _ _) as [w' [r|e]]; apply Hrun.
  - pose proof (pushToEbay_qty _ Hc _ Hin) as Hrun.
    destruct (pushToEbay _ _ _) as [w' [r|e]]; apply Hrun.
  - pose proof (smartSyncAll_qty _ Hc _ Hin) as Hrun.
    destruct (smartSyncAll _ _ _) as [w' [r|e]]; apply Hrun.
Qed.

(** C8 (amended). The history ledger is append-only across pull, push
    and the passes of smart sync over a paired item and over a local-only
    item, even when an item fails partway: the history of a record only
    grows at its end.  After a pass of pull or of smart sync over an item
    that completes without error, and after any push, the [newTotal] of
    the last history entry of every record equals its [currentQty],
    provided it did before. *)
Theorem ledger_append_only w :
  ledger_grows w (pullFromEbay num_zero parseFloat w).1
  /\ ledger_grows w (pushToEbay num_zero parseFloat w).1
  /\ (forall k ebayItem, ledger_grows w (sync_pair num_zero k ebayItem w).1)
  /\ (forall item : FormattedItem, ledger_grows w (export_body num_zero item w).1)
  /\ (ledger_ok w ->
      (forall ebayItem w',
         pull_body num_zero parseFloat ebayItem w = (w', Ok tt) -> ledger_ok w')
      /\ (forall k ebayItem w',
            sync_pair num_zero k ebayItem w = (w', Ok tt) -> ledger_ok w')
      /\ ledger_ok (pushToEbay num_zero parseFloat w).1).
Proof.
  split; [apply grows_run, pullFromEbay_grows|].
  split; [apply grows_run, pushToEbay_grows|].
  split; [intros k ebayItem; apply grows_run, sync_pair_grows|].
  split; [intros item; apply grows_run, export_body_grows|].
  intros Hw. split; [|split].
  - intros ebayItem w' Hrun.
    exact (triple_completed _ _ _ _ _ _ _ (pull_body_ledger ebayItem) Hw Hrun).
  - intros k ebayItem w' Hrun.
    exact (triple_completed _ _ _ _ _ _ _ (sync_pair_ledger k ebayItem) Hw Hrun).
  - pose proof (pushToEbay_ledger w Hw) as Hrun.
    destruct (pushToEbay _ _ _) as [w' [r|e]]; exact Hrun.
Qed.

End Runs.

(** * The claims on concrete runs *)

Import Example.





(** C3, as worded, fails: pull over a record restocked locally from 10 to
    12 finds 7 left on eBay and appends no sale entry. *)
Lemma decrease_is_no_sale_in_pull :
  ~ @decrease_is_sale_as_stated Z _ 0 parseFloat_digits.
Proof.
  intros Hsale.
  pose (w := world [restocked] [seven_left] []).
  destruct (Hsale seven_left restocked w
              (pull_body 0 parseFloat_digits seven_left w).1)
    as [Hpull _].
  - vm_compute. reflexivity.
  - eexists. reflexivity.
  - vm_compute. reflexivity.
  - destruct Hpull as (item' & e & Hitem & Hhist & _).
    + vm_compute. reflexivity.
    + vm_compute in Hitem. injection Hitem as <-.
      vm_compute in Hhist. discriminate.
Qed.

Lemma decrease_is_sale_witness :
  sale_applied "A" untouched 3
    (pull_body 0 parseFloat_digits seven_left
       (world [untouched] [seven_left] [])).1
  /\ history_kept "A" adjusted
       (pull_body 0 parseFloat_digits seven_left
          (world [adjusted] [seven_left] [])).1.
Proof.
  split.
  - pose (w := world [untouched] [seven_left] []).
    assert (Hk : items w !! key_of seven_left = Some untouched)
      by (vm_compute; reflexivity).
    assert (Hs : is_Some (snapshot_of untouched)) by (eexists; reflexivity).
    assert (Hlt : remoteQty seven_left < snapshotQty untouched)
      by (vm_compute; reflexivity).
    destruct (decrease_is_sale 0 parseFloat_digits seven_left untouched w
                Hk Hs Hlt)
      as [Hsale _].
    apply Hsale;
      [reflexivity | vm_compute; split; discriminate
       | vm_compute; split; discriminate | vm_compute; reflexivity].
  - pose (w := world [adjusted] [seven_left] []).
    assert (Hk : items w !! key_of seven_left = Some adjusted)
      by (vm_compute; reflexivity).
    assert (Hs : is_Some (snapshot_of adjusted)) by (eexists; reflexivity).
    assert (Hlt : remoteQty seven_left < snapshotQty adjusted)
      by (vm_compute; reflexivity).
    destruct (decrease_is_sale 0 parseFloat_digits seven_left adjusted w
                Hk Hs Hlt)
      as [_ Hkept].
    apply Hkept. vm_compute. discriminate.
Defined.

(** C4, as worded, fails: the first pull over a never-synced record
    holding 3 units leaves 3 units, though the listing reports 5. *)
Lemma bootstrap_keeps_local_quantity :
  ~ @bootstrap_as_stated Z _ 0 parseFloat_digits.
Proof.
  intros Hboot.
  pose (w := world [never_synced] [first_listing] []).
  destruct (Hboot first_listing never_synced w
              (pull_body 0 parseFloat_digits first_listing w).1)
    as [_ Hpull].
  - vm_compute. reflexivity.
  - reflexivity.
  - destruct Hpull as (item' & Hitem & Hqty & _).
    + vm_compute. reflexivity.
    + vm_compute in Hitem. injection Hitem as <-.
      vm_compute in Hqty. discriminate.
Qed.

Lemma bootstrap_witness :
  exists item' s,
    items (pull_body 0 parseFloat_digits first_listing
             (world [never_synced] [first_listing] [])).1 !! "A" = Some item'
    /\ price item' = 12
    /\ description item' = "Gadget"
    /\ currentQty item' = 3
    /\ lastSyncedQty item' = Some 5
    /\ snapshot_of item' = Some s
    /\ snap_quantity s = 5
    /\ history item' = history never_synced.
Proof.
  pose (w := world [never_synced] [first_listing] []).
  assert (Hk : items w !! key_of first_listing = Some never_synced)
    by (vm_compute; reflexivity).
  destruct (bootstrap 0 parseFloat_digits first_listing never_synced w
              Hk eq_refl)
    as (_ & _ & Hpull).
  destruct (Hpull (pull_body 0 parseFloat_digits first_listing w).1)
    as (item' & s & H1 & H2 & H3 & H4 & H5 & H6 & H7 & H8).
  - vm_compute. reflexivity.
  - exists item', s. repeat split; assumption.
Defined.

(** C6, as worded, fails: pull imports a listing that reports -3 units
    as a record holding -3 units. *)
Lemma import_of_negative_quantity :
  ~ @qty_never_negative_as_stated Z _ 0 parseFloat_digits.
Proof.
  intros Hnever.
  pose (c := {| call_op := Pull;
                call_remote := {| d_items := [negative_listing];
                                  d_error := None |};
                call_script := [] |}).
  assert (Hok : qty_ok (world [] [] [])) by apply map_Forall_empty.
  pose proof (Hnever [c] (world [] [] []) Hok "A") as HA.
  vm_compute in HA. apply (HA _ eq_refl). reflexivity.
Qed.

Lemma currentQty_never_negative_witness :
  qty_ok
    (run_calls 0 parseFloat_digits
       [ {| call_op := SmartSync;
            call_remote := {| d_items := [seven_left]; d_error := None |};
            call_script := [] |};
         {| call_op := Pull;
            call_remote := {| d_items := [five_listed]; d_error := None |};
            call_script := [None; Some "connection lost"] |};
         {| call_op := Push;
            call_remote := {| d_items := []; d_error := None |};
            call_script := [] |} ]
       (world [untouched] [] [])).
Proof.
  apply currentQty_never_negative.
  - apply map_Forall_insert_2; [|apply map_Forall_empty].
    split; vm_compute; discriminate.
  - repeat constructor; vm_compute; discriminate.
Defined.


(** C5 fails on the code. With an empty store and one listing, a first
    smart sync imports the listing and writes nothing to eBay; a second
    smart sync right after it imports the same listing again. *)
Theorem smartSync_imports_again :
  let w0 := world [] [five_listed] [] in
  let w1 := (smartSyncAll 0 parseFloat_digits w0).1 in
  sent w1 = [] /\ remote w1 = remote w0
  /\ (smartSyncAll 0 parseFloat_digits w0).2
     = Ok {| created := []; updated := []; skipped := []; pushed := [];
             imported := [("A", "Widget")]; exported := []; sales := [];
             errors := [] |}
  /\ (smartSyncAll 0 parseFloat_digits w1).2
     = Ok {| created := []; updated := []; skipped := []; pushed := [];
             imported := [("A", "Widget")]; exported := []; sales := [];
             errors := [] |}.
Proof. vm_compute. repeat split; reflexivity. Qed.

(** C10 fails on the code. Smart sync over a stored record that is
    listed on eBay never enters its pass over a pair.  With 8 units in
    the record, 10 in its snapshot and 5 left on eBay the reconciled
    quantity is 3; but nothing is sent to eBay, nothing is listed as
    updated or as sold, and the record is replaced by an import of the
    listing: its quantities are the 5 of the listing, and its snapshot,
    price and description are those of the listing, not the record's
    own. *)
Theorem smartSync_does_not_reconcile :
  let w := world [adjusted] [first_listing] [] in
  let run := smartSyncAll 0 parseFloat_digits w in
  Z.max 0 (currentQty adjusted - (snapshotQty adjusted - remoteQty first_listing))
  = 3
  /\ run.2
     = Ok {| created := []; updated := []; skipped := []; pushed := [];
             imported := [("A", "Gadget")]; exported := []; sales := [];
             errors := [] |}
  /\ sent run.1 = []
  /\ exists item' s,
       items run.1 !! "A" = Some item'
       /\ snapshot_of item' = Some s
       /\ currentQty item' = 5 /\ lastSyncedQty item' = Some 5
       /\ snap_quantity s = 5
       /\ price adjusted = 10 /\ description adjusted = "Widget"
       /\ snap_price s = 12 /\ snap_title s = "Gadget"
       /\ price item' = 12 /\ description item' = "Gadget"
       /\ h_action <$> history item' = ["EBAY_IMPORT"].
Proof.
  vm_compute. split; [reflexivity|]. split; [reflexivity|].
  split; [reflexivity|]. eexists _, _. repeat split; reflexivity.
Qed.

(** C7 fails on the code. When reading the one stored record rejects
    during push, the error entry carries no key: [item.sku] is read on an
    object that only has [SKU]. *)
Theorem push_error_has_no_key :
  let w := world [untouched] [] [None; None; Some "connection lost"] in
  (pushToEbay 0 parseFloat_digits w).2
  = Ok {| created := []; updated := []; skipped := []; pushed := [];
          imported := []; exported := []; sales := [];
          errors := [(None, "connection lost")] |}.
Proof. vm_compute. reflexivity. Qed.

(** C9 fails on the code. When the fetch of the listings rejects, push
    and smart sync go on with an empty remote inventory and report no
    error, but the one stored record is neither created nor exported and
    nothing is written to eBay. *)
Theorem fetch_failure_exports_nothing :
  let w := world [untouched] [seven_left] [None; Some "network down"] in
  let w' := world [untouched] [seven_left] [Some "network down"] in
  (pushToEbay 0 parseFloat_digits w).2 = Ok no_results
  /\ sent (pushToEbay 0 parseFloat_digits w).1 = []
  /\ (smartSyncAll 0 parseFloat_digits w').2 = Ok no_results
  /\ sent (smartSyncAll 0 parseFloat_digits w').1 = [].
Proof. vm_compute. repeat split; reflexivity. Qed.

(** C8, as worded, fails: in a pull over a pair with a sale of 3, the
    write of the record rejects after the sale entry was appended; the
    last entry says 7 units and the record still holds 10. *)
Lemma ledger_breaks_on_failed_update :
  ~ @ledger_as_stated Z _ 0 parseFloat_digits.
Proof.
  intros Hledger.
  pose (w := world [untouched] [seven_left]
               [None; None; None; Some "write failed"]).
  assert (Hok : ledger_ok w).
  { apply map_Forall_insert_2; [reflexivity | apply map_Forall_empty]. }
  destruct (Hledger Pull w Hok) as [_ Hafter].
  pose proof (Hafter "A") as HA. vm_compute in HA.
  specialize (HA _ eq_refl). discriminate.
Qed.

Lemma ledger_append_only_witness :
  ledger_ok (pull_body 0 parseFloat_digits seven_left
               (world [untouched] [seven_left] [])).1
  /\ ledger_ok (sync_pair 0 "A" seven_left
                  (world [untouched] [seven_left] [])).1
  /\ ledger_grows (world [untouched] [seven_left] [])
       (pullFromEbay 0 parseFloat_digits
          (world [untouched] [seven_left] [])).1.
Proof.
  pose (w := world [untouched] [seven_left] []).
  assert (Hok : ledger_ok w).
  { apply map_Forall_insert_2; [reflexivity | apply map_Forall_empty]. }
  destruct (ledger_append_only 0 parseFloat_digits w)
    as (Hgrows & _ & _ & _ & Hafter).
  destruct (Hafter Hok) as (Hpull & Hsync & _).
  split; [|split].
  - apply (Hpull seven_left). vm_compute. reflexivity.
  - apply (Hsync "A" seven_left). vm_compute. reflexivity.
  - exact Hgrows.
Defined.

(** What the import step of smart sync does to a stored record that is
    listed on eBay (JSON backend): the pair is not recognised, the listing
    is imported and the import replaces the record, history included. *)
Example smartSync_overwrites_listed_record :
  exists item',
    items (smartSyncAll 0 parseFloat_digits
             (world [adjusted] [seven_left] [])).1 !! "A" = Some item'
    /\ h_action <$> history adjusted = ["CREATE"; "ADJUST_DOWN"]
    /\ h_action <$> history item' = ["EBAY_IMPORT"]
    /\ currentQty item' = 7.
Proof. eexists. vm_compute. repeat split; reflexivity. Qed.

(** * What the sync operations keep *)

Section Passes.

Context {num : Type} `{EqDecision num}.
Variable num_zero : num.
Variable parseFloat : string -> option num.

Local Abbreviation World := (@World num).
Local Abbreviation M := (@M num).

Implicit Types (w : World) (localItem fullItem : @Item num).

Tactic Notation "next" constr(R) := apply (triple_bind _ _ _ R).

Ltac conj := repeat match goal with |- _ /\ _ => split end.

(** ** A snapshot and the listing it was taken from *)

Lemma detect_nil_iff (ebayItem : EbayItem) (s : @Snapshot num) t :
  let taken := captureEbaySnapshot num_zero parseFloat ebayItem t in
  detectEbayChanges num_zero parseFloat ebayItem (Some s) = []
  <-> snap_quantity s = snap_quantity taken
      /\ snap_price s = snap_price taken
      /\ snap_title s = snap_title taken.
Proof.
  unfold detectEbayChanges, captureEbaySnapshot. simpl. split.
  - intros Hnil.
    repeat case_decide; try discriminate Hnil.
    repeat split; apply dec_stable; congruence.
  - intros (Hq & Hp & Ht).
    rewrite !decide_False by (intros Hne; apply Hne; congruence). reflexivity.
Qed.

(** X1: The change detector reports no change of a listing against a
    stored snapshot exactly when the snapshot holds the quantity, the
    price and the title that a snapshot taken of the listing now would
    hold. *)
Theorem detect_nothing_iff_snapshot_agrees (ebayItem : EbayItem)
    (s : @Snapshot num) t :
  let taken := captureEbaySnapshot num_zero parseFloat ebayItem t in
  detectEbayChanges num_zero parseFloat ebayItem (Some s) = []
  <-> snap_quantity s = snap_quantity taken
      /\ snap_price s = snap_price taken
      /\ snap_title s = snap_title taken.
Proof. exact (detect_nil_iff ebayItem s t). Qed.

Lemma detect_taken (ebayItem : EbayItem) t :
  detectEbayChanges num_zero parseFloat ebayItem
    (Some (captureEbaySnapshot num_zero parseFloat ebayItem t)) = [].
Proof. apply (detect_nil_iff ebayItem _ t). auto. Qed.

(** ** Pull, pass by pass

    What every pass over a listing keeps, and neither the clock nor the
    result object touches, pull keeps. *)

Lemma pullFromEbay_passes (I : World -> Prop) (P : EbayItem -> Prop) :
  (forall w, I w -> I (step w)) ->
  (forall f w, I w -> I (set_results f w)) ->
  (forall w, I w -> forall e, e ∈ d_items (remote w) -> P e) ->
  (forall e, P e ->
     triple I (pull_body num_zero parseFloat e) (fun _ => I) I) ->
  triple I (pullFromEbay num_zero parseFloat) (fun _ => I) I.
Proof.
  intros I_step I_results I_remote Hpass. unfold pullFromEbay.
  next (fun _ : unit => I).
  { apply triple_modify. intros w Hw. apply I_results, Hw. }
  intros ?.
  next (fun (ebayData : EbayData) w => I w /\ ebayData = remote w).
  { unfold getActiveListings. next (fun _ : unit => I).
    - apply triple_await. intros w Hw. split; apply I_step, Hw.
    - intros ?. apply triple_gets. auto. }
  intros ebayData.
  assert (Hloop : triple (fun w => I w /\ ebayData = remote w)
            (bind (for_each (d_items ebayData) (pull_item num_zero parseFloat))
                  (fun _ => gets results))
            (fun _ => I) I).
  { eapply triple_conseq with
      (P' := fun w => (forall e, e ∈ d_items ebayData -> P e) /\ I w)
      (Q' := fun _ => I) (E' := I); [| | auto | auto].
    2: { intros w [Hw Heq]. split; [|exact Hw]. rewrite Heq. apply I_remote, Hw. }
    apply triple_pure. intros Hin.
    next (fun _ : unit => I); [|intros ?; apply triple_gets; auto].
    apply triple_for_each. intros x Hx. unfold pull_item.
    apply triple_try_catch with (E' := I); [apply Hpass, Hin, Hx|].
    intros msg. apply triple_modify. intros w Hw. apply I_results, Hw. }
  destruct (d_error ebayData) as [e|]; [|exact Hloop].
  case_decide; [exact Hloop|]. apply triple_throw. intros w [Hw _]. exact Hw.
Qed.

(** ** Invariants of pull

    An invariant that the clock, the script and the result object do not
    touch, and that survives a write under the keys in [K]. *)

Section Local.

Variable I : World -> Prop.
Hypothesis I_step : forall w, I w -> I (step w).
Hypothesis I_results : forall f w, I w -> I (set_results f w).

(** The keys under which a record may be written, and the records
    that may be written there. *)
Variable K : string -> Prop.
Variable G : string -> @Item num -> Prop.
Hypothesis I_insert :
  forall w k item, K k -> G k item -> I w -> I (set_items (insert k item) w).
Hypothesis I_lookup :
  forall w k item, I w -> items w !! k = Some item -> G k item.
Hypothesis G_assign : forall k item u t, G k item -> G k (assign item u t).
Hypothesis G_history :
  forall k item entry, G k item -> G k (push_history entry item).
Hypothesis G_created :
  forall e t, G (key_of e) (createLocalItemFromEbay num_zero parseFloat e t).

Lemma await_local : triple I await (fun _ => I) I.
Proof. apply triple_await. intros w Hw. split; apply I_step, Hw. Qed.

Lemma results_local (f : Results -> Results) :
  triple I (modify (set_results f)) (fun _ => I) I.
Proof. apply triple_modify. intros w Hw. apply I_results, Hw. Qed.

Lemma newDate_local : triple I newDate (fun _ : Z => I) I.
Proof. apply triple_gets. auto. Qed.

Lemma getItem_local k :
  triple I (getItem k) (fun r w => I w /\ r = items w !! k) I.
Proof.
  unfold getItem. next (fun _ : unit => I); [apply await_local|].
  intros ?. apply triple_gets. auto.
Qed.

Lemma createItem_local (itemData : @Item num) :
  K (sku itemData) -> G (sku itemData) itemData ->
  triple I (createItem itemData) (fun _ => I) I.
Proof.
  intros Hk Hg. unfold createItem. next (fun _ : unit => I); [apply await_local|].
  intros ?. apply triple_modify. intros w Hw. apply I_insert; assumption.
Qed.

Lemma updateItem_local k (u : @Updates num) :
  K k -> triple I (updateItem k u) (fun _ => I) I.
Proof.
  intros Hk. unfold updateItem. next (fun _ : unit => I); [apply await_local|].
  intros ?. apply triple_modify. intros w Hw.
  destruct (items w !! k) as [item|] eqn:Hitem; [|exact Hw].
  apply I_insert; [exact Hk | | exact Hw]. apply G_assign, (I_lookup w), Hitem.
  exact Hw.
Qed.

Lemma addHistory_local k entry :
  K k -> triple I (@addHistory num k entry) (fun _ => I) I.
Proof.
  intros Hk. unfold addHistory. next (fun _ : unit => I); [apply await_local|].
  intros ?. apply triple_modify. intros w Hw.
  destruct (items w !! k) as [item|] eqn:Hitem; [|exact Hw].
  apply I_insert; [exact Hk | | exact Hw]. apply G_history, (I_lookup w), Hitem.
  exact Hw.
Qed.

Lemma pull_change_local k ebayItem localItem st change :
  K k ->
  triple I (pull_change num_zero parseFloat k ebayItem localItem st change)
    (fun _ => I) I.
Proof.
  intros Hk. destruct st as [u cf]. unfold pull_change.
  assert (Hret : forall st' : @Updates num * list string,
            triple I (ret st') (fun _ => I) I).
  { intros st'. apply triple_ret. auto. }
  destruct change as [|old new|old new|old new].
  - apply Hret.
  - destruct (negb _).
    + case_bool_decide; [|apply Hret].
      next (fun _ : Z => I); [apply newDate_local|]. intros now.
      next (fun _ : unit => I); [apply addHistory_local, Hk | intros ?; apply Hret].
    + destruct (negb _); apply Hret.
  - destruct (negb _); [apply Hret|]. destruct (negb _); apply Hret.
  - destruct (negb _); [apply Hret|]. destruct (negb _); apply Hret.
Qed.

Lemma pull_body_local ebayItem :
  K (key_of ebayItem) ->
  triple I (pull_body num_zero parseFloat ebayItem) (fun _ => I) I.
Proof.
  intros Hk. unfold pull_body. fold (key_of ebayItem).
  next (fun (_ : option (@Item num)) => I).
  { eapply triple_conseq; [apply getItem_local | auto | | auto].
    intros r w [Hw _]. exact Hw. }
  intros [localItem|].
  - case_bool_decide; [apply results_local|].
    next (fun (_ : @Updates num * list string) => I).
    { apply (triple_for_fold (fun (_ : @Updates num * list string) => I)).
      intros st c _. apply pull_change_local, Hk. }
    intros [updates changedFields].
    destruct (has_keys updates); [|apply results_local].
    next (fun _ : Z => I); [apply newDate_local|]. intros now.
    next (fun _ : unit => I);
      [apply updateItem_local, Hk | intros ?; apply results_local].
  - next (fun _ : Z => I); [apply newDate_local|]. intros now.
    next (fun _ : unit => I); [|intros ?; apply results_local].
    apply createItem_local; [exact Hk | apply G_created].
Qed.

Hypothesis I_remote :
  forall w, I w -> forall e, e ∈ d_items (remote w) -> K (key_of e).

Lemma pullFromEbay_local :
  triple I (pullFromEbay num_zero parseFloat) (fun _ => I) I.
Proof.
  apply pullFromEbay_passes with (P := fun e => K (key_of e));
    [exact I_step | exact I_results | exact I_remote | exact pull_body_local].
Qed.

End Local.

(** Pull writes nothing to eBay and changes no record but those of the
    active listings. *)
Local Abbreviation pull_frame_inv w0 :=
  (fun w : World =>
     sent w = sent w0 /\ lastSync w = lastSync w0 /\ remote w = remote w0
     /\ forall k, k ∉ key_of <$> d_items (remote w0)
          -> items w !! k = items w0 !! k).

(** X2: Whatever the remote side answers and whichever awaited calls
    reject, pull sends nothing to eBay, leaves the instant of the last
    sync alone, and leaves alone every record whose SKU is not the key
    of an active listing. *)
Theorem pull_frame w0 :
  let w' := (pullFromEbay num_zero parseFloat w0).1 in
  sent w' = sent w0
  /\ lastSync w' = lastSync w0
  /\ forall k, k ∉ key_of <$> d_items (remote w0) -> items w' !! k = items w0 !! k.
Proof.
  intros w'.
  assert (Hrun : triple (pull_frame_inv w0) (pullFromEbay num_zero parseFloat)
            (fun _ => pull_frame_inv w0) (pull_frame_inv w0)).
  { apply pullFromEbay_local
      with (K := fun k => k ∈ key_of <$> d_items (remote w0))
           (G := fun _ _ => True); try (intros; exact Logic.I).
    - intros w Hw. exact Hw.
    - intros f w Hw. exact Hw.
    - intros w k item Hk _ (Hs & Hl & Hr & Hi). repeat split; try assumption.
      intros k0 Hk0. simpl. rewrite lookup_insert_ne; [apply Hi, Hk0|].
      intros ->. exact (Hk0 Hk).
    - intros w (_ & _ & Hr & _) e He. rewrite Hr in He.
      apply list_elem_of_fmap_2, He. }
  specialize (Hrun w0). subst w'.
  destruct (pullFromEbay num_zero parseFloat w0) as [w1 [r|e]]; simpl;
    (destruct Hrun as (Hs & Hl & _ & Hi); [repeat split; auto | tauto]).
Qed.

(** ** Invariants of every sync operation

    A stable invariant that survives every write of a record is kept by
    pull, push and smart sync, whatever rejects. *)

Section Kept.

Variable I : World -> Prop.
Hypothesis I_stable : stable I.

(** The records that may be written under a key. *)
Variable G : string -> @Item num -> Prop.
Hypothesis I_insert :
  forall w k item, G k item -> I w -> I (set_items (insert k item) w).
Hypothesis I_lookup :
  forall w k item, I w -> items w !! k = Some item -> G k item.
Hypothesis G_assign : forall k item u t, G k item -> G k (assign item u t).
Hypothesis G_history :
  forall k item entry, G k item -> G k (push_history entry item).
Hypothesis G_created :
  forall e t, G (key_of e) (createLocalItemFromEbay num_zero parseFloat e t).

Local Abbreviation keep := (fun _ : unit => I).

Lemma await_kept : triple I await keep I.
Proof. apply triple_await. intros w Hw. split; apply I_stable, Hw. Qed.

Ltac kept_results := apply (push_results_stable _ I_stable).

Lemma updateItem_kept k (u : @Updates num) : triple I (updateItem k u) keep I.
Proof.
  apply (updateItem_stable _ _ await_kept). intros w item t Hw Hk.
  apply I_insert; [|exact Hw]. apply G_assign, (I_lookup w); assumption.
Qed.

Lemma addHistory_kept k entry : triple I (@addHistory num k entry) keep I.
Proof.
  apply (addHistory_stable _ _ await_kept). intros w item Hw Hk.
  apply I_insert; [|exact Hw]. apply G_history, (I_lookup w); assumption.
Qed.

Lemma createItem_kept (item : @Item num) :
  G (sku item) item -> triple I (createItem item) keep I.
Proof.
  intros Hg. apply (createItem_stable _ _ await_kept). intros w Hw.
  by apply I_insert.
Qed.

Lemma getItem_kept k : triple I (getItem k) (fun (_ : option (@Item num)) => I) I.
Proof.
  eapply triple_conseq; [apply (getItem_stable _ _ await_kept k) | auto | | auto].
  intros r w [Hw _]. exact Hw.
Qed.

Lemma pullFromEbay_kept :
  triple I (pullFromEbay num_zero parseFloat) (fun _ => I) I.
Proof.
  apply pullFromEbay_local with (K := fun _ => True) (G := G);
    try assumption; try (intros; exact Logic.I).
  - intros w Hw. apply I_stable, Hw.
  - intros f w Hw. apply I_stable, Hw.
  - intros w k item _. apply I_insert.
Qed.

Lemma fetch_inventory_kept :
  triple I fetch_inventory (fun (_ : gmap string EbayItem) => I) I.
Proof.
  unfold fetch_inventory. apply triple_try_catch with (E' := I).
  - next (fun (_ : EbayData) => I); [|intros ?; apply triple_ret; auto].
    eapply triple_conseq;
      [apply (getActiveListings_stable _ _ await_kept) | auto | | auto].
    intros r w [Hw _]. exact Hw.
  - intros msg. apply triple_ret. auto.
Qed.

Lemma getAllItems_kept :
  triple I (getAllItems num_zero) (fun (_ : list (@FormattedItem num)) => I) I.
Proof.
  eapply triple_conseq;
    [apply (getAllItems_stable _ _ _ await_kept) | auto | | auto].
  intros r w [Hw _]. exact Hw.
Qed.

(** The steps that send a record to eBay and record the sync. *)
Lemma export_steps_kept k fullItem (finish : M unit) :
  triple I finish keep I ->
  triple I
    (bind (syncItemToEbay
             (warehouse_item num_zero fullItem (currentQty fullItem)))
       (fun _ => bind newDate (fun now =>
          bind (updateItem k (sync_tracking num_zero fullItem now))
            (fun _ => finish))))
    keep I.
Proof.
  intros Hfinish.
  next keep; [apply (syncItemToEbay_stable _ I_stable _ await_kept)|]. intros ?.
  next (fun _ : Z => I); [apply triple_gets; auto|]. intros now.
  next keep; [apply updateItem_kept | intros ?; exact Hfinish].
Qed.

Lemma push_body_kept ebayInventory (item : @FormattedItem num) :
  triple I (push_body num_zero parseFloat ebayInventory item) keep I.
Proof.
  unfold push_body.
  next (fun (_ : option (@Item num)) => I); [apply getItem_kept|].
  intros [fullItem|]; [|apply triple_ret; auto].
  destruct (ebayInventory !! _) as [ebayItem|].
  - destruct (_ && _); [kept_results|].
    apply export_steps_kept. kept_results.
  - apply export_steps_kept. kept_results.
Qed.

Lemma pushToEbay_kept :
  triple I (pushToEbay num_zero parseFloat) (fun _ => I) I.
Proof.
  unfold pushToEbay.
  next keep; [kept_results|]. intros ?.
  next (fun (_ : list (@FormattedItem num)) => I); [apply getAllItems_kept|].
  intros localItems.
  next (fun (_ : gmap string EbayItem) => I); [apply fetch_inventory_kept|].
  intros ebayInventory.
  next keep; [|intros ?; apply triple_gets; auto].
  apply triple_for_each. intros x _. unfold push_item.
  apply triple_try_catch with (E' := I); [apply push_body_kept|].
  intros msg. kept_results.
Qed.

Lemma sync_pair_kept k ebayItem :
  triple I (sync_pair num_zero k ebayItem) keep I.
Proof.
  unfold sync_pair.
  next (fun (_ : option (@Item num)) => I); [apply getItem_kept|].
  intros [fullItem|]; [|apply triple_ret; auto].
  next (fun (_ : Z * Z) => I).
  { case_bool_decide; [|apply triple_ret; auto].
    next (fun _ : Z => I); [apply triple_gets; auto|]. intros now.
    next keep; [apply addHistory_kept|]. intros ?.
    next keep; [kept_results | intros ?; apply triple_ret; auto]. }
  intros [finalQty salesDetected].
  next keep; [apply (syncItemToEbay_stable _ I_stable _ await_kept)|]. intros ?.
  next (fun _ : Z => I); [apply triple_gets; auto|]. intros now.
  next keep; [apply updateItem_kept | intros ?; kept_results].
Qed.

Lemma smartSyncAll_kept :
  triple I (smartSyncAll num_zero parseFloat) (fun _ => I) I.
Proof.
  unfold smartSyncAll.
  next keep; [kept_results|]. intros ?.
  next (fun (_ : gmap string EbayItem) => I); [apply fetch_inventory_kept|].
  intros ebayInventory.
  next (fun (_ : list (@FormattedItem num)) => I); [apply getAllItems_kept|].
  intros localItems.
  next (fun (_ : gset string) => I).
  { apply (triple_for_fold (fun (_ : gset string) => I)).
    intros processedSkus [k ebayItem] _. unfold sync_both.
    destruct (_ !! k); [|apply triple_ret; auto].
    next keep; [|intros ?; apply triple_ret; auto].
    apply triple_try_catch with (E' := I); [apply sync_pair_kept|].
    intros msg. kept_results. }
  intros processedSkus.
  next keep.
  { apply triple_for_each. intros [k ebayItem] _. unfold sync_import.
    case_bool_decide; [apply triple_ret; auto|].
    apply triple_try_catch with (E' := I); [|intros msg; kept_results].
    next (fun _ : Z => I); [apply triple_gets; auto|]. intros now.
    next keep; [apply createItem_kept, G_created | intros ?; kept_results]. }
  intros ?. next keep; [|intros ?; apply triple_gets; auto].
  apply triple_for_each. intros item _. unfold sync_export.
  destruct (match f_sku item with Some _ => _ | None => _ end);
    [apply triple_ret; auto|].
  case_bool_decide; [apply triple_ret; auto|].
  apply triple_try_catch with (E' := I); [|intros msg; kept_results].
  unfold export_body.
  next (fun (_ : option (@Item num)) => I); [apply getItem_kept|].
  intros [fullItem|]; [|apply triple_ret; auto].
  apply export_steps_kept. kept_results.
Qed.

Lemma run_op_kept o w : I w -> I (run_op num_zero parseFloat o w).1.
Proof.
  intros Hw.
  assert (Hrun : triple I (run_op num_zero parseFloat o) (fun _ => I) I).
  { destruct o; [apply pullFromEbay_kept | apply pushToEbay_kept
                 | apply smartSyncAll_kept]. }
  specialize (Hrun w Hw).
  destruct (run_op num_zero parseFloat o w) as [w' [r|e]]; exact Hrun.
Qed.

End Kept.

(** X3: No sequence of pull, push and smart-sync calls, whatever the
    listings and the rejections of each call, removes a record from the
    store. *)
Theorem sync_never_deletes (cs : list Call) w k :
  is_Some (items w !! k) ->
  is_Some (items (run_calls num_zero parseFloat cs w) !! k).
Proof.
  revert w. induction cs as [|c cs IH]; intros w Hk; [exact Hk|].
  simpl. apply IH. unfold run_call.
  apply run_op_kept
    with (I := fun w => is_Some (items w !! k)) (G := fun _ _ => True).
  - intros w0 Hw0. repeat split; intros; exact Hw0.
  - intros w0 k0 item _ Hw0. simpl.
    destruct (decide (k0 = k)) as [->|Hne].
    + rewrite lookup_insert_eq. eauto.
    + rewrite lookup_insert_ne by exact Hne. exact Hw0.
  - auto.
  - auto.
  - auto.
  - auto.
  - exact Hk.
Qed.

(** ** Pull, twice

    In a run where nothing rejects, the pass of pull over a listing
    leaves a record that a further pass over the same listing skips. *)

Lemma calm_await w : calm w -> await w = (step w, Ok tt) /\ calm (step w).
Proof.
  intros Hw. pose proof (await_calm w Hw) as Hrun. unfold await in *.
  destruct (script w) as [|[msg|] l]; [auto | contradiction | auto].
Qed.

Lemma calm_getItem k w :
  calm w -> getItem k w = (step w, Ok (items w !! k)).
Proof.
  intros Hw. unfold getItem, bind. rewrite (proj1 (calm_await w Hw)). reflexivity.
Qed.

Lemma calm_addHistory k entry w :
  calm w ->
  exists w', @addHistory num k entry w = (w', Ok tt) /\ calm w'
    /\ remote w' = remote w /\ results w' = results w
    /\ (forall k0, k0 <> k -> items w' !! k0 = items w !! k0)
    /\ (is_Some (items w !! k) -> is_Some (items w' !! k)).
Proof.
  intros Hw. unfold addHistory, bind. destruct (calm_await w Hw) as [-> Hs].
  unfold modify. change (items (step w)) with (items w).
  destruct (items w !! k) as [item|] eqn:Hk.
  - eexists. conj; [reflexivity | exact Hs | reflexivity | reflexivity | |].
    + intros k0 Hne. simpl. by rewrite lookup_insert_ne.
    + intros _. simpl. rewrite lookup_insert_eq. eauto.
  - eexists. conj; [reflexivity | exact Hs | reflexivity | reflexivity | |].
    + reflexivity.
    + simpl. rewrite Hk. auto.
Qed.

Local Abbreviation fold_spec k st st' :=
  (fun (m : M (@Updates num * list string)) =>
     forall w, calm w ->
       exists w', m w = (w', Ok st') /\ calm w'
         /\ remote w' = remote w /\ results w' = results w
         /\ (has_keys st.1 = true -> has_keys st'.1 = true)
         /\ (has_keys st'.1 = false -> w' = w)
         /\ (forall k0, k0 <> k -> items w' !! k0 = items w !! k0)
         /\ (is_Some (items w !! k) -> is_Some (items w' !! k))).

Lemma fold_spec_ret k (st st' : @Updates num * list string) :
  (has_keys st.1 = true -> has_keys st'.1 = true) ->
  fold_spec k st st' (ret st').
Proof. intros Hk w Hw. exists w. conj; auto. Qed.

Lemma pull_change_pure k ebayItem localItem st change :
  exists st',
    fold_spec k st st'
      (pull_change num_zero parseFloat k ebayItem localItem st change).
Proof.
  destruct st as [u cf]. unfold pull_change.
  assert (Hsame : forall cf', exists st',
            fold_spec k (u, cf) st' (ret (u, cf'))).
  { intros cf'. eexists. apply fold_spec_ret. auto. }
  assert (Hprice : forall p cf', exists st',
            fold_spec k (u, cf) st' (ret (upd_price p u, cf'))).
  { intros p cf'. eexists. apply fold_spec_ret. simpl. intros _.
    unfold has_keys. simpl. apply orb_true_iff. left. apply orb_true_r. }
  assert (Hdesc : forall t cf', exists st',
            fold_spec k (u, cf) st' (ret (upd_description t u, cf'))).
  { intros t cf'. eexists. apply fold_spec_ret. simpl. intros _.
    unfold has_keys. simpl. apply orb_true_r. }
  destruct change as [|old new|old new|old new].
  - eexists. apply fold_spec_ret. simpl. intros _.
    unfold has_keys. simpl. apply orb_true_r.
  - destruct (negb _).
    + case_bool_decide; [|apply Hsame].
      eexists. intros w Hw. unfold bind, newDate, gets.
      destruct (calm_addHistory k
                  (sale_entry (clock w)
                     (nullish (snap_quantity <$> snapshot_of localItem)
                        (nullish (lastSyncedQty localItem) (currentQty localItem))
                      - new)
                     (Z.max 0
                        (currentQty localItem
                         - (nullish (snap_quantity <$> snapshot_of localItem)
                              (nullish (lastSyncedQty localItem)
                                 (currentQty localItem)) - new)))
                     "pull") w Hw)
        as (w' & -> & Hc & Hr & Hres & Hf & Hs).
      exists w'. conj; auto.
      simpl. unfold has_keys. simpl. discriminate.
    + destruct (negb _); apply Hsame.
  - destruct (negb _); [apply Hprice|]. destruct (negb _); [apply Hprice | apply Hsame].
  - destruct (negb _); [apply Hdesc|]. destruct (negb _); [apply Hdesc | apply Hsame].
Qed.

Lemma for_fold_pure k ebayItem localItem changes :
  forall st, exists st',
    fold_spec k st st'
      (for_fold changes st (pull_change num_zero parseFloat k ebayItem localItem)).
Proof.
  induction changes as [|c cs IH]; intros st.
  - exists st. apply fold_spec_ret. auto.
  - destruct (pull_change_pure k ebayItem localItem st c) as (st1 & H1).
    destruct (IH st1) as (st2 & H2).
    exists st2. intros w Hw. cbn [for_fold]. unfold bind.
    destruct (H1 w Hw) as (w1 & -> & Hc1 & Hr1 & Hres1 & Hk1 & Hw1 & Hf1 & Hs1).
    destruct (H2 w1 Hc1) as (w2 & -> & Hc2 & Hr2 & Hres2 & Hk2 & Hw2 & Hf2 & Hs2).
    exists w2. conj; auto; try congruence.
    + intros Hno. rewrite (Hw2 Hno).
      apply Hw1. destruct (has_keys st1.1) eqn:Hk; [|reflexivity].
      rewrite Hk2 in Hno by reflexivity. discriminate.
    + intros k0 Hne. rewrite Hf2, Hf1 by exact Hne. reflexivity.
Qed.

(** A record that the pass over [ebayItem] finds settled: the pass does
    nothing but report that it skipped the listing. *)
Local Abbreviation settled ebayItem localItem :=
  (exists reason, forall w,
      calm w -> items w !! key_of ebayItem = Some localItem ->
      pull_item num_zero parseFloat ebayItem w
      = push_skipped (Some (key_of ebayItem), reason) (step w)).

Lemma settled_no_changes ebayItem localItem :
  detectEbayChanges num_zero parseFloat ebayItem (snapshot_of localItem) = [] ->
  settled ebayItem localItem.
Proof.
  intros Hnil. exists "No eBay changes". intros w Hw Hk.
  unfold pull_item, try_catch, pull_body. fold (key_of ebayItem).
  unfold bind at 1. rewrite (calm_getItem _ _ Hw), Hk, Hnil.
  rewrite bool_decide_eq_true_2 by reflexivity. reflexivity.
Qed.

Lemma pull_pass ebayItem w :
  calm w ->
  exists w1,
    pull_item num_zero parseFloat ebayItem w = (w1, Ok tt)
    /\ calm w1 /\ remote w1 = remote w
    /\ errors (results w1) = errors (results w)
    /\ (forall k, k <> key_of ebayItem -> items w1 !! k = items w !! k)
    /\ exists localItem,
         items w1 !! key_of ebayItem = Some localItem
         /\ settled ebayItem localItem.
Proof.
  intros Hw. unfold pull_item, try_catch, pull_body. fold (key_of ebayItem).
  unfold bind at 1. rewrite (calm_getItem _ _ Hw).
  pose proof (proj2 (calm_await w Hw)) as Hs.
  destruct (items w !! key_of ebayItem) as [localItem|] eqn:Hk.
  - (* the record exists *)
    case_bool_decide as Hnil.
    + eexists. conj; [reflexivity | exact Hs | reflexivity | reflexivity | auto |].
      exists localItem. split; [exact Hk|]. by apply settled_no_changes.
    + destruct (for_fold_pure (key_of ebayItem) ebayItem localItem
                  (detectEbayChanges num_zero parseFloat ebayItem
                     (snapshot_of localItem)) (no_updates, []))
        as ([u cf] & Hfold).
      destruct (Hfold (step w) Hs)
        as (w2 & Hrun & Hc2 & Hr2 & Hres2 & _ & Hw2 & Hf2 & Hs2).
      unfold bind at 1. rewrite Hrun. simpl in Hw2.
      destruct (has_keys u) eqn:Hkeys.
      * (* the record is updated with a snapshot of the listing *)
        unfold bind at 1. unfold newDate, gets. unfold updateItem, bind.
        destruct (calm_await w2 Hc2) as [-> Hc3]. simpl.
        destruct Hs2 as [item2 Hitem2]; [simpl; rewrite Hk; eauto|].
        rewrite Hitem2. eexists. split; [reflexivity|].
        split; [exact Hc3|]. split; [exact Hr2|].
        split; [simpl; rewrite Hres2; reflexivity|]. split.
        { intros k Hne. simpl. rewrite lookup_insert_ne by congruence.
          apply Hf2, Hne. }
        eexists. split; [simpl; apply lookup_insert_eq|].
        apply settled_no_changes. apply detect_taken.
      * (* nothing to take from the listing *)
        rewrite (Hw2 eq_refl) in *.
        eexists. conj; [reflexivity | exact Hs | reflexivity | reflexivity | auto |].
        exists localItem. split; [exact Hk|].
        exists "Local changes are newer". intros w0 Hw0 Hk0.
        unfold pull_item, try_catch, pull_body. fold (key_of ebayItem).
        unfold bind at 1. rewrite (calm_getItem _ _ Hw0), Hk0.
        rewrite bool_decide_eq_false_2 by exact Hnil.
        destruct (Hfold (step w0) (proj2 (calm_await w0 Hw0)))
          as (w3 & Hrun3 & _ & _ & _ & _ & Hw3 & _).
        unfold bind at 1. rewrite Hrun3, Hkeys. rewrite (Hw3 Hkeys). reflexivity.
  - (* the record is created from the listing *)
    unfold bind at 1. unfold newDate, gets. unfold createItem, bind.
    destruct (calm_await (step w) Hs) as [-> Hc3]. simpl.
    eexists. split; [reflexivity|]. split; [exact Hc3|].
    split; [reflexivity|]. split; [reflexivity|]. split.
    { intros k Hne. simpl.
      rewrite lookup_insert_ne by (intros Heq; apply Hne; symmetry; exact Heq).
      reflexivity. }
    eexists. split; [simpl; apply lookup_insert_eq|].
    apply settled_no_changes. apply detect_taken.
Qed.

Lemma pull_loop_settles (l : list EbayItem) :
  NoDup (key_of <$> l) ->
  forall w, calm w ->
  exists w1,
    for_each l (pull_item num_zero parseFloat) w = (w1, Ok tt)
    /\ calm w1 /\ remote w1 = remote w
    /\ (forall k, k ∉ key_of <$> l -> items w1 !! k = items w !! k)
    /\ forall e, e ∈ l ->
         exists localItem,
           items w1 !! key_of e = Some localItem /\ settled e localItem.
Proof.
  induction l as [|e l IH]; intros Hnd w Hw.
  - exists w. conj; auto. intros e He. by apply elem_of_nil in He.
  - rewrite fmap_cons in Hnd. apply NoDup_cons in Hnd as [Hnotin Hnd].
    destruct (pull_pass e w Hw) as (w1 & Hrun & Hc1 & Hr1 & _ & Hf1 & Hset).
    destruct (IH Hnd w1 Hc1) as (w2 & Hrun2 & Hc2 & Hr2 & Hf2 & Hall).
    exists w2. cbn [for_each]. unfold bind. rewrite Hrun, Hrun2.
    conj; [reflexivity | exact Hc2 | congruence | |].
    + intros k Hk. rewrite fmap_cons in Hk. apply not_elem_of_cons in Hk as [Hne Hk].
      rewrite Hf2 by exact Hk. apply Hf1, Hne.
    + intros e' [-> | He']%elem_of_cons; [|apply Hall, He'].
      destruct Hset as (localItem & Hk & Hs). exists localItem.
      split; [|exact Hs]. rewrite Hf2 by exact Hnotin. exact Hk.
Qed.

Lemma pull_loop_records (l : list EbayItem) :
  forall w, calm w ->
  exists w1,
    for_each l (pull_item num_zero parseFloat) w = (w1, Ok tt)
    /\ calm w1
    /\ errors (results w1) = errors (results w)
    /\ (forall k, is_Some (items w !! k) -> is_Some (items w1 !! k))
    /\ forall e, e ∈ l -> is_Some (items w1 !! key_of e).
Proof.
  induction l as [|e l IH]; intros w Hw.
  - exists w. conj; auto. intros e He. by apply elem_of_nil in He.
  - destruct (pull_pass e w Hw) as (w1 & Hrun & Hc1 & _ & He1 & Hf1 & Hset).
    destruct (IH w1 Hc1) as (w2 & Hrun2 & Hc2 & He2 & Hkeep & Hall).
    exists w2. cbn [for_each]. unfold bind. rewrite Hrun, Hrun2.
    conj; [reflexivity | exact Hc2 | congruence | |].
    + intros k Hk. apply Hkeep.
      destruct (decide (k = key_of e)) as [->|Hne].
      * destruct Hset as (localItem & -> & _). eauto.
      * rewrite Hf1 by exact Hne. exact Hk.
    + intros e' [-> | He']%elem_of_cons; [|apply Hall, He'].
      apply Hkeep. destruct Hset as (localItem & -> & _). eauto.
Qed.

Lemma pull_loop_skips (l : list EbayItem) :
  forall w, calm w ->
  (forall e, e ∈ l ->
     exists localItem,
       items w !! key_of e = Some localItem /\ settled e localItem) ->
  exists w1,
    for_each l (pull_item num_zero parseFloat) w = (w1, Ok tt)
    /\ calm w1 /\ items w1 = items w
    /\ created (results w1) = created (results w)
    /\ updated (results w1) = updated (results w)
    /\ errors (results w1) = errors (results w)
    /\ length (skipped (results w1)) = (length (skipped (results w)) + length l)%nat.
Proof.
  induction l as [|e l IH]; intros w Hw Hall.
  - exists w. conj; auto.
  - destruct (Hall e) as (localItem & Hk & reason & Hskip); [left|].
    specialize (Hskip w Hw Hk).
    destruct (IH (set_results
                    (fun r =>
                       {| created := created r; updated := updated r;
                          skipped := skipped r ++ [(Some (key_of e), reason)];
                          pushed := pushed r; imported := imported r;
                          exported := exported r; sales := sales r;
                          errors := errors r |}) (step w)))
      as (w2 & Hrun2 & Hc2 & Hi2 & Hcr & Hup & Her & Hsk).
    { exact (proj2 (calm_await w Hw)). }
    { intros e' He'. apply Hall. by right. }
    exists w2. cbn [for_each]. unfold bind. rewrite Hskip.
    unfold push_skipped, modify. rewrite Hrun2.
    conj; [reflexivity | exact Hc2 | exact Hi2 | exact Hcr | exact Hup
           | exact Her |].
    rewrite Hsk. simpl. rewrite length_app. simpl. lia.
Qed.

(** X5: When no awaited call rejects, the fetch reports no error and no
    two listings share a key, a second pull right after a first one
    changes no record: it creates nothing, updates nothing, fails on
    nothing and skips every listing. *)
Theorem pull_twice_changes_nothing w :
  calm w ->
  d_error (remote w) = None ->
  NoDup (key_of <$> d_items (remote w)) ->
  exists w1 r1 w2 r2,
    pullFromEbay num_zero parseFloat w = (w1, Ok r1)
    /\ pullFromEbay num_zero parseFloat w1 = (w2, Ok r2)
    /\ items w2 = items w1
    /\ created r2 = [] /\ updated r2 = [] /\ errors r2 = []
    /\ length (skipped r2) = length (d_items (remote w)).
Proof.
  intros Hw Herr Hnd.
  assert (Hrun : forall w0, calm w0 -> remote w0 = remote w ->
            pullFromEbay num_zero parseFloat w0
            = bind (for_each (d_items (remote w)) (pull_item num_zero parseFloat))
                   (fun _ => gets results)
                (step (set_results (fun _ => no_results) w0))
            /\ calm (step (set_results (fun _ => no_results) w0))).
  { intros w0 Hw0 Hr0. unfold pullFromEbay. unfold bind at 1. unfold modify.
    unfold bind at 1. unfold getActiveListings. unfold bind at 1.
    destruct (calm_await (set_results (fun _ => no_results) w0) Hw0) as [-> Hc].
    unfold gets at 1. change (remote (step _)) with (remote w0).
    rewrite Hr0, Herr. split; [reflexivity | exact Hc]. }
  destruct (Hrun w Hw eq_refl) as [-> Hc].
  destruct (pull_loop_settles _ Hnd _ Hc) as (w1 & Hloop & Hc1 & Hr1 & _ & Hall).
  unfold bind at 1. rewrite Hloop. unfold gets at 1.
  destruct (Hrun w1 Hc1 Hr1) as [Hrun1 Hc1'].
  destruct (pull_loop_skips (d_items (remote w))
              (step (set_results (fun _ => no_results) w1)) Hc1' Hall)
    as (w2 & Hloop2 & Hc2 & Hi2 & Hcr & Hup & Her & Hsk).
  exists w1, (results w1), w2, (results w2).
  split; [reflexivity|]. rewrite Hrun1. unfold bind at 1. rewrite Hloop2.
  split; [reflexivity|]. conj; auto.
Qed.

(** X6: When no awaited call rejects, the fetch reports no error and the
    key of no listing is a name that every JavaScript object inherits
    (constructor, toString, ...), pull returns without errors and every
    active listing has a record under its key afterwards. *)
Theorem pull_records_every_listing w :
  calm w ->
  d_error (remote w) = None ->
  Forall (fun e => own_key (key_of e)) (d_items (remote w)) ->
  exists w1 r1,
    pullFromEbay num_zero parseFloat w = (w1, Ok r1)
    /\ errors r1 = []
    /\ forall e, e ∈ d_items (remote w) -> is_Some (items w1 !! key_of e).
Proof.
  intros Hw Herr _. unfold pullFromEbay. unfold bind at 1. unfold modify.
  unfold bind at 1. unfold getActiveListings. unfold bind at 1.
  destruct (calm_await (set_results (fun _ => no_results) w) Hw) as [-> Hc].
  unfold gets at 1. change (remote (step _)) with (remote w). rewrite Herr.
  destruct (pull_loop_records (d_items (remote w)) _ Hc)
    as (w1 & Hloop & _ & Her & _ & Hall).
  unfold bind at 1. rewrite Hloop. unfold gets.
  exists w1, (results w1). conj; [reflexivity | exact Her | exact Hall].
Qed.

(** X4: If every record is stored under its own SKU, this is still so
    after any sequence of pull, push and smart-sync calls. *)
Theorem sync_keeps_store_keyed (cs : list Call) w :
  well_keyed w -> well_keyed (run_calls num_zero parseFloat cs w).
Proof.
  revert w. induction cs as [|c cs IH]; intros w Hw; [exact Hw|].
  simpl. apply IH. unfold run_call.
  apply run_op_kept with (I := @well_keyed num) (G := fun k item => sku item = k).
  - intros w0 Hw0. repeat split; intros; exact Hw0.
  - intros w0 k item Hitem Hw0. unfold well_keyed. simpl.
    apply map_Forall_insert_2; assumption.
  - intros w0 k item Hw0 Hk. exact (Hw0 k item Hk).
  - auto.
  - auto.
  - reflexivity.
  - exact Hw.
Qed.

(** ** What a write to eBay sends *)

Lemma syncItemToEbay_sent (wi : @WarehouseItem num) w w' r :
  syncItemToEbay wi w = (w', Ok r) ->
  items w' = items w
  /\ exists data,
       sent w' = data :: sent w
       /\ r_sku data = w_SKU wi /\ r_quantity data = w_Quantity wi.
Proof.
  unfold syncItemToEbay.
  intros (? & w1 & Ha & (? & w2 & Hm & (now & w3 & Hd & (? & w4 & Ha' & Hm'
          )%bind_Ok)%bind_Ok)%bind_Ok)%bind_Ok.
  apply await_Ok in Ha, Ha'. apply modify_Ok in Hm, Hm'.
  apply gets_Ok in Hd as [-> ->]. subst. split; [reflexivity|].
  eexists. split; [reflexivity|]. split; reflexivity.
Qed.

(** ** What push leaves alone *)

(** The stock of a record: what a sync pass must not make up. *)
Local Abbreviation same_stock item0 item :=
  (currentQty item = currentQty item0 /\ price item = price item0
   /\ description item = description item0 /\ history item = history item0).

Local Abbreviation stock_kept w0 :=
  (fun w : World =>
     forall k,
       match items w0 !! k with
       | Some item0 =>
           exists item, items w !! k = Some item /\ same_stock item0 item
       | None => items w !! k = None
       end).

Lemma stock_kept_stable w0 : stable (stock_kept w0).
Proof. intros w Hw. conj; intros; apply Hw. Qed.

Lemma stock_kept_tracking w0 k fullItem now :
  triple (stock_kept w0) (updateItem k (sync_tracking num_zero fullItem now))
    (fun _ => stock_kept w0) (stock_kept w0).
Proof.
  apply updateItem_stable.
  { apply triple_await. intros w Hw. split; exact Hw. }
  intros w item t Hw Hk k0. specialize (Hw k0). simpl.
  destruct (decide (k0 = k)) as [->|Hne].
  - rewrite lookup_insert_eq. rewrite Hk in Hw.
    destruct (items w0 !! k) as [item0|]; [|discriminate].
    destruct Hw as (item' & [= <-] & Hsame). eexists. split; [reflexivity|].
    exact Hsame.
  - rewrite lookup_insert_ne by congruence. exact Hw.
Qed.

(** X8: Push never changes the quantity, the price, the description or
    the history of a record, and neither creates nor removes a record,
    whatever the remote side answers and whichever awaited calls reject. *)
Theorem push_never_changes_stock w0 k :
  match items w0 !! k with
  | Some item0 =>
      exists item,
        items (pushToEbay num_zero parseFloat w0).1 !! k = Some item
        /\ currentQty item = currentQty item0 /\ price item = price item0
        /\ description item = description item0
        /\ history item = history item0
  | None => items (pushToEbay num_zero parseFloat w0).1 !! k = None
  end.
Proof.
  pose proof (stock_kept_stable w0) as Hstable.
  assert (Hawait : triple (stock_kept w0) await (fun _ => stock_kept w0)
                     (stock_kept w0)).
  { apply triple_await. intros w Hw. split; exact Hw. }
  assert (Hsend : forall k0 (fullItem : @Item num) (finish : M unit),
            triple (stock_kept w0) finish (fun _ => stock_kept w0) (stock_kept w0) ->
            triple (stock_kept w0)
              (bind (syncItemToEbay
                       (warehouse_item num_zero fullItem (currentQty fullItem)))
                 (fun _ => bind newDate (fun now =>
                    bind (updateItem k0 (sync_tracking num_zero fullItem now))
                      (fun _ => finish))))
              (fun _ => stock_kept w0) (stock_kept w0)).
  { intros k0 fullItem finish Hfinish.
    next (fun _ : unit => stock_kept w0);
      [apply (syncItemToEbay_stable _ Hstable _ Hawait)|]. intros ?.
    next (fun _ : Z => stock_kept w0); [apply triple_gets; auto|]. intros now.
    next (fun _ : unit => stock_kept w0);
      [apply stock_kept_tracking | intros ?; exact Hfinish]. }
  assert (Hrun : triple (stock_kept w0) (pushToEbay num_zero parseFloat)
                   (fun _ => stock_kept w0) (stock_kept w0)).
  { unfold pushToEbay.
    next (fun _ : unit => stock_kept w0);
      [apply (push_results_stable _ Hstable)|]. intros ?.
    next (fun (_ : list (@FormattedItem num)) => stock_kept w0).
    { eapply triple_conseq;
        [apply (getAllItems_stable _ _ _ Hawait) | auto | | auto].
      intros r w [Hw _]. exact Hw. }
    intros localItems.
    next (fun (_ : gmap string EbayItem) => stock_kept w0).
    { unfold fetch_inventory. apply triple_try_catch with (E' := stock_kept w0).
      - next (fun (_ : EbayData) => stock_kept w0);
          [|intros ?; apply triple_ret; auto].
        eapply triple_conseq;
          [apply (getActiveListings_stable _ _ Hawait) | auto | | auto].
        intros r w [Hw _]. exact Hw.
      - intros msg. apply triple_ret. auto. }
    intros ebayInventory.
    next (fun _ : unit => stock_kept w0); [|intros ?; apply triple_gets; auto].
    apply triple_for_each. intros x _. unfold push_item.
    apply triple_try_catch with (E' := stock_kept w0);
      [|intros msg; apply (push_results_stable _ Hstable)].
    unfold push_body.
    next (fun (_ : option (@Item num)) => stock_kept w0).
    { eapply triple_conseq;
        [apply (getItem_stable _ _ Hawait) | auto | | auto].
      intros r w [Hw _]. exact Hw. }
    intros [fullItem|]; [|apply triple_ret; auto].
    destruct (ebayInventory !! _) as [ebayItem|].
    - destruct (_ && _); [apply (push_results_stable _ Hstable)|].
      apply Hsend. apply (push_results_stable _ Hstable).
    - apply Hsend. apply (push_results_stable _ Hstable). }
  assert (Hstart : stock_kept w0 w0).
  { intros k0. destruct (items w0 !! k0) as [item0|]; [|reflexivity].
    exists item0. auto. }
  specialize (Hrun w0 Hstart).
  destruct (pushToEbay num_zero parseFloat w0) as [w' [r|e]]; exact (Hrun k).
Qed.

(** ** Pull never restocks *)

(** Every record of [w0] is still there, with a quantity that is not
    negative and not above the one it had. *)
Local Abbreviation not_raised w0 :=
  (fun w : World =>
     forall k item0,
       items w0 !! k = Some item0 ->
       exists item,
         items w !! k = Some item /\ 0 <= currentQty item <= currentQty item0).

(** The quantity that [updates] is about to store is not negative, and
    not above the one of the record that was read. *)
Local Abbreviation lowers localItem :=
  (fun u : @Updates num =>
     forall q, u_currentQty u = Some q ->
       0 <= q /\ (0 <= currentQty localItem -> q <= currentQty localItem)).

(** The same, while the record under [k] has the quantity of the one
    that was read. *)
Local Abbreviation reading w0 k localItem :=
  (fun w : World =>
     not_raised w0 w
     /\ exists item,
          items w !! k = Some item /\ currentQty item = currentQty localItem).

Lemma not_raised_stable w0 : stable (not_raised w0).
Proof. intros w Hw. conj; repeat intro; eapply Hw; eassumption. Qed.

Lemma not_raised_insert w0 w k item (item' : @Item num) :
  not_raised w0 w -> items w !! k = Some item ->
  (0 <= currentQty item -> 0 <= currentQty item' <= currentQty item) ->
  not_raised w0 (set_items (insert k item') w).
Proof.
  intros Hw Hk Hle k0 item0 Hk0. simpl.
  destruct (decide (k0 = k)) as [->|Hne].
  - rewrite lookup_insert_eq. eexists. split; [reflexivity|].
    destruct (Hw k item0 Hk0) as (item1 & Hitem1 & Hb).
    assert (item1 = item) as -> by congruence. lia.
  - rewrite lookup_insert_ne by congruence. exact (Hw k0 item0 Hk0).
Qed.

Lemma not_raised_fresh w0 w k (item' : @Item num) :
  not_raised w0 w -> items w !! k = None ->
  not_raised w0 (set_items (insert k item') w).
Proof.
  intros Hw Hk k0 item0 Hk0. simpl.
  destruct (decide (k0 = k)) as [->|Hne].
  - destruct (Hw k item0 Hk0) as (item1 & Hitem1 & _). congruence.
  - rewrite lookup_insert_ne by congruence. exact (Hw k0 item0 Hk0).
Qed.

Lemma reading_await w0 k localItem :
  triple (reading w0 k localItem) await (fun _ => reading w0 k localItem)
    (not_raised w0).
Proof. apply triple_await. intros w Hw. split; [exact Hw | exact (proj1 Hw)]. Qed.

Lemma pull_change_lowers w0 k ebayItem localItem st change :
  lowers localItem st.1 ->
  triple (reading w0 k localItem)
    (pull_change num_zero parseFloat k ebayItem localItem st change)
    (fun (st' : @Updates num * list string) w =>
       lowers localItem st'.1 /\ reading w0 k localItem w)
    (not_raised w0).
Proof.
  destruct st as [u cf]. simpl. intros Hu. unfold pull_change.
  assert (Hret : forall u' cf',
            lowers localItem u' ->
            triple (reading w0 k localItem) (ret (u', cf'))
              (fun (st' : @Updates num * list string) w =>
       lowers localItem st'.1 /\ reading w0 k localItem w)
              (not_raised w0)).
  { intros u' cf' Hu'. apply triple_ret. auto. }
  destruct change as [|old new|old new|old new].
  - apply Hret. exact Hu.
  - destruct (negb _).
    + case_bool_decide as Hlt; [|apply Hret; exact Hu].
      next (fun (_ : Z) => reading w0 k localItem); [apply triple_gets; auto|].
      intros now.
      next (fun (_ : unit) => reading w0 k localItem).
      { unfold addHistory.
        next (fun (_ : unit) => reading w0 k localItem); [apply reading_await|].
        intros ?. apply triple_modify. intros w [Hw (item & Hitem & Hq)].
        rewrite Hitem. split.
        - apply (not_raised_insert w0 w k item _ Hw Hitem). simpl. lia.
        - simpl. rewrite lookup_insert_eq. eexists. split; [reflexivity|].
          exact Hq. }
      intros ?. apply triple_ret. intros w Hw. split; [|exact Hw].
      simpl. intros q [= <-]. lia.
    + destruct (negb _); apply Hret; exact Hu.
  - destruct (negb _); [apply Hret; exact Hu|].
    destruct (negb _); apply Hret; exact Hu.
  - destruct (negb _); [apply Hret; exact Hu|].
    destruct (negb _); apply Hret; exact Hu.
Qed.

Lemma pull_body_lowers w0 ebayItem :
  triple (not_raised w0) (pull_body num_zero parseFloat ebayItem)
    (fun _ => not_raised w0) (not_raised w0).
Proof.
  pose proof (not_raised_stable w0) as Hstable.
  assert (Hawait : triple (not_raised w0) await (fun _ => not_raised w0)
                     (not_raised w0)).
  { apply triple_await. intros w Hw. split; exact Hw. }
  unfold pull_body. fold (key_of ebayItem).
  next (fun (r : option (@Item num)) w =>
          not_raised w0 w /\ r = items w !! key_of ebayItem).
  { apply (getItem_stable _ _ Hawait). }
  intros [localItem|].
  - eapply triple_conseq with
      (P' := reading w0 (key_of ebayItem) localItem)
      (Q' := fun _ => not_raised w0) (E' := not_raised w0);
      [| intros w [Hw Hk]; split; [exact Hw | eauto] | auto | auto].
    case_bool_decide.
    { eapply triple_conseq;
        [apply (push_results_stable _ Hstable) | intros w Hw; exact (proj1 Hw)
         | intros ? w Hw; exact Hw | intros w Hw; exact Hw]. }
    next (fun (st : @Updates num * list string) w =>
            lowers localItem st.1 /\ reading w0 (key_of ebayItem) localItem w).
    { eapply triple_conseq with
        (P' := fun w => lowers localItem (@no_updates num, @nil string).1
                        /\ reading w0 (key_of ebayItem) localItem w);
        [| intros w Hw; split; [intros q [=] | exact Hw]
         | intros a w Hw; exact Hw | intros w Hw; exact Hw].
      apply (triple_for_fold
               (fun (st : @Updates num * list string) w =>
                  lowers localItem st.1
                  /\ reading w0 (key_of ebayItem) localItem w)).
      intros st c _. apply triple_pure. intros Hst.
      apply pull_change_lowers, Hst. }
    intros [updates changedFields]. apply triple_pure. simpl. intros Hu.
    destruct (has_keys updates).
    + next (fun (_ : Z) => reading w0 (key_of ebayItem) localItem);
        [apply triple_gets; auto|]. intros now.
      next (fun (_ : unit) => not_raised w0);
        [|intros ?; apply (push_results_stable _ Hstable)].
      unfold updateItem.
      next (fun (_ : unit) => reading w0 (key_of ebayItem) localItem);
        [apply reading_await|].
      intros ?. apply triple_modify. intros w [Hw (item & Hitem & Hq)].
      rewrite Hitem. apply (not_raised_insert w0 w _ item _ Hw Hitem). simpl.
      destruct (u_currentQty updates) as [q|] eqn:Hupd; simpl; [|lia].
      destruct (Hu q eq_refl). lia.
    + eapply triple_conseq;
        [apply (push_results_stable _ Hstable) | intros w Hw; exact (proj1 Hw)
         | intros ? w Hw; exact Hw | intros w Hw; exact Hw].
  - eapply triple_conseq with
      (P' := fun w => not_raised w0 w /\ items w !! key_of ebayItem = None)
      (Q' := fun _ => not_raised w0) (E' := not_raised w0);
      [| intros w [Hw Hk]; split; [exact Hw | auto] | auto | auto].
    next (fun (_ : Z) w =>
            not_raised w0 w /\ items w !! key_of ebayItem = None);
      [apply triple_gets; auto|]. intros now.
    next (fun (_ : unit) => not_raised w0);
      [|intros ?; apply (push_results_stable _ Hstable)].
    unfold createItem.
    next (fun (_ : unit) w =>
            not_raised w0 w /\ items w !! key_of ebayItem = None).
    { apply triple_await. intros w Hw. split; [exact Hw | exact (proj1 Hw)]. }
    intros ?. apply triple_modify. intros w [Hw Hk].
    apply not_raised_fresh; assumption.
Qed.

(** X9: In a store without negative quantities, pull never raises the
    quantity of a record: every record that was there is still there
    afterwards, with a quantity between zero and the one it had. *)
Theorem pull_never_raises_stock w0 k item0 :
  qty_ok w0 ->
  items w0 !! k = Some item0 ->
  exists item,
    items (pullFromEbay num_zero parseFloat w0).1 !! k = Some item
    /\ 0 <= currentQty item <= currentQty item0.
Proof.
  intros Hqty Hk.
  assert (Hrun : triple (not_raised w0) (pullFromEbay num_zero parseFloat)
                   (fun _ => not_raised w0) (not_raised w0)).
  { apply pullFromEbay_passes with (P := fun _ => True); auto.
    intros e _. apply pull_body_lowers. }
  assert (Hstart : not_raised w0 w0).
  { intros k1 item1 Hk1. exists item1. split; [exact Hk1|].
    specialize (Hqty k1 item1 Hk1). simpl in Hqty. lia. }
  specialize (Hrun w0 Hstart).
  destruct (pullFromEbay num_zero parseFloat w0) as [w' [r|e]];
    exact (Hrun k item0 Hk).
Qed.

End Passes.

(** * The routes *)

Section Routes.

Context {num : Type} `{EqDecision num}.
Variable num_zero : num.
Variable parseFloat : string -> option num.
Variable png : string -> string.
Variable positive : string -> bool.

Local Abbreviation World := (@World num).
Local Abbreviation M := (@M num).

Implicit Types (w : World).

Ltac conj := repeat match goal with |- _ /\ _ => split end.

(** One awaited call: it goes through or it rejects. *)
Ltac awaits :=
  match goal with
  | |- context [await ?w] =>
      let msg := fresh "msg" in
      let Ha := fresh "Ha" in
      destruct (await_cases w) as [Ha | [msg Ha]]; rewrite Ha; clear Ha
  end.

Lemma route_returns {A} (m : M (Response A)) w :
  exists w' r, route m w = (w', Ok r).
Proof. unfold route, try_catch. destruct (m w) as [w' [r|msg]]; eauto. Qed.

Lemma route_Json {A} (m : M (Response A)) w w' (body : A) :
  route m w = (w', Ok (Json body)) -> m w = (w', Ok (Json body)).
Proof.
  unfold route, try_catch. destruct (m w) as [w1 [r|msg]]; [auto | discriminate].
Qed.

(** ** The listings of the inventory *)

Lemma ebay_import_needs_sku (item : @FormattedItem num) :
  ebay_import item = true -> needs_sku item = true.
Proof.
  unfold ebay_import, needs_sku. rewrite str_or_self.
  intros [Hloc | [_ Hlen]%andb_true_iff]%orb_true_iff.
  - rewrite Hloc. apply orb_true_r.
  - apply orb_true_iff. left. apply negb_true_iff.
    unfold digits_only. apply andb_false_iff. left.
    apply bool_decide_eq_false_2. apply bool_decide_eq_true_1 in Hlen. lia.
Qed.

Lemma filter_sublist {A} (P Q : A -> bool) (l : list A) :
  (forall x, P x = true -> Q x = true) ->
  List.filter P l `sublist_of` List.filter Q l.
Proof.
  intros HPQ. induction l as [|x l IH]; simpl; [constructor|].
  destruct (P x) eqn:HP.
  - rewrite (HPQ x HP). by constructor.
  - destruct (Q x); [by constructor | exact IH].
Qed.

(** X10: Every item that the inventory route lists under the filter
    ebay-imports it also lists under the filter needs-sku, in the same
    order; and a record that pull creates from a listing passes both
    filters. *)
Theorem ebay_imports_are_listed_as_needing_sku w w1 w2 l1 l2 :
  inventory_route num_zero (Some "ebay-imports") w = (w1, Ok (Json l1)) ->
  inventory_route num_zero (Some "needs-sku") w = (w2, Ok (Json l2)) ->
  l1 `sublist_of` l2
  /\ forall ebayItem t,
       let item := formatItem num_zero
                     (createLocalItemFromEbay num_zero parseFloat ebayItem t) in
       ebay_import item = true /\ needs_sku item = true.
Proof.
  unfold inventory_route, route, try_catch, getAllItems, bind. awaits; simpl.
  - intros [= <- <-] [= <- <-]. split; [apply filter_sublist, ebay_import_needs_sku|].
    intros ebayItem t. split; [reflexivity|].
    apply ebay_import_needs_sku. reflexivity.
  - discriminate.
Qed.

(** ** Fresh item ids and free locations *)

(** The numbers below ten thousand, digit by digit. *)
Lemma four_digits :
  let digits := [0; 1; 2; 3; 4; 5; 6; 7; 8; 9] in
  forallb (fun a => forallb (fun b => forallb (fun c => forallb (fun d =>
    digits_only 4 (padStart 4 (pretty (1000 * a + 100 * b + 10 * c + d))))
    digits) digits) digits) digits = true.
Proof. vm_compute. reflexivity. Qed.

Lemma digit_in (d : Z) :
  0 <= d <= 9 -> In d [0; 1; 2; 3; 4; 5; 6; 7; 8; 9].
Proof.
  intros Hd.
  assert (d = 0 \/ d = 1 \/ d = 2 \/ d = 3 \/ d = 4 \/ d = 5 \/ d = 6
          \/ d = 7 \/ d = 8 \/ d = 9) as Hcases by lia.
  simpl. intuition auto.
Qed.

Lemma item_ids_digits id : id ∈ item_ids -> digits_only 4 id = true.
Proof.
  unfold item_ids. intros (i & -> & Hi)%list_elem_of_fmap.
  apply elem_of_seqZ in Hi.
  pose proof (Z.div_mod i 1000 ltac:(lia)) as H1.
  pose proof (Z.mod_pos_bound i 1000 ltac:(lia)) as B1.
  pose proof (Z.div_mod (i mod 1000) 100 ltac:(lia)) as H2.
  pose proof (Z.mod_pos_bound (i mod 1000) 100 ltac:(lia)) as B2.
  pose proof (Z.div_mod ((i mod 1000) mod 100) 10 ltac:(lia)) as H3.
  pose proof (Z.mod_pos_bound ((i mod 1000) mod 100) 10 ltac:(lia)) as B3.
  set (a := i / 1000) in *. set (r1 := i mod 1000) in *.
  set (b := r1 / 100) in *. set (r2 := r1 mod 100) in *.
  set (c := r2 / 10) in *. set (d := r2 mod 10) in *.
  replace i with (1000 * a + 100 * b + 10 * c + d) by lia.
  pose proof four_digits as Hall. cbv zeta in Hall.
  rewrite forallb_forall in Hall.
  specialize (Hall a (digit_in a ltac:(lia))).
  rewrite forallb_forall in Hall.
  specialize (Hall b (digit_in b ltac:(lia))).
  rewrite forallb_forall in Hall.
  specialize (Hall c (digit_in c ltac:(lia))).
  rewrite forallb_forall in Hall.
  exact (Hall d (digit_in d ltac:(lia))).
Qed.

Lemma drawers_digits :
  forallb (fun d : Z => digits_only 3 (padStart 3 (pretty d))) (seqZ 1 999) = true.
Proof. vm_compute. reflexivity. Qed.

Lemma positions_digits :
  forallb (fun p : Z => digits_only 2 (padStart 2 (pretty p))) (seqZ 1 99) = true.
Proof. vm_compute. reflexivity. Qed.

Lemma locations_digits (c : string * string) :
  c ∈ locations -> digits_only 3 c.1 = true /\ digits_only 2 c.2 = true.
Proof.
  unfold locations. intros (d & Hc & Hd)%list_elem_of_bind.
  apply list_elem_of_bind in Hc as (p & Hc & Hp).
  apply list_elem_of_singleton in Hc as ->. simpl.
  pose proof drawers_digits as Hds. pose proof positions_digits as Hps.
  rewrite forallb_forall in Hds, Hps.
  split; [apply Hds | apply Hps]; by apply list_elem_of_In.
Qed.

Lemma stored_values (f : @Item num -> string) w k item :
  items w !! k = Some item -> f item ∈ f <$> (map_to_list (items w)).*2.
Proof.
  intros Hk. apply list_elem_of_fmap_2.
  apply elem_of_map_to_list in Hk.
  apply (list_elem_of_fmap_2 snd) in Hk. exact Hk.
Qed.

Local Opaque item_ids locations.

Lemma next_item_id_cases w w' r :
  next_item_id_route w = (w', Ok r) ->
  items w' = items w
  /\ match r with
     | Json id =>
         digits_only 4 id = true
         /\ forall k item, items w !! k = Some item -> itemCode item <> id
     | Failed code _ =>
         code = 400 ->
         forall id, id ∈ item_ids ->
           exists k item, items w !! k = Some item /\ itemCode item = id
     | Beyond => False
     end.
Proof.
  unfold next_item_id_route, route, try_catch, getAllItemCodes, bind.
  awaits; unfold gets, ret; cbv beta iota.
  2: { intros [= <- <-]. split; [reflexivity | discriminate]. }
  destruct (list_find _ item_ids) as [[i id]|] eqn:Hfind;
    intros [= <- <-]; (split; [reflexivity|]).
  - apply list_find_Some in Hfind as (Hi & Hfresh & _). split.
    + apply item_ids_digits, list_elem_of_lookup. eauto.
    + intros k item Hk Heq. apply Hfresh. apply elem_of_list_to_set.
      rewrite <- Heq. apply (stored_values itemCode _ _ _ Hk).
  - intros _ id Hid. apply list_find_None in Hfind.
    rewrite Forall_forall in Hfind. specialize (Hfind id Hid).
    apply dec_stable in Hfind. apply elem_of_list_to_set in Hfind.
    apply list_elem_of_fmap in Hfind as (item & -> & Hitem).
    apply list_elem_of_fmap in Hitem as ([k item'] & -> & Hin).
    apply elem_of_map_to_list in Hin. eauto.
Qed.

(** X11: The next-item-id route changes no record. An id it answers has
    four digits and is the item code of no record; it answers 400 only
    when every id from 0001 to 9999 is the item code of a record. *)
Theorem next_item_id_is_fresh w w' r :
  next_item_id_route w = (w', Ok r) ->
  items w' = items w
  /\ match r with
     | Json id =>
         digits_only 4 id = true
         /\ forall k item, items w !! k = Some item -> itemCode item <> id
     | Failed code _ =>
         code = 400 ->
         forall id, id ∈ item_ids ->
           exists k item, items w !! k = Some item /\ itemCode item = id
     | Beyond => False
     end.
Proof. exact (next_item_id_cases w w' r). Qed.

Lemma append_inj_length (a b x y : string) :
  String.length a = String.length b -> a +:+ x = b +:+ y -> a = b /\ x = y.
Proof.
  revert b. induction a as [|c a IH]; intros [|c' b] Hlen Heq;
    try discriminate Hlen.
  - auto.
  - simpl in Heq. injection Heq as -> Heq. injection Hlen as Hlen.
    destruct (IH b Hlen Heq) as [-> ->]. auto.
Qed.

Lemma digits_only_length n s : digits_only n s = true -> String.length s = n.
Proof.
  unfold digits_only. intros [Hlen _]%andb_true_iff.
  by apply bool_decide_eq_true_1 in Hlen.
Qed.

Lemma next_location_cases w w' r :
  next_location_route w = (w', Ok r) ->
  items w' = items w
  /\ match r with
     | Json loc =>
         nextLocation loc = nl_drawer loc +:+ nl_position loc
         /\ digits_only 3 (nl_drawer loc) = true
         /\ digits_only 2 (nl_position loc) = true
         /\ (forall k item, items w !! k = Some item ->
               drawerNumber item +:+ positionNumber item <> nextLocation loc)
         /\ (well_located w ->
             forall k item, items w !! k = Some item ->
               fullLocation item
               <> nl_drawer loc +:+ "-" +:+ nl_position loc)
     | Failed code _ =>
         code = 400 ->
         forall c, c ∈ locations ->
           exists k item,
             items w !! k = Some item
             /\ drawerNumber item +:+ positionNumber item = c.1 +:+ c.2
     | Beyond => False
     end.
Proof.
  unfold next_location_route, route, try_catch, getAllLocations, bind.
  awaits; unfold gets, ret; cbv beta iota.
  2: { intros [= <- <-]. split; [reflexivity | discriminate]. }
  destruct (list_find _ locations) as [[i [d p]]|] eqn:Hfind;
    intros [= <- <-]; (split; [reflexivity|]).
  - apply list_find_Some in Hfind as (Hi & Hfresh & _).
    assert (Hin : (d, p) ∈ locations) by (apply list_elem_of_lookup; eauto).
    destruct (locations_digits _ Hin) as [Hd Hp].
    assert (Hfree : forall k item, items w !! k = Some item ->
              drawerNumber item +:+ positionNumber item <> d +:+ p).
    { intros k item Hk Heq. apply Hfresh. apply elem_of_list_to_set.
      cbn [fst snd]. rewrite <- Heq.
      apply (stored_values (fun i => drawerNumber i +:+ positionNumber i)
               _ _ _ Hk). }
    cbn [nextLocation nl_drawer nl_position].
    conj; [reflexivity | exact Hd | exact Hp | exact Hfree |].
    intros Hloc k item Hk Heq. apply (Hfree k item Hk).
    destruct (Hloc k item Hk) as [Hfull Hlen]. rewrite Hfull in Heq.
    apply append_inj_length in Heq as [-> Heq];
      [|rewrite Hlen; symmetry; by apply digits_only_length].
    apply (append_inj_length "-" "-") in Heq as [_ Heq]; [|reflexivity].
    by rewrite Heq.
  - intros _ c Hc. apply list_find_None in Hfind.
    rewrite Forall_forall in Hfind. specialize (Hfind c Hc).
    apply dec_stable in Hfind. apply elem_of_list_to_set in Hfind.
    apply list_elem_of_fmap in Hfind as (item & -> & Hitem).
    apply list_elem_of_fmap in Hitem as ([k item'] & -> & Hin).
    apply elem_of_map_to_list in Hin. eauto.
Qed.

(** X12: The next-location route changes no record. A location it
    answers is a drawer of three digits and a position of two digits
    that no record occupies; it answers 400 only when every one of the
    999 times 99 locations is occupied. *)
Theorem next_location_is_free w w' r :
  next_location_route w = (w', Ok r) ->
  items w' = items w
  /\ match r with
     | Json loc =>
         nextLocation loc = nl_drawer loc +:+ nl_position loc
         /\ digits_only 3 (nl_drawer loc) = true
         /\ digits_only 2 (nl_position loc) = true
         /\ (forall k item, items w !! k = Some item ->
               drawerNumber item +:+ positionNumber item <> nextLocation loc)
         /\ (well_located w ->
             forall k item, items w !! k = Some item ->
               fullLocation item
               <> nl_drawer loc +:+ "-" +:+ nl_position loc)
     | Failed code _ =>
         code = 400 ->
         forall c, c ∈ locations ->
           exists k item,
             items w !! k = Some item
             /\ drawerNumber item +:+ positionNumber item = c.1 +:+ c.2
     | Beyond => False
     end.
Proof. exact (next_location_cases w w' r). Qed.

(** When a location is free and no awaited call rejects, the route
    answers one. *)
Lemma next_location_answers w (c : string * string) :
  calm w ->
  c ∈ locations ->
  (forall k item, items w !! k = Some item ->
     drawerNumber item +:+ positionNumber item <> c.1 +:+ c.2) ->
  exists loc, @next_location_route num w = (step w, Ok (Json loc)).
Proof.
  intros Hcalm Hc Hfree.
  unfold next_location_route, route, try_catch, getAllLocations, bind.
  rewrite (proj1 (calm_await w Hcalm)). unfold gets, ret; cbv beta iota.
  destruct (list_find _ locations) as [[i [d p]]|] eqn:Hfind; [eauto|].
  exfalso. apply list_find_None in Hfind.
  rewrite Forall_forall in Hfind. specialize (Hfind c Hc).
  apply dec_stable in Hfind. apply elem_of_list_to_set in Hfind.
  apply list_elem_of_fmap in Hfind as (item & Heq & Hitem).
  apply list_elem_of_fmap in Hitem as ([k item'] & -> & Hin).
  apply elem_of_map_to_list in Hin. exact (Hfree k item' Hin (eq_sym Heq)).
Qed.

(** ** Deleting and renaming a record *)

(** X13: For a SKU that is not a name every JavaScript object inherits,
    the delete route always answers. When it answers the deleted item,
    that record was stored under the SKU and it alone was removed; when
    it answers an error no record changed, and 404 is answered only for
    a SKU that has no record. *)
Theorem delete_route_removes_one k w :
  own_key k ->
  exists w' r,
    delete_route k w = (w', Ok r)
    /\ match r with
       | Json (_, ref) =>
           exists item,
             items w !! k = Some item /\ ref = item_ref item
             /\ items w' = delete k (items w)
       | Failed code _ =>
           items w' = items w /\ (code = 404 -> items w !! k = None)
       | Beyond => False
       end.
Proof.
  intros _.
  unfold delete_route, route, try_catch, getItem, deleteItem, bind.
  awaits; unfold gets, ret, modify; cbv beta iota.
  2: { eexists _, _. split; [reflexivity|]. split; [reflexivity | discriminate]. }
  change (items (step w)) with (items w).
  destruct (items w !! k) as [item|] eqn:Hk.
  - awaits; cbv beta iota.
    + eexists _, _. split; [reflexivity|]. exists item. auto.
    + eexists _, _. split; [reflexivity|]. split; [reflexivity | discriminate].
  - eexists _, _. split; [reflexivity|]. split; [reflexivity | auto].
Qed.

Lemma change_sku_route_cases oldSku newSku description' w :
  exists w' r,
    change_sku_route num_zero png oldSku newSku description' w = (w', Ok r)
    /\ match r with
       | Json (_, formatted, _) =>
           exists oldItem t,
             let newItem :=
               change_sku_item oldSku newSku description' oldItem t in
             digits_only 9 newSku = true
             /\ items w !! oldSku = Some oldItem
             /\ items w !! newSku = None
             /\ items w' = delete oldSku (<[newSku := newItem]> (items w))
             /\ formatted = formatItem num_zero newItem
       | Failed code _ =>
           items w' = items w
           \/ (code = 500
               /\ exists oldItem t,
                    items w !! oldSku = Some oldItem
                    /\ items w'
                       = <[newSku := change_sku_item oldSku newSku description'
                                       oldItem t]> (items w))
       | Beyond => False
       end.
Proof.
  unfold change_sku_route, route, try_catch.
  destruct (bool_decide (newSku = "") || negb (digits_only 9 newSku)) eqn:Hvalid.
  { eexists _, _. split; [reflexivity|]. by left. }
  apply orb_false_iff in Hvalid as [_ Hdigits%negb_false_iff].
  unfold getItem, createItem, deleteItem, generateBarcode, try_catch, bind.
  awaits; unfold gets, ret, modify, newDate; cbv beta iota.
  2: { eexists _, _. split; [reflexivity|]. by left. }
  change (items (step w)) with (items w).
  destruct (items w !! oldSku) as [oldItem|] eqn:Hold.
  2: { eexists _, _. split; [reflexivity|]. by left. }
  awaits; unfold gets; cbv beta iota.
  2: { eexists _, _. split; [reflexivity|]. by left. }
  change (items (step (step w))) with (items w).
  destruct (items w !! newSku) as [existingItem|] eqn:Hnew.
  { eexists _, _. split; [reflexivity|]. by left. }
  awaits; cbv beta iota.
  2: { eexists _, _. split; [reflexivity|]. by left. }
  awaits; cbv beta iota.
  2: { eexists _, _. split; [reflexivity|]. right. split; [reflexivity|].
       exists oldItem, (clock (step (step w))). split; [reflexivity|]. reflexivity. }
  awaits; cbv beta iota;
    (eexists _, _; split; [reflexivity|];
     exists oldItem, (clock (step (step w))); conj; auto).
Qed.

(** A text of nine characters, taken apart the way the route does. *)
Lemma nine_characters (s : string) :
  String.length s = 9%nat ->
  s = substring 0 4 s +:+ substring 0 3 (substring_from 4 s)
      +:+ substring_from 3 (substring_from 4 s)
  /\ String.length (substring 0 4 s) = 4%nat
  /\ String.length (substring 0 3 (substring_from 4 s)) = 3%nat
  /\ String.length (substring_from 3 (substring_from 4 s)) = 2%nat.
Proof.
  intros Hlen.
  do 9 (destruct s as [|? s]; [discriminate Hlen|]).
  destruct s; [|discriminate Hlen]. repeat split.
Qed.

Lemma ledger_ok_insert k (item : @Item num) w :
  ledger_ok w ->
  match last (history item) with
  | Some entry => h_newTotal entry = currentQty item
  | None => True
  end ->
  ledger_ok (set_items (insert k item) w).
Proof. intros Hw Hitem. unfold ledger_ok. simpl. by apply map_Forall_insert_2. Qed.

Lemma ledger_ok_delete k w : @ledger_ok num w -> ledger_ok (set_items (delete k) w).
Proof. intros Hw. unfold ledger_ok. simpl. by apply map_Forall_delete. Qed.

(** X14: When the change-SKU route succeeds for an old SKU that is not a
    name every JavaScript object inherits, the record has moved from the
    old SKU to the new one, which was free: item code, drawer and
    position are the four, three and two characters of the new SKU,
    quantity and price are kept, and the history has one more entry,
    SKU_CHANGE of quantity 0. The ledger and the keying of the store are
    preserved. *)
Theorem change_sku_route_renames oldSku newSku description' w w' body :
  own_key oldSku ->
  change_sku_route num_zero png oldSku newSku description' w
  = (w', Ok (Json body)) ->
  exists oldItem newItem entry,
    items w !! oldSku = Some oldItem
    /\ items w !! newSku = None
    /\ items w' = delete oldSku (<[newSku := newItem]> (items w))
    /\ items w' !! oldSku = None
    /\ items w' !! newSku = Some newItem
    /\ sku newItem = newSku
    /\ newSku = itemCode newItem +:+ drawerNumber newItem
                +:+ positionNumber newItem
    /\ fullLocation newItem
       = drawerNumber newItem +:+ "-" +:+ positionNumber newItem
    /\ String.length (itemCode newItem) = 4%nat
    /\ String.length (drawerNumber newItem) = 3%nat
    /\ String.length (positionNumber newItem) = 2%nat
    /\ currentQty newItem = currentQty oldItem
    /\ price newItem = price oldItem
    /\ history newItem = (history oldItem ++ [entry])%list
    /\ h_action entry = "SKU_CHANGE" /\ h_qty entry = 0
    /\ h_newTotal entry = currentQty newItem
    /\ (ledger_ok w -> ledger_ok w')
    /\ (well_keyed w -> well_keyed w').
Proof.
  intros _ Hrun.
  destruct (change_sku_route_cases oldSku newSku description' w)
    as (w1 & r & Hrun' & Hr).
  rewrite Hrun in Hrun'. injection Hrun' as <- <-.
  destruct body as [[message formatted] barcode].
  destruct Hr as (oldItem & t & Hdigits & Hold & Hnew & Hitems & _).
  assert (Hne : oldSku <> newSku) by congruence.
  destruct (nine_characters newSku (digits_only_length _ _ Hdigits))
    as (Hparts & H4 & H3 & H2).
  eexists oldItem, _, _. split; [exact Hold|]. split; [exact Hnew|].
  split; [exact Hitems|].
  split; [rewrite Hitems; apply lookup_delete_eq|].
  split; [rewrite Hitems, lookup_delete_ne, lookup_insert_eq by exact Hne;
          reflexivity|].
  cbn [change_sku_item sku itemCode drawerNumber positionNumber fullLocation
       currentQty price history].
  conj; try reflexivity; try assumption.
  - intros Hw. unfold ledger_ok. rewrite Hitems.
    apply map_Forall_delete, map_Forall_insert_2; [|exact Hw].
    cbn [change_sku_item history currentQty]. rewrite last_snoc. reflexivity.
  - intros Hw. unfold well_keyed. rewrite Hitems.
    apply map_Forall_delete, map_Forall_insert_2; [reflexivity | exact Hw].
Qed.

(** X15: Whatever the change-SKU route answers for a stored record, also
    when an awaited call rejects midway, the record is afterwards stored
    under the old or the new SKU with its quantity and its earlier
    history, and no other record is touched. *)
Theorem change_sku_route_never_loses_the_record oldSku newSku description' w
    oldItem :
  items w !! oldSku = Some oldItem ->
  exists w' r,
    change_sku_route num_zero png oldSku newSku description' w = (w', Ok r)
    /\ (forall k, k <> oldSku -> k <> newSku -> items w' !! k = items w !! k)
    /\ exists k item',
         (k = oldSku \/ k = newSku)
         /\ items w' !! k = Some item'
         /\ currentQty item' = currentQty oldItem
         /\ history oldItem `prefix_of` history item'.
Proof.
  intros Hold.
  destruct (change_sku_route_cases oldSku newSku description' w)
    as (w' & r & Hrun & Hr).
  exists w', r. split; [exact Hrun|].
  destruct r as [[[message formatted] barcode] | code msg |]; [| |contradiction].
  - destruct Hr as (oldItem' & t & _ & Hold' & Hnew & Hitems & _).
    assert (oldItem' = oldItem) as -> by congruence.
    assert (Hne : oldSku <> newSku) by congruence.
    split.
    + intros k Hk1 Hk2. rewrite Hitems.
      rewrite lookup_delete_ne, lookup_insert_ne by congruence. reflexivity.
    + eexists newSku, _. split; [by right|].
      split; [rewrite Hitems, lookup_delete_ne, lookup_insert_eq by exact Hne;
              reflexivity|].
      split; [reflexivity|]. cbn [change_sku_item history]. by eexists.
  - destruct Hr as [Hitems | (_ & oldItem' & t & Hold' & Hitems)].
    + split; [intros; by rewrite Hitems|].
      exists oldSku, oldItem. rewrite Hitems. auto.
    + assert (oldItem' = oldItem) as -> by congruence.
      split; [intros k _ Hk; rewrite Hitems; by rewrite lookup_insert_ne|].
      eexists newSku, _. split; [by right|].
      split; [rewrite Hitems; apply lookup_insert_eq|].
      split; [reflexivity|]. cbn [change_sku_item history]. by eexists.
Qed.

(** ** Adjusting a record *)

(** X16: When the update route succeeds for a SKU that is not a name
    every JavaScript object inherits, and the quantity of the request,
    if any, and its difference from the stored quantity are integers
    that a JavaScript number holds exactly, the record holds the
    quantity, price and description of the request where the request
    gives one and the old ones elsewhere; a quantity adds one history
    entry, ADJUST_UP or ADJUST_DOWN with the difference and the new
    total; the answer shows the stored record. *)
Theorem adjust_route_sets_the_record k req w w' body :
  own_key k ->
  (forall q item,
     q_quantity req = Some q -> items w !! k = Some item ->
     exact q /\ exact (q - currentQty item)) ->
  adjust_route num_zero k req w = (w', Ok (Json body)) ->
  exists item item',
    items w !! k = Some item
    /\ items w' = <[k := item']> (items w)
    /\ body.2 = formatItem num_zero item'
    /\ currentQty item' = default (currentQty item) (q_quantity req)
    /\ price item' = default (price item) (q_price req)
    /\ description item' = default (description item) (q_description req)
    /\ match q_quantity req with
       | Some q =>
           exists entry,
             history item' = (history item ++ [entry])%list
             /\ h_action entry
                = (if bool_decide (currentQty item <= q) then "ADJUST_UP"
                   else "ADJUST_DOWN")
             /\ h_qty entry = q - currentQty item
             /\ h_newTotal entry = q
       | None => history item' = history item
       end
    /\ (ledger_ok w -> ledger_ok w').
Proof.
  intros _ _ Hrun. apply route_Json in Hrun. unfold adjust_route in Hrun.
  apply bind_Ok in Hrun as (r & w1 & Hget & Hrun).
  apply getItem_Ok in Hget as [-> ->].
  destruct (items w !! k) as [item|] eqn:Hk; [|discriminate].
  apply bind_Ok in Hrun as (u & w2 & Hhist & Hrun).
  apply bind_Ok in Hrun as (? & w3 & Hupd & Hrun).
  apply bind_Ok in Hrun as (updated & w4 & Hread & Hrun).
  apply updateItem_Ok in Hupd. apply gets_Ok in Hread as [-> ->].
  destruct req as [[q|] p d]; cbn [q_quantity q_price q_description] in *.
  - (* the quantity is adjusted *)
    apply bind_Ok in Hhist as (now & w5 & Hnow & Hhist).
    apply gets_Ok in Hnow as [-> ->].
    apply bind_Ok in Hhist as (? & w6 & Hadd & Hret).
    apply addHistory_Ok in Hadd. apply ret_Ok in Hret as [-> ->].
    change (items (step w)) with (items w) in Hadd. rewrite Hk in Hadd.
    subst w6. cbn [items set_items step] in Hupd.
    rewrite lookup_insert_eq in Hupd. subst w3.
    cbn [items set_items step] in Hrun. rewrite lookup_insert_eq in Hrun.
    apply ret_Ok in Hrun as [-> [= ->]].
    eexists item, _. split; [reflexivity|].
    split; [cbn [items set_items step]; by rewrite insert_insert_eq|].
    split; [reflexivity|].
    split; [destruct p, d; reflexivity|].
    split; [destruct p, d; reflexivity|].
    split; [destruct p, d; reflexivity|].
    split.
    + eexists. split; [destruct p, d; reflexivity|]. cbn [h_action h_qty h_newTotal].
      split; [|auto]. repeat case_bool_decide; (reflexivity || lia).
    + intros Hw. unfold ledger_ok. cbn [items set_items step].
      rewrite insert_insert_eq. apply map_Forall_insert_2; [|exact Hw].
      destruct p, d; cbn; rewrite last_snoc; reflexivity.
  - (* the quantity is left alone *)
    apply ret_Ok in Hhist as [-> ->].
    change (items (step w)) with (items w) in Hupd. rewrite Hk in Hupd.
    subst w3. cbn [items set_items step] in Hrun.
    rewrite lookup_insert_eq in Hrun. apply ret_Ok in Hrun as [-> [= ->]].
    eexists item, _. split; [reflexivity|].
    split; [reflexivity|]. split; [reflexivity|].
    split; [destruct p, d; reflexivity|].
    split; [destruct p, d; reflexivity|].
    split; [destruct p, d; reflexivity|].
    split; [destruct p, d; reflexivity|].
    intros Hw. unfold ledger_ok. cbn [items set_items step].
    apply map_Forall_insert_2; [|exact Hw].
    specialize (Hw k item Hk). destruct p, d; exact Hw.
Qed.

(** ** Sending one record to eBay *)

(** X17: When the route that syncs one item succeeds, one inventory
    update with the SKU and the quantity of the record was sent to eBay,
    and the history of the record has one more entry, EBAY_SYNC of
    quantity 0 with the unchanged total. *)
Theorem sync_item_route_sends_the_record k w w' message :
  sync_item_route num_zero k w = (w', Ok (Json message)) ->
  exists item entry data,
    items w !! k = Some item
    /\ items w' = <[k := push_history entry item]> (items w)
    /\ h_action entry = "EBAY_SYNC" /\ h_qty entry = 0
    /\ h_newTotal entry = currentQty item
    /\ sent w' = data :: sent w
    /\ r_sku data = sku item /\ r_quantity data = currentQty item
    /\ (ledger_ok w -> ledger_ok w').
Proof.
  intros Hrun. apply route_Json in Hrun. unfold sync_item_route in Hrun.
  apply bind_Ok in Hrun as (r & w1 & Hget & Hrun).
  apply getItem_Ok in Hget as [-> ->].
  destruct (items w !! k) as [item|] eqn:Hk; [|discriminate].
  apply bind_Ok in Hrun as (? & w2 & Hsync & Hrun).
  apply bind_Ok in Hrun as (now & w3 & Hnow & Hrun).
  apply gets_Ok in Hnow as [-> ->].
  apply bind_Ok in Hrun as (? & w4 & Hadd & Hret).
  apply syncItemToEbay_sent in Hsync as (Hitems & data & Hsent & Hsku & Hqty).
  apply addHistory_Ok in Hadd. apply ret_Ok in Hret as [-> _].
  rewrite Hitems in Hadd. change (items (step w)) with (items w) in Hadd.
  rewrite Hk in Hadd. subst w4.
  eexists item, _, data. split; [reflexivity|].
  cbn [items sent set_items step]. rewrite Hitems.
  conj; try reflexivity; try assumption.
  intros Hw. unfold ledger_ok. cbn [items sent set_items step]. rewrite Hitems.
  apply map_Forall_insert_2; [|exact Hw].
  cbn [push_history history currentQty]. rewrite last_snoc. reflexivity.
Qed.

(** ** Adding stock *)

Lemma find_stored_None (P : @Item num -> Prop) `{!forall i, Decision (P i)} w :
  snd <$> list_find P (map_to_list (items w)).*2 = None ->
  forall k item, items w !! k = Some item -> ~ P item.
Proof.
  intros Hnone k item Hk.
  destruct (list_find P _) as [[i x]|] eqn:Hfind; [discriminate|].
  apply list_find_None in Hfind. rewrite Forall_forall in Hfind.
  apply Hfind. apply elem_of_map_to_list in Hk.
  apply (list_elem_of_fmap_2 snd) in Hk. exact Hk.
Qed.

Lemma find_stored_Some (P : @Item num -> Prop) `{!forall i, Decision (P i)} w
    item :
  snd <$> list_find P (map_to_list (items w)).*2 = Some item ->
  P item /\ exists k, items w !! k = Some item.
Proof.
  destruct (list_find P _) as [[i x]|] eqn:Hfind; [|discriminate].
  intros [= ->]. apply list_find_Some in Hfind as (Hi & HP & _).
  split; [exact HP|].
  apply list_elem_of_lookup_2 in Hi.
  apply list_elem_of_fmap in Hi as ([k item'] & -> & Hin).
  apply elem_of_map_to_list in Hin. eauto.
Qed.

Lemma getItemByCode_Ok code w w' r :
  @getItemByCode num code w = (w', Ok r) ->
  w' = step w
  /\ r = snd <$> list_find (fun i => itemCode i = code)
                   (map_to_list (items w)).*2.
Proof.
  unfold getItemByCode. intros (u & w1 & Ha & Hg)%bind_Ok.
  apply await_Ok in Ha. apply gets_Ok in Hg. subst. auto.
Qed.

Lemma getItemByLocation_Ok location w w' r :
  @getItemByLocation num location w = (w', Ok r) ->
  w' = step w
  /\ r = snd <$> list_find (fun i => fullLocation i = location)
                   (map_to_list (items w)).*2.
Proof.
  unfold getItemByLocation. intros (u & w1 & Ha & Hg)%bind_Ok.
  apply await_Ok in Ha. apply gets_Ok in Hg. subst. auto.
Qed.

Lemma generateBarcode_Ok text w w' (b : option string) :
  generateBarcode png text w = (w', Ok b) -> w' = step w.
Proof.
  unfold generateBarcode, try_catch, bind.
  destruct (await_cases w) as [-> | [msg ->]]; intros [= <- _]; reflexivity.
Qed.

Lemma add_route_created req w w' added :
  (forall k item, items w !! k = Some item -> itemCode item <> a_itemId req) ->
  add_route num_zero parseFloat png positive req w = (w', Ok (Json added)) ->
  let drawer := padStart 3 (a_drawer req) in
  let position := padStart 2 (a_position req) in
  let key := a_itemId req +:+ drawer +:+ position in
  exists q newItem entry,
    parseInt (a_quantity req) = Some q
    /\ digits_only 4 (a_itemId req) = true
    /\ (forall k item, items w !! k = Some item ->
          fullLocation item <> drawer +:+ "-" +:+ position)
    /\ items w' = <[key := newItem]> (items w)
    /\ sku newItem = key
    /\ itemCode newItem = a_itemId req
    /\ drawerNumber newItem = drawer
    /\ positionNumber newItem = position
    /\ fullLocation newItem = drawer +:+ "-" +:+ position
    /\ currentQty newItem = q
    /\ history newItem = [entry]
    /\ h_action entry = "CREATE" /\ h_qty entry = q /\ h_newTotal entry = q
    /\ ad_SKU added = key /\ ad_Quantity added = q
    /\ (ledger_ok w -> ledger_ok w')
    /\ (well_keyed w -> well_keyed w').
Proof.
  intros Hfresh Hrun drawer position key. apply route_Json in Hrun.
  unfold add_route in Hrun.
  destruct (_ || _); [discriminate|].
  destruct (digits_only 4 (a_itemId req)) eqn:Hdigits; [|discriminate].
  cbn [negb] in Hrun.
  destruct (parseInt (a_quantity req)) as [q|] eqn:Hq; [|discriminate].
  apply bind_Ok in Hrun as (r & w1 & Hcode & Hrun).
  apply getItemByCode_Ok in Hcode as [-> ->].
  destruct (snd <$> list_find _ _) as [existing|] eqn:Hfind.
  { apply find_stored_Some in Hfind as (Hcode & k & Hk).
    destruct (Hfresh k existing Hk Hcode). }
  clear Hfind.
  apply bind_Ok in Hrun as (r & w2 & Hloc & Hrun).
  apply getItemByLocation_Ok in Hloc as [-> ->].
  destruct (snd <$> list_find _ _) as [other|] eqn:Hfind2; [discriminate|].
  change (items (step w)) with (items w) in Hfind2.
  apply bind_Ok in Hrun as (now & w3 & Hnow & Hrun).
  apply gets_Ok in Hnow as [-> ->].
  apply bind_Ok in Hrun as (? & w4 & Hcreate & Hrun).
  apply createItem_Ok in Hcreate.
  apply bind_Ok in Hrun as (barcode & w5 & Hbar & Hret).
  apply generateBarcode_Ok in Hbar. apply ret_Ok in Hret as [-> [= ->]].
  subst w5 w4. eexists q, _, _.
  cbn [items set_items step sku itemCode drawerNumber positionNumber
       fullLocation currentQty history h_action h_qty h_newTotal
       ad_SKU ad_Quantity].
  conj; try reflexivity.
  - intros k item Hk. exact (find_stored_None _ _ Hfind2 k item Hk).
  - intros Hw. unfold ledger_ok. cbn [items set_items step].
    apply map_Forall_insert_2; [reflexivity | exact Hw].
  - intros Hw. unfold well_keyed. cbn [items set_items step].
    apply map_Forall_insert_2; [reflexivity | exact Hw].
Qed.

(** X18: When the add route succeeds for an item id that a record
    already has, with a quantity text that parseInt reads as an integer,
    that integer and the sum being numbers JavaScript holds exactly, it
    creates no record: the quantity of the request is added to that
    record, whatever drawer and position the request names, with one
    history entry ADD, and the answer reports the SKU and the new
    quantity of that record. *)
Theorem add_route_adds_to_the_existing_record req w w' added q :
  well_keyed w ->
  parseInt (a_quantity req) = Some q ->
  exact q ->
  (forall k existing,
     items w !! k = Some existing -> itemCode existing = a_itemId req ->
     exact (currentQty existing + q)) ->
  (exists k existing,
     items w !! k = Some existing /\ itemCode existing = a_itemId req) ->
  add_route num_zero parseFloat png positive req w = (w', Ok (Json added)) ->
  exists k existing item' entry,
    items w !! k = Some existing
    /\ itemCode existing = a_itemId req
    /\ items w' = <[k := item']> (items w)
    /\ sku item' = k
    /\ currentQty item' = currentQty existing + q
    /\ description item'
       = (if decide (a_description req = "") then description existing
          else a_description req)
    /\ history item' = (history existing ++ [entry])%list
    /\ h_action entry = "ADD" /\ h_qty entry = q
    /\ h_newTotal entry = currentQty item'
    /\ ad_SKU added = k /\ ad_Quantity added = currentQty item'
    /\ (ledger_ok w -> ledger_ok w')
    /\ well_keyed w'.
Proof.
  intros Hkeyed Hq _ _ (k0 & existing0 & Hk0 & Hcode0) Hrun.
  apply route_Json in Hrun. unfold add_route in Hrun.
  destruct (_ || _); [discriminate|].
  destruct (digits_only 4 (a_itemId req)) eqn:Hdigits; [|discriminate].
  cbn [negb] in Hrun. rewrite Hq in Hrun.
  apply bind_Ok in Hrun as (r & w1 & Hcode & Hrun).
  apply getItemByCode_Ok in Hcode as [-> ->].
  destruct (snd <$> list_find _ _) as [existing|] eqn:Hfind.
  2: { destruct (find_stored_None _ _ Hfind k0 existing0 Hk0 Hcode0). }
  apply find_stored_Some in Hfind as (Hcode & k & Hk).
  pose proof (Hkeyed k existing Hk) as Hsku. cbn beta in Hsku.
  match type of Hrun with
  | match ?priced with Some _ => _ | None => _ end _ = _ =>
      destruct priced as [updates|] eqn:Hpriced; [|discriminate]
  end.
  apply bind_Ok in Hrun as (? & w2 & Hupd & Hrun).
  apply updateItem_Ok in Hupd.
  apply bind_Ok in Hrun as (now & w3 & Hnow & Hrun).
  apply gets_Ok in Hnow as [-> ->].
  apply bind_Ok in Hrun as (? & w4 & Hadd & Hrun).
  apply addHistory_Ok in Hadd.
  apply bind_Ok in Hrun as (barcode & w5 & Hbar & Hret).
  apply generateBarcode_Ok in Hbar. apply ret_Ok in Hret as [-> [= ->]].
  rewrite Hsku in *. change (items (step w)) with (items w) in Hupd.
  rewrite Hk in Hupd. subst w2. cbn [items set_items step] in Hadd.
  rewrite lookup_insert_eq in Hadd. subst w5 w4.
  assert (Hqty : u_currentQty updates = Some (currentQty existing + q)
                 /\ u_description updates
                    = (if decide (a_description req = "") then None
                       else Some (a_description req))).
  { destruct (positive (a_price req)).
    - destruct (parseFloat (a_price req)); [|discriminate].
      injection Hpriced as <-. case_decide; auto.
    - injection Hpriced as <-. case_decide; auto. }
  destruct Hqty as [Hqty Hdesc].
  eexists k, existing, (push_history _ (assign existing updates _)), _.
  cbn [items set_items step push_history assign sku currentQty description
       history h_action h_qty h_newTotal ad_SKU ad_Quantity].
  rewrite Hqty, Hdesc.
  conj; try reflexivity; try assumption.
  - by rewrite insert_insert_eq.
  - by case_decide.
  - reflexivity.
  - reflexivity.
  - reflexivity.
  - intros Hw. unfold ledger_ok. cbn [items set_items step].
    rewrite insert_insert_eq. apply map_Forall_insert_2; [|exact Hw].
    cbn [push_history assign history currentQty].
    rewrite last_snoc, Hqty. reflexivity.
  - unfold well_keyed. cbn [items set_items step].
    rewrite insert_insert_eq. apply map_Forall_insert_2; [exact Hsku | exact Hkeyed].
Qed.

(** X19: When the add route succeeds for an item id that no record has,
    with a quantity text that parseInt reads as an integer that a
    JavaScript number holds exactly, it has created one record under the
    SKU made of the id, the drawer padded to three and the position
    padded to two characters, at a location that no record had, with the
    quantity of the request and the single history entry CREATE. *)
Theorem add_route_creates req w w' added q :
  parseInt (a_quantity req) = Some q ->
  exact q ->
  (forall k item, items w !! k = Some item -> itemCode item <> a_itemId req) ->
  add_route num_zero parseFloat png positive req w = (w', Ok (Json added)) ->
  let drawer := padStart 3 (a_drawer req) in
  let position := padStart 2 (a_position req) in
  let key := a_itemId req +:+ drawer +:+ position in
  exists newItem entry,
    digits_only 4 (a_itemId req) = true
    /\ (forall k item, items w !! k = Some item ->
          fullLocation item <> drawer +:+ "-" +:+ position)
    /\ items w' = <[key := newItem]> (items w)
    /\ sku newItem = key
    /\ itemCode newItem = a_itemId req
    /\ drawerNumber newItem = drawer
    /\ positionNumber newItem = position
    /\ fullLocation newItem = drawer +:+ "-" +:+ position
    /\ currentQty newItem = q
    /\ history newItem = [entry]
    /\ h_action entry = "CREATE" /\ h_qty entry = q /\ h_newTotal entry = q
    /\ ad_SKU added = key /\ ad_Quantity added = q
    /\ (ledger_ok w -> ledger_ok w')
    /\ (well_keyed w -> well_keyed w').
Proof.
  intros Hq _ Hfresh Hrun drawer position key.
  destruct (add_route_created req w w' added Hfresh Hrun)
    as (q' & newItem & entry & Hq' & Hrest).
  assert (q' = q) as -> by congruence.
  exists newItem, entry. exact Hrest.
Qed.

(** ** A SKU, built and read *)

Lemma length_append (a b : string) :
  String.length (a +:+ b) = (String.length a + String.length b)%nat.
Proof. induction a as [|c a IH]; simpl; [reflexivity | by rewrite IH]. Qed.

Lemma length_zeros m : String.length (String.concat "" (replicate m "0")) = m.
Proof.
  induction m as [|m IH]; [reflexivity|].
  destruct m as [|m]; [reflexivity|].
  change (replicate (S (S m)) "0") with ("0" :: replicate (S m) "0").
  change (String.concat "" ("0" :: replicate (S m) "0"))
    with ("0" +:+ "" +:+ String.concat "" (replicate (S m) "0")).
  rewrite !length_append, IH. reflexivity.
Qed.

Lemma padStart_length n s :
  (String.length s <= n)%nat -> String.length (padStart n s) = n.
Proof.
  intros Hlen. unfold padStart. rewrite length_append, length_zeros. lia.
Qed.

Lemma sku_parts (a b c : string) :
  String.length a = 4%nat -> String.length b = 3%nat ->
  String.length c = 2%nat ->
  substring 0 4 (a +:+ b +:+ c) = a
  /\ substring 0 3 (substring_from 4 (a +:+ b +:+ c)) = b
  /\ substring_from 3 (substring_from 4 (a +:+ b +:+ c)) = c.
Proof.
  intros Ha Hb Hc.
  do 4 (destruct a as [|? a]; [discriminate Ha|]).
  destruct a; [|discriminate Ha].
  do 3 (destruct b as [|? b]; [discriminate Hb|]).
  destruct b; [|discriminate Hb].
  do 2 (destruct c as [|? c]; [discriminate Hc|]).
  destruct c; [|discriminate Hc].
  repeat split.
Qed.

(** X20: A record that the add route creates from a drawer of at most
    three and a position of at most two characters has a SKU from which
    the change-SKU route reads back the same item code, drawer, position
    and location. *)
Theorem sku_is_read_as_it_was_built req w w' added :
  (forall k item, items w !! k = Some item -> itemCode item <> a_itemId req) ->
  (String.length (a_drawer req) <= 3)%nat ->
  (String.length (a_position req) <= 2)%nat ->
  add_route num_zero parseFloat png positive req w = (w', Ok (Json added)) ->
  exists newItem,
    items w' !! ad_SKU added = Some newItem
    /\ forall oldSku description' t,
         let renamed :=
           change_sku_item oldSku (sku newItem) description' newItem t in
         itemCode renamed = itemCode newItem
         /\ drawerNumber renamed = drawerNumber newItem
         /\ positionNumber renamed = positionNumber newItem
         /\ fullLocation renamed = fullLocation newItem.
Proof.
  intros Hfresh Hdrawer Hposition Hrun.
  destruct (add_route_created req w w' added Hfresh Hrun)
    as (q & newItem & entry & _ & Hdigits & _ & Hitems & Hsku & Hcode & Hd & Hp
        & Hloc & _ & _ & _ & _ & _ & Hadded & _).
  exists newItem. split; [rewrite Hitems, Hadded; apply lookup_insert_eq|].
  intros oldSku description' t. cbn zeta.
  cbn [change_sku_item itemCode drawerNumber positionNumber fullLocation].
  rewrite Hsku, Hcode, Hd, Hp, Hloc.
  destruct (sku_parts (a_itemId req) (padStart 3 (a_drawer req))
              (padStart 2 (a_position req)))
    as (-> & -> & ->);
    [by apply digits_only_length | by apply padStart_length
     | by apply padStart_length |].
  auto.
Qed.

(** ** The form of the client: a proposed id at a proposed location *)

Lemma padStart_full n s : String.length s = n -> padStart n s = s.
Proof. intros <-. unfold padStart. rewrite Nat.sub_diag. reflexivity. Qed.

Lemma find_stored_nothing (P : @Item num -> Prop) `{!forall i, Decision (P i)}
    w :
  (forall k item, items w !! k = Some item -> ~ P item) ->
  snd <$> list_find P (map_to_list (items w)).*2 = None.
Proof.
  intros Hnone.
  destruct (snd <$> list_find P _) as [item|] eqn:Hfind; [|reflexivity].
  apply find_stored_Some in Hfind as (HP & k & Hk).
  destruct (Hnone k item Hk HP).
Qed.

Lemma digits_only_not_empty n s : digits_only (S n) s = true -> s <> "".
Proof. intros Hlen%digits_only_length ->. discriminate Hlen. Qed.

(** X27: In a store where the location of every record is its drawer, on
    three characters, and its position: when the next-item-id route has
    answered an id and the next-location route a location, and no
    awaited call rejects, the add route accepts a request for that id at
    that drawer and position with a quantity text that parseInt reads as
    an integer that a JavaScript number holds exactly, and creates the
    record under the SKU made of the id and the location, with that
    quantity. *)
Theorem proposed_id_and_location_are_accepted w w1 w2 id loc req q :
  well_located w ->
  next_item_id_route w = (w1, Ok (Json id)) ->
  next_location_route w1 = (w2, Ok (Json loc)) ->
  calm w2 ->
  a_itemId req = id ->
  a_drawer req = nl_drawer loc ->
  a_position req = nl_position loc ->
  parseInt (a_quantity req) = Some q ->
  exact q ->
  exists w3 added newItem,
    add_route num_zero parseFloat png positive req w2 = (w3, Ok (Json added))
    /\ ad_SKU added = id +:+ nextLocation loc
    /\ ad_Quantity added = q
    /\ items w3 = <[ad_SKU added := newItem]> (items w)
    /\ itemCode newItem = id
    /\ fullLocation newItem = nl_drawer loc +:+ "-" +:+ nl_position loc
    /\ currentQty newItem = q.
Proof.
  intros Hlocated Hid Hnl Hcalm Ha Hd Hp Hq _.
  destruct (next_item_id_cases _ _ _ Hid) as (Hitems1 & Hdigits & Hfresh).
  destruct (next_location_cases _ _ _ Hnl)
    as (Hitems2 & Hnext & Hd3 & Hd2 & _ & Hfree).
  assert (Hitems : items w2 = items w) by congruence.
  assert (Hcode : forall k item, items w2 !! k = Some item ->
            ~ itemCode item = id).
  { rewrite Hitems. exact Hfresh. }
  assert (Hplace : forall k item, items (step w2) !! k = Some item ->
            ~ fullLocation item = nl_drawer loc +:+ "-" +:+ nl_position loc).
  { change (items (step w2)) with (items w2). rewrite Hitems2. apply Hfree.
    unfold well_located. rewrite Hitems1. exact Hlocated. }
  destruct (calm_await w2 Hcalm) as [Ha1 Hcalm1].
  destruct (calm_await (step w2) Hcalm1) as [Ha2 Hcalm2].
  destruct (calm_await (step (step w2)) Hcalm2) as [Ha3 Hcalm3].
  unfold add_route, route, try_catch.
  rewrite Ha, Hd, Hp, Hq, Hdigits.
  rewrite (bool_decide_eq_false_2 (id = ""))
    by exact (digits_only_not_empty _ _ Hdigits).
  rewrite (bool_decide_eq_false_2 (nl_drawer loc = ""))
    by exact (digits_only_not_empty _ _ Hd3).
  rewrite (bool_decide_eq_false_2 (nl_position loc = ""))
    by exact (digits_only_not_empty _ _ Hd2).
  cbn [orb negb].
  rewrite (padStart_full 3 (nl_drawer loc)) by exact (digits_only_length _ _ Hd3).
  rewrite (padStart_full 2 (nl_position loc))
    by exact (digits_only_length _ _ Hd2).
  unfold bind at 1. unfold getItemByCode at 1. unfold bind at 1.
  rewrite Ha1. unfold gets at 1. cbv beta iota.
  rewrite (find_stored_nothing _ _ Hcode).
  unfold bind at 1. unfold getItemByLocation at 1. unfold bind at 1.
  rewrite Ha2. unfold gets at 1. cbv beta iota.
  rewrite (find_stored_nothing _ _ Hplace).
  unfold bind at 1. unfold newDate, gets at 1. cbv beta iota.
  unfold bind at 1. unfold createItem at 1. unfold bind at 1.
  rewrite Ha3. unfold modify at 1. cbv beta iota.
  unfold bind at 1. unfold generateBarcode, try_catch, bind.
  match goal with
  | |- context [await ?w0] =>
      destruct (await_cases w0) as [Hb | [msg Hb]]; rewrite Hb
  end;
    unfold ret; cbv beta iota;
    (eexists _, _, _; split; [reflexivity|]);
    cbn [ad_SKU ad_Quantity items set_items step sku itemCode fullLocation
         currentQty];
    rewrite Hnext, Hitems; conj; reflexivity.
Qed.

(** ** Accounts *)

Lemma hasValidToken_truthy (acc : Account) accounts now id :
  accounts !! id = Some acc ->
  truthy (hasValidToken acc now) = isAccountAuthenticated accounts now id.
Proof.
  intros Hacc. unfold isAccountAuthenticated, getAccount, hasValidToken.
  rewrite Hacc. destruct (acc_tokens acc) as [tokens|]; [|reflexivity].
  unfold text_set. destruct (access_token tokens) as [s|]; [|reflexivity].
  case_decide as Hs.
  - subst s. reflexivity.
  - rewrite (bool_decide_eq_false_2 (s = "")) by exact Hs. cbn [negb truthy].
    destruct (number_set (expires_at tokens)); cbn [negb orb andb].
    + repeat case_bool_decide; (reflexivity || lia).
    + reflexivity.
Qed.

(** X21: For every account in the list of accounts, the flag
    hasValidToken is truthy exactly when isAccountAuthenticated accepts
    the account at the same instant. *)
Theorem listed_token_flag_agrees_with_authentication accounts now entry :
  entry ∈ getAllAccounts accounts now ->
  truthy (entry_hasValidToken entry)
  = isAccountAuthenticated accounts now (entry_id entry).
Proof.
  unfold getAllAccounts.
  intros ([id acc] & -> & Hin)%list_elem_of_fmap.
  apply elem_of_map_to_list in Hin. cbn [entry_hasValidToken entry_id].
  by apply hasValidToken_truthy.
Qed.

(** X22: Saving account data that carries no tokens changes the
    authentication of no account. *)
Theorem saving_without_tokens_keeps_authentication accounts id data now id' :
  s_tokens data = None ->
  isAccountAuthenticated (saveAccount accounts id data) now id'
  = isAccountAuthenticated accounts now id'.
Proof.
  intros Hdata. unfold isAccountAuthenticated, getAccount, saveAccount.
  destruct (decide (id' = id)) as [->|Hne].
  - rewrite lookup_insert_eq. cbn [merge_account acc_tokens]. rewrite Hdata.
    destruct (accounts !! id) as [acc|]; reflexivity.
  - rewrite lookup_insert_ne by congruence. reflexivity.
Qed.

(** X28: Saving, under an id that is not a name every JavaScript object
    inherits, tokens that have a non-empty access token and no expiry,
    or an expiry still to come, makes the account authenticated;
    removing the account then reports that it was there, leaves it
    unauthenticated and changes the authentication of no other account. *)
Theorem saved_tokens_authenticate_until_removed accounts id data tokens token
    now :
  own_key id ->
  s_tokens data = Some tokens ->
  access_token tokens = Some token ->
  token <> "" ->
  (forall t, expires_at tokens = Some t -> t = 0 \/ now < t) ->
  let saved := saveAccount accounts id data in
  isAccountAuthenticated saved now id = true
  /\ (removeAccount saved id).2 = true
  /\ isAccountAuthenticated (removeAccount saved id).1 now id = false
  /\ forall id', id' <> id ->
       isAccountAuthenticated (removeAccount saved id).1 now id'
       = isAccountAuthenticated accounts now id'.
Proof.
  intros _ Hdata Htoken Hne Hexp saved. subst saved.
  unfold isAccountAuthenticated, getAccount, saveAccount, removeAccount.
  cbn [fst snd]. conj.
  - rewrite lookup_insert_eq. cbn [merge_account acc_tokens].
    rewrite Hdata, Htoken. unfold text_set.
    rewrite (bool_decide_eq_false_2 (token = "")) by exact Hne.
    cbn [negb]. unfold number_set.
    destruct (expires_at tokens) as [t|]; [|reflexivity].
    destruct (Hexp t eq_refl) as [-> | Hlt]; [reflexivity|].
    cbn [default]. rewrite (bool_decide_eq_false_2 (t <= now)) by lia.
    by rewrite andb_false_r.
  - apply bool_decide_eq_true_2. rewrite lookup_insert_eq. eauto.
  - by rewrite lookup_delete_eq.
  - intros id' Hid'. rewrite lookup_delete_ne by congruence.
    rewrite lookup_insert_ne by congruence. reflexivity.
Qed.

(** ** The routes of the sync operations *)

Lemma authenticated_cases accounts id w :
  authenticated accounts id w
  = (step w, Ok (isAccountAuthenticated accounts (clock w + 1) id))
  \/ exists msg, @authenticated num accounts id w = (step w, Throw msg).
Proof.
  unfold authenticated, bind. destruct (await_cases w) as [-> | [msg ->]]; eauto.
Qed.

(** X23: For an account that is not authenticated, the routes pull, push
    and sync-all answer an error right after the check, without running
    the operation: nothing but the one awaited call has happened. The
    error is 401 when no awaited call rejects. *)
Theorem sync_routes_refuse_an_unauthenticated_account accounts id w :
  isAccountAuthenticated accounts (clock w + 1) id = false ->
  exists code1 msg1 code2 msg2 code3 msg3,
    pull_route num_zero parseFloat accounts id w
    = (step w, Ok (Failed code1 msg1))
    /\ push_route num_zero parseFloat accounts id w
       = (step w, Ok (Failed code2 msg2))
    /\ sync_all_route num_zero parseFloat accounts id w
       = (step w, Ok (Failed code3 msg3))
    /\ (calm w -> code1 = 401 /\ code2 = 401 /\ code3 = 401).
Proof.
  intros Hauth. unfold pull_route, push_route, sync_all_route, route, try_catch.
  unfold bind at 1 3 5.
  destruct (authenticated_cases accounts id w) as [Hrun | [msg Hrun]];
    rewrite Hrun.
  - rewrite Hauth. cbn [negb]. eexists _, _, _, _, _, _. unfold ret.
    conj; [reflexivity | reflexivity | reflexivity |]. auto.
  - eexists _, _, _, _, _, _. conj; [reflexivity | reflexivity | reflexivity |].
    intros Hw. unfold authenticated, bind in Hrun.
    rewrite (proj1 (calm_await w Hw)) in Hrun. discriminate.
Qed.

(** X24: For an authenticated account, when the fetch of the listings
    rejects or reports an error message, the pull route answers 500 with
    that message, and has changed no record and sent nothing. *)
Theorem pull_route_reports_a_failed_fetch accounts id w msg :
  isAccountAuthenticated accounts (clock w + 1) id = true ->
  (exists rest, script w = None :: Some msg :: rest)
  \/ (calm w /\ d_error (remote w) = Some msg /\ msg <> "") ->
  exists w',
    pull_route num_zero parseFloat accounts id w = (w', Ok (Failed 500 msg))
    /\ items w' = items w /\ sent w' = sent w /\ lastSync w' = lastSync w.
Proof.
  intros Hauth Hfail. unfold pull_route, route, try_catch. unfold bind at 1.
  unfold authenticated, bind at 1.
  assert (Hfirst : await w = (step w, Ok tt)).
  { unfold await. destruct Hfail as [[rest ->] | [Hw _]]; [reflexivity|].
    apply (calm_await w Hw). }
  rewrite Hfirst. unfold bind at 1. unfold newDate, gets at 1.
  unfold ret at 1. change (clock (step w)) with (clock w + 1). rewrite Hauth.
  cbn [negb]. unfold bind at 1. unfold pullFromEbay. unfold bind at 1.
  unfold modify. unfold bind at 1. unfold getActiveListings, bind at 1.
  destruct Hfail as [[rest Hscript] | (Hw & Herr & Hne)].
  - unfold await. cbn [script set_results step]. rewrite Hscript. cbn [tail].
    eexists. conj; reflexivity.
  - rewrite (proj1 (calm_await (set_results (fun _ => no_results) (step w))
                      (proj2 (calm_await w Hw)))).
    unfold gets at 1. cbn [remote set_results step]. rewrite Herr.
    rewrite decide_False by exact Hne. unfold throw.
    eexists. conj; reflexivity.
Qed.

(** ** Backups *)

Lemma import_entry_counts st (item : @BackupItem num) w :
  exists w' st',
    import_entry num_zero st (Some item) w = (w', Ok st')
    /\ (st'.1.1 + st'.1.2 + length st'.2
        = S (st.1.1 + st.1.2 + length st.2))%nat.
Proof.
  destruct st as [[imported updated] errors]. unfold import_entry, try_catch.
  cbn [fst snd].
  case_decide as Hk.
  { eexists _, _. split; [reflexivity|]. cbn [fst snd].
    rewrite length_app. simpl. lia. }
  unfold bind at 1.
  destruct (getItem_cases (text_or (b_sku item) (text_or (b_SKU item) "")) w)
    as [-> | [msg ->]].
  2: { eexists _, _. split; [reflexivity|]. cbn [fst snd].
       rewrite length_app. simpl. lia. }
  unfold bind at 1. unfold newDate, gets at 1.
  destruct (items w !! _) as [existing|].
  - unfold updateItem_record, bind. awaits; unfold modify, ret.
    + eexists _, _. split; [reflexivity|]. cbn [fst snd]. lia.
    + eexists _, _. split; [reflexivity|]. cbn [fst snd].
      rewrite length_app. simpl. lia.
  - unfold createItem, bind. awaits; unfold modify, ret.
    + eexists _, _. split; [reflexivity|]. cbn [fst snd]. lia.
    + eexists _, _. split; [reflexivity|]. cbn [fst snd].
      rewrite length_app. simpl. lia.
Qed.

Lemma import_entry_null st w :
  @import_entry num _ num_zero st None w = (w, Throw null_has_no_sku).
Proof. destruct st as [[imported updated] errors]. reflexivity. Qed.

(** The loop over the entries: every entry counts once, up to the first
    [null], which ends the loop. *)
Lemma import_loop_cases (inventory : list (option (@BackupItem num))) :
  forall st w,
  exists w',
    ((None ∉ inventory)
     /\ exists st',
          for_fold inventory st (import_entry num_zero) w = (w', Ok st')
          /\ (st'.1.1 + st'.1.2 + length st'.2
              = st.1.1 + st.1.2 + length st.2 + length inventory)%nat)
    \/ ((None ∈ inventory)
        /\ for_fold inventory st (import_entry num_zero) w
           = (w', Throw null_has_no_sku)).
Proof.
  induction inventory as [|[item|] l IH]; intros st w.
  - exists w. left. split; [by intros ?%elem_of_nil|].
    exists st. split; [reflexivity|]. simpl. lia.
  - destruct (import_entry_counts st item w) as (w1 & st1 & Hrun & Hcount).
    destruct (IH st1 w1) as (w2 & [(Hnone & st2 & Hrun2 & Hcount2)
                                   | (Hnull & Hrun2)]);
      exists w2; cbn [for_fold]; unfold bind; rewrite Hrun, Hrun2.
    + left. split.
      * intros [Heq|Hin]%elem_of_cons; [discriminate | exact (Hnone Hin)].
      * exists st2. split; [reflexivity|]. simpl. lia.
    + right. split; [by right | reflexivity].
  - exists w. right. split; [by left|].
    cbn [for_fold]. unfold bind. rewrite import_entry_null. reflexivity.
Qed.

(** X25: The import route always answers when given an array. When no
    entry of the array is null it answers the summary, and the numbers
    of imported entries, updated entries and errors add up to the number
    of entries of the array; when an entry is null it answers the error
    500. *)
Theorem import_accounts_for_every_entry
    (inventory : list (option (@BackupItem num))) w :
  exists w' r,
    import_full_route num_zero (Some inventory) w = (w', Ok r)
    /\ match r with
       | Json summary =>
           (None ∉ inventory)
           /\ (imp_imported summary + imp_updated summary
               + length (imp_errors summary) = length inventory)%nat
       | Failed code _ => (None ∈ inventory) /\ code = 500
       | Beyond => False
       end.
Proof.
  unfold import_full_route, route, try_catch. unfold bind.
  destruct (import_loop_cases inventory (0%nat, 0%nat, []) w)
    as (w' & [(Hnone & [[imported updated] errors] & -> & Hcount)
              | (Hnull & ->)]).
  - eexists _, _. split; [reflexivity|]. split; [exact Hnone | exact Hcount].
  - eexists _, _. split; [reflexivity|].
    split; [exact Hnull | reflexivity].
Qed.


End Routes.

(** * The properties on concrete runs *)

Import Cases.

Lemma store_of_one (k : string) (item : @Item Z) l s k' item' :
  sku item = k ->
  items (world [item] l s) !! k' = Some item' -> k' = k /\ item' = item.
Proof.
  intros <-. unfold world. cbn [items fmap list_fmap list_to_map foldr fst snd].
  intros [[<- <-]|[_ Hk]]%lookup_insert_Some; [auto|].
  rewrite lookup_empty in Hk. discriminate.
Qed.

Lemma sync_never_deletes_witness :
  is_Some (items shelf !! "A")
  /\ is_Some (items (run_calls 0 parseFloat_digits calls shelf) !! "A").
Proof.
  assert (Hk : is_Some (items shelf !! "A")) by (eexists; vm_compute; reflexivity).
  split; [exact Hk|].
  apply (sync_never_deletes 0 parseFloat_digits calls shelf "A" Hk).
Defined.

Lemma sync_keeps_store_keyed_witness :
  well_keyed shelf
  /\ well_keyed (run_calls 0 parseFloat_digits calls shelf).
Proof.
  assert (Hw : well_keyed shelf).
  { intros k item Hk.
    destruct (store_of_one "A" untouched [] [] k item eq_refl Hk) as [-> ->].
    reflexivity. }
  split; [exact Hw|].
  apply (sync_keeps_store_keyed 0 parseFloat_digits calls shelf Hw).
Defined.

Lemma pull_twice_changes_nothing_witness :
  let w1 := (pullFromEbay 0 parseFloat_digits shelf_listed).1 in
  items (pullFromEbay 0 parseFloat_digits w1).1 = items w1.
Proof.
  destruct (pull_twice_changes_nothing 0 parseFloat_digits shelf_listed)
    as (w1 & r1 & w2 & r2 & H1 & H2 & Hitems & _).
  - constructor.
  - reflexivity.
  - vm_compute. apply NoDup_singleton.
  - cbv zeta. rewrite H1. cbn [fst]. rewrite H2. exact Hitems.
Defined.

Lemma pull_records_every_listing_witness :
  is_Some (items (pullFromEbay 0 parseFloat_digits unlisted).1 !! "A").
Proof.
  destruct (pull_records_every_listing 0 parseFloat_digits unlisted)
    as (w1 & r1 & H1 & _ & Hall).
  - constructor.
  - reflexivity.
  - repeat constructor. apply (bool_decide_unpack _). vm_compute. exact I.
  - rewrite H1. apply (Hall seven_left). apply list_elem_of_singleton.
    reflexivity.
Defined.

Lemma pull_never_raises_stock_witness :
  exists item,
    items (pullFromEbay 0 parseFloat_digits shelf_listed).1 !! "A" = Some item
    /\ 0 <= currentQty item <= 10.
Proof.
  apply (pull_never_raises_stock 0 parseFloat_digits shelf_listed "A" untouched).
  - intros k item Hk.
    destruct (store_of_one "A" untouched [seven_left] [] k item eq_refl Hk)
      as [-> ->].
    vm_compute. discriminate.
  - vm_compute. reflexivity.
Defined.

Lemma ebay_imports_are_listed_as_needing_sku_witness :
  exists w1 w2 l1 l2,
    inventory_route 0 (Some "ebay-imports") shelf = (w1, Ok (Json l1))
    /\ inventory_route 0 (Some "needs-sku") shelf = (w2, Ok (Json l2))
    /\ l1 `sublist_of` l2.
Proof.
  destruct (inventory_route 0 (Some "ebay-imports") shelf)
    as [w1 [[l1| |]|]] eqn:H1; try (vm_compute in H1; discriminate).
  destruct (inventory_route 0 (Some "needs-sku") shelf)
    as [w2 [[l2| |]|]] eqn:H2; try (vm_compute in H2; discriminate).
  exists w1, w2, l1, l2. split; [reflexivity|]. split; [reflexivity|].
  apply (ebay_imports_are_listed_as_needing_sku 0 parseFloat_digits shelf
           w1 w2 l1 l2 H1 H2).
Defined.

Lemma next_item_id_is_fresh_witness :
  exists w',
    next_item_id_route warehouse = (w', Ok (Json "0002"))
    /\ items w' = items warehouse
    /\ forall k item, items warehouse !! k = Some item -> itemCode item <> "0002".
Proof.
  destruct (next_item_id_route warehouse) as [w' o] eqn:Hrun.
  assert (Ho : o = Ok (Json "0002"))
    by (apply (f_equal snd) in Hrun; vm_compute in Hrun; symmetry; exact Hrun).
  subst o. exists w'. split; [reflexivity|].
  destruct (next_item_id_is_fresh warehouse w' (Json "0002") Hrun)
    as (Hitems & _ & Hfresh).
  auto.
Defined.

Lemma next_location_is_free_witness :
  exists w' r,
    next_location_route warehouse = (w', Ok r)
    /\ items w' = items warehouse
    /\ match r with
       | Json loc =>
           forall k item,
             items warehouse !! k = Some item ->
             fullLocation item <> nl_drawer loc +:+ "-" +:+ nl_position loc
       | Failed code _ => True
       | Beyond => False
       end.
Proof.
  destruct (next_location_route warehouse) as [w' [r|msg]] eqn:Hrun.
  - exists w', r. split; [reflexivity|].
    destruct (next_location_is_free warehouse w' r Hrun) as [Hitems Hr].
    split; [exact Hitems|].
    destruct r as [loc|code msg|]; [|exact I|exact Hr].
    destruct Hr as (_ & _ & _ & _ & Hfree).
    apply Hfree. intros k item Hk.
    destruct (store_of_one "000100101" stocked [] [] k item eq_refl Hk)
      as [-> ->].
    split; reflexivity.
  - exfalso. unfold next_location_route, route, try_catch in Hrun.
    destruct (bind _ _ warehouse) as [w1 [r|msg1]]; discriminate.
Defined.

Lemma delete_route_removes_one_witness :
  exists w',
    delete_route "000100101" warehouse
    = (w', Ok (Json ("Item deleted", item_ref stocked)))
    /\ items w' = delete "000100101" (items warehouse).
Proof.
  destruct (delete_route_removes_one "000100101" warehouse)
    as (w' & r & Hrun & Hr).
  - apply (bool_decide_unpack _). vm_compute. exact I.
  - assert (Hjson : r = Json ("Item deleted", item_ref stocked)).
    { apply (f_equal snd) in Hrun. vm_compute in Hrun.
      injection Hrun as <-. reflexivity. }
    subst r. destruct Hr as (item & _ & _ & Hitems).
    exists w'. split; [exact Hrun | exact Hitems].
Defined.

Lemma change_sku_route_renames_witness :
  exists w' body newItem,
    change_sku_route 0 png_of "000100101" "000100203" None warehouse
    = (w', Ok (Json body))
    /\ items w' !! "000100101" = None
    /\ items w' !! "000100203" = Some newItem
    /\ currentQty newItem = currentQty stocked.
Proof.
  destruct (change_sku_route 0 png_of "000100101" "000100203" None warehouse)
    as [w' [[body| |]|]] eqn:Hrun; try (vm_compute in Hrun; discriminate).
  destruct (change_sku_route_renames 0 png_of "000100101" "000100203" None
              warehouse w' body)
    as (oldItem & newItem & e & Hold & _ & _ & Hgone & Hnew & _ & _ & _ & _
        & _ & _ & Hqty & _).
  { apply (bool_decide_unpack _). vm_compute. exact I. }
  { exact Hrun. }
  exists w', body, newItem. split; [reflexivity|].
  split; [exact Hgone|]. split; [exact Hnew|].
  assert (Hstocked : items warehouse !! "000100101" = Some stocked)
    by (vm_compute; reflexivity).
  rewrite Hstocked in Hold. injection Hold as <-. exact Hqty.
Defined.

Lemma change_sku_route_never_loses_the_record_witness :
  exists w' r k item',
    change_sku_route 0 png_of "000100101" "12" None warehouse = (w', Ok r)
    /\ items w' !! k = Some item'
    /\ currentQty item' = currentQty stocked.
Proof.
  destruct (change_sku_route_never_loses_the_record 0 png_of "000100101" "12"
              None warehouse stocked)
    as (w' & r & Hrun & _ & k & item' & _ & Hk & Hqty & _).
  - vm_compute. reflexivity.
  - exists w', r, k, item'. auto.
Defined.

Lemma adjust_route_sets_the_record_witness :
  exists w' body item',
    adjust_route 0 "000100101" count_nine warehouse = (w', Ok (Json body))
    /\ items w' !! "000100101" = Some item'
    /\ currentQty item' = 9.
Proof.
  destruct (adjust_route 0 "000100101" count_nine warehouse)
    as [w' [[body| |]|]] eqn:Hrun; try (vm_compute in Hrun; discriminate).
  destruct (adjust_route_sets_the_record 0 "000100101" count_nine warehouse
              w' body)
    as (item & item' & _ & Hitems & _ & Hqty & _).
  { apply (bool_decide_unpack _). vm_compute. exact I. }
  { intros q item [= <-] Hitem. vm_compute in Hitem. injection Hitem as <-.
    split; vm_compute; split; discriminate. }
  { exact Hrun. }
  exists w', body, item'. split; [reflexivity|].
  split; [rewrite Hitems; apply lookup_insert_eq | exact Hqty].
Defined.

Lemma sync_item_route_sends_the_record_witness :
  exists w' message data,
    sync_item_route 0 "000100101" warehouse = (w', Ok (Json message))
    /\ sent w' = [data]
    /\ r_sku data = "000100101" /\ r_quantity data = 4.
Proof.
  destruct (sync_item_route 0 "000100101" warehouse)
    as [w' [[message| |]|]] eqn:Hrun; try (vm_compute in Hrun; discriminate).
  destruct (sync_item_route_sends_the_record 0 _ _ _ _ Hrun)
    as (item & e & data & Hitem & _ & _ & _ & _ & Hsent & Hsku & Hqty & _).
  vm_compute in Hitem. injection Hitem as <-.
  exists w', message, data. split; [reflexivity|].
  split; [exact Hsent|]. split; [exact Hsku | exact Hqty].
Defined.

Lemma add_route_adds_to_the_existing_record_witness :
  exists w' added k item',
    add_route 0 parseFloat_digits png_of above_zero three_more warehouse
    = (w', Ok (Json added))
    /\ items w' !! k = Some item'
    /\ ad_SKU added = k /\ ad_Quantity added = currentQty item'
    /\ well_keyed w'.
Proof.
  destruct (add_route 0 parseFloat_digits png_of above_zero three_more warehouse)
    as [w' [[added| |]|]] eqn:Hrun; try (vm_compute in Hrun; discriminate).
  destruct (add_route_adds_to_the_existing_record 0 parseFloat_digits png_of
              above_zero three_more warehouse w' added 3)
    as (k & existing & item' & e & _ & _ & Hitems & _ & _ & _ & _ & _
        & _ & _ & Hsku & Hqty & _ & Hkeyed).
  - intros k item Hk.
    destruct (store_of_one "000100101" stocked [] [] k item eq_refl Hk)
      as [-> ->].
    reflexivity.
  - vm_compute. reflexivity.
  - vm_compute. split; discriminate.
  - intros k item Hk _.
    destruct (store_of_one "000100101" stocked [] [] k item eq_refl Hk)
      as [-> ->].
    vm_compute. split; discriminate.
  - exists "000100101", stocked. split; vm_compute; reflexivity.
  - exact Hrun.
  - exists w', added, k, item'. split; [reflexivity|].
    split; [rewrite Hitems; apply lookup_insert_eq|]. auto.
Defined.

Lemma warehouse_has_no_0002 k (item : @Item Z) :
  items warehouse !! k = Some item -> itemCode item <> a_itemId five_new.
Proof.
  intros Hk.
  destruct (store_of_one "000100101" stocked [] [] k item eq_refl Hk)
    as [-> ->].
  discriminate.
Qed.

Lemma add_route_creates_witness :
  exists w' added newItem,
    add_route 0 parseFloat_digits png_of above_zero five_new warehouse
    = (w', Ok (Json added))
    /\ ad_SKU added = "000200203"
    /\ items w' !! "000200203" = Some newItem
    /\ fullLocation newItem = "002-03"
    /\ ad_Quantity added = currentQty newItem.
Proof.
  destruct (add_route 0 parseFloat_digits png_of above_zero five_new warehouse)
    as [w' [[added| |]|]] eqn:Hrun; try (vm_compute in Hrun; discriminate).
  destruct (add_route_creates 0 parseFloat_digits png_of above_zero five_new
              warehouse w' added 5)
    as (newItem & e & _ & _ & Hitems & _ & _ & _ & _ & Hloc & Hq & _
        & _ & _ & _ & Hsku & Hqty & _).
  { vm_compute. reflexivity. }
  { vm_compute. split; discriminate. }
  { exact warehouse_has_no_0002. }
  { exact Hrun. }
  exists w', added, newItem. split; [reflexivity|].
  split; [exact Hsku|].
  split; [rewrite Hitems; apply lookup_insert_eq|].
  split; [exact Hloc | congruence].
Defined.

Lemma sku_is_read_as_it_was_built_witness :
  exists w' added newItem,
    add_route 0 parseFloat_digits png_of above_zero five_new warehouse
    = (w', Ok (Json added))
    /\ items w' !! ad_SKU added = Some newItem
    /\ fullLocation (change_sku_item "000100101" (sku newItem) None newItem 7)
       = fullLocation newItem.
Proof.
  destruct (add_route 0 parseFloat_digits png_of above_zero five_new warehouse)
    as [w' [[added| |]|]] eqn:Hrun; try (vm_compute in Hrun; discriminate).
  destruct (sku_is_read_as_it_was_built 0 parseFloat_digits png_of above_zero
              five_new warehouse w' added warehouse_has_no_0002)
    as (newItem & Hnew & Hread).
  - simpl. lia.
  - simpl. lia.
  - exact Hrun.
  - exists w', added, newItem. split; [reflexivity|]. split; [exact Hnew|].
    apply (Hread "000100101" None 7).
Defined.

Lemma second_place_listed : ("001", "02") ∈ locations.
Proof.
  unfold locations.
  apply list_elem_of_bind. exists 1. split; [|apply elem_of_seqZ; lia].
  apply list_elem_of_bind. exists 2. split; [|apply elem_of_seqZ; lia].
  apply list_elem_of_singleton. vm_compute. reflexivity.
Qed.

Lemma proposed_id_and_location_are_accepted_witness :
  exists w1 id w2 loc w3 added,
    next_item_id_route warehouse = (w1, Ok (Json id))
    /\ next_location_route w1 = (w2, Ok (Json loc))
    /\ add_route 0 parseFloat_digits png_of above_zero
         {| a_itemId := id; a_drawer := nl_drawer loc;
            a_position := nl_position loc; a_price := "10";
            a_quantity := "5"; a_description := "Gadget" |} w2
       = (w3, Ok (Json added))
    /\ ad_SKU added = id +:+ nextLocation loc
    /\ ad_Quantity added = 5.
Proof.
  assert (Hid : next_item_id_route warehouse
                = (step warehouse, Ok (Json "0002")))
    by (vm_compute; reflexivity).
  destruct (next_location_answers (step warehouse) ("001", "02"))
    as [loc Hnl].
  - constructor.
  - exact second_place_listed.
  - intros k item Hk.
    destruct (store_of_one "000100101" stocked [] [] k item eq_refl Hk)
      as [-> ->].
    discriminate.
  - destruct (proposed_id_and_location_are_accepted 0 parseFloat_digits png_of
                above_zero warehouse (step warehouse) (step (step warehouse))
                "0002" loc
                {| a_itemId := "0002"; a_drawer := nl_drawer loc;
                   a_position := nl_position loc; a_price := "10";
                   a_quantity := "5"; a_description := "Gadget" |} 5)
      as (w3 & added & newItem & Hrun & Hsku & Hqty & _).
    + intros k item Hk.
      destruct (store_of_one "000100101" stocked [] [] k item eq_refl Hk)
        as [-> ->].
      split; reflexivity.
    + exact Hid.
    + exact Hnl.
    + constructor.
    + reflexivity.
    + reflexivity.
    + reflexivity.
    + vm_compute. reflexivity.
    + vm_compute. split; discriminate.
    + exists (step warehouse), "0002", (step (step warehouse)), loc, w3, added.
      auto.
Defined.

Lemma listed_token_flag_agrees_with_authentication_witness :
  shop_entry ∈ getAllAccounts accounts 100
  /\ truthy (entry_hasValidToken shop_entry)
     = isAccountAuthenticated accounts 100 (entry_id shop_entry).
Proof.
  assert (Hin : shop_entry ∈ getAllAccounts accounts 100).
  { replace (getAllAccounts accounts 100) with [shop_entry]
      by (vm_compute; reflexivity).
    apply list_elem_of_singleton. reflexivity. }
  split; [exact Hin|].
  apply (listed_token_flag_agrees_with_authentication accounts 100 shop_entry Hin).
Defined.

Lemma saving_without_tokens_keeps_authentication_witness :
  isAccountAuthenticated (saveAccount accounts "acc_1" synced_now) 100 "acc_1"
  = isAccountAuthenticated accounts 100 "acc_1".
Proof.
  apply (saving_without_tokens_keeps_authentication accounts "acc_1" synced_now
           100 "acc_1").
  reflexivity.
Defined.

Lemma saved_tokens_authenticate_until_removed_witness :
  let saved :=
    saveAccount ∅ "acc_1"
      {| s_name := Some (Some "Shop"); s_tokens := acc_tokens shop;
         s_addedAt := Some 1; s_lastSync := None |} in
  isAccountAuthenticated saved 100 "acc_1" = true
  /\ isAccountAuthenticated (removeAccount saved "acc_1").1 100 "acc_1" = false.
Proof.
  destruct (saved_tokens_authenticate_until_removed ∅ "acc_1"
              {| s_name := Some (Some "Shop"); s_tokens := acc_tokens shop;
                 s_addedAt := Some 1; s_lastSync := None |}
              {| access_token := Some "token"; refresh_token := Some "refresh";
                 expires_at := Some 500; token_type := Some "Bearer" |}
              "token" 100)
    as (Hsaved & _ & Hremoved & _).
  - apply (bool_decide_unpack _). vm_compute. exact I.
  - reflexivity.
  - reflexivity.
  - discriminate.
  - intros t [= <-]. right. lia.
  - split; [exact Hsaved | exact Hremoved].
Defined.

Lemma sync_routes_refuse_an_unauthenticated_account_witness :
  exists msg1 msg2 msg3,
    pull_route 0 parseFloat_digits accounts "acc_2" warehouse
    = (step warehouse, Ok (Failed 401 msg1))
    /\ push_route 0 parseFloat_digits accounts "acc_2" warehouse
       = (step warehouse, Ok (Failed 401 msg2))
    /\ sync_all_route 0 parseFloat_digits accounts "acc_2" warehouse
       = (step warehouse, Ok (Failed 401 msg3)).
Proof.
  destruct (sync_routes_refuse_an_unauthenticated_account 0 parseFloat_digits
              accounts "acc_2" warehouse)
    as (c1 & m1 & c2 & m2 & c3 & m3 & H1 & H2 & H3 & Hcodes).
  - vm_compute. reflexivity.
  - destruct Hcodes as (-> & -> & ->); [constructor|].
    exists m1, m2, m3. auto.
Defined.

Lemma pull_route_reports_a_failed_fetch_witness :
  exists w',
    pull_route 0 parseFloat_digits accounts "acc_1" warehouse_offline
    = (w', Ok (Failed 500 "timeout"))
    /\ items w' = items warehouse_offline.
Proof.
  destruct (pull_route_reports_a_failed_fetch 0 parseFloat_digits accounts
              "acc_1" warehouse_offline "timeout")
    as (w' & Hrun & Hitems & _).
  - vm_compute. reflexivity.
  - left. exists []. reflexivity.
  - exists w'. auto.
Defined.

